(** * mkdeb: a shallow embedding of the package-assembly pipeline

    The Go package [mkdeb] turns a JSON manifest into a Debian package: an
    [ar] container holding a control tarball and a data tarball.  This file
    embeds the typed primitives ([type.go], [perm.go], [compress.go]), the
    file-entry and manifest models ([util.go], [manifest.go]) and the build
    pipeline with its [ar] encoder, and proves properties of them.

    Conventions of the embedding:
    - a Go [string] or [[]byte] is a [string] (a sequence of 8-bit [ascii]);
      a [[]byte] that may be [nil] is an [option string];
    - [byte]-typed enumerations are [N] with the source's [iota] constants;
    - [int], [int64], [uint16] are [Z], wrap-around written out where the
      source can reach it;
    - a method with a pointer receiver returns the receiver's new state next
      to its result; a method with a value receiver works on a copy;
    - [panic] is a result of its own, distinct from a returned [error]. *)

From Stdlib Require Import ZArith NArith String Ascii List Lia.
From stdpp Require Import gmap strings list fin_maps.

Local Open Scope Z_scope.

(** ** Results, errors and panics *)

(** [fmt.Errorf] keeps its format string and its arguments; rendering the
    message text is the business of package [fmt]. *)
Inductive Error : Type :=
| Errorf (format : string) (args : list Arg)
with Arg : Type :=
| AStr (s : string)
| AInt (z : Z)
| AErr (e : Error).

Inductive res (A : Type) : Type :=
| Ok (a : A)
| Err (e : Error)
| Panic (e : Error).
Arguments Ok {A} a.
Arguments Err {A} e.
Arguments Panic {A} e.

Definition bind {A B : Type} (r : res A) (k : A → res B) : res B :=
  match r with
  | Ok a => k a
  | Err e => Err e
  | Panic e => Panic e
  end.

Notation "'do' x <~ r 'in' k" := (bind r (λ x, k))
  (at level 10, x name, r at level 100, k at level 200, only parsing).

Definition is_Ok {A : Type} (r : res A) : bool :=
  match r with Ok _ => true | _ => false end.

Definition is_Panic {A : Type} (r : res A) : bool :=
  match r with Panic _ => true | _ => false end.

Definition got {A : Type} (d : A) (r : res A) : A :=
  match r with Ok a => a | _ => d end.

Definition is_Err {A : Type} (r : res A) : bool :=
  match r with Err _ => true | _ => false end.

(** ** The parts of the Go library the package calls *)

Module Go.

(** *** Bytes *)

Definition byteIn (lo hi : N) (c : ascii) : bool :=
  (lo <=? N_of_ascii c)%N && (N_of_ascii c <=? hi)%N.

Definition isDigit (c : ascii) : bool := byteIn 48 57 c.
Definition isUpper (c : ascii) : bool := byteIn 65 90 c.
Definition isLower (c : ascii) : bool := byteIn 97 122 c.
Definition isAlnum (c : ascii) : bool := isDigit c || isUpper c || isLower c.

Fixpoint anyByte (p : ascii → bool) (s : string) : bool :=
  match s with
  | EmptyString => false
  | String c t => p c || anyByte p t
  end.

Fixpoint mapBytes (f : ascii → ascii) (s : string) : string :=
  match s with
  | EmptyString => EmptyString
  | String c t => String (f c) (mapBytes f t)
  end.

Definition len (s : string) : Z := Z.of_nat (String.length s).

(** *** Package [strings] *)

Fixpoint HasPrefix (s p : string) : bool :=
  match p, s with
  | EmptyString, _ => true
  | String c p', String d s' => Ascii.eqb c d && HasPrefix s' p'
  | String _ _, EmptyString => false
  end.

Definition HasSuffix (s suffix : string) : bool :=
  (String.length suffix <=? String.length s)%nat &&
  String.eqb
    (substring (String.length s - String.length suffix) (String.length suffix) s)
    suffix.

(** [strings.TrimRight s cutset] for a cutset of single bytes: the longest
    run of cutset bytes at the end of [s] is removed. *)
Fixpoint TrimRight (s cutset : string) : string :=
  match s with
  | EmptyString => EmptyString
  | String c t =>
      match TrimRight t cutset with
      | EmptyString =>
          if anyByte (Ascii.eqb c) cutset then EmptyString
          else String c EmptyString
      | t' => String c t'
      end
  end.

Definition lowerByte (c : ascii) : ascii :=
  if isUpper c then ascii_of_N (N_of_ascii c + 32) else c.

Definition isASCII (s : string) : bool :=
  negb (anyByte (λ c, (128 <=? N_of_ascii c)%N) s).

(** [strings.ToLower]: byte-wise on a string of ASCII bytes; any other
    string goes through the Unicode case tables, which are a parameter
    [unicodeLower] of the embedding. *)
Definition ToLower (unicodeLower : string → string) (s : string) : string :=
  if isASCII s then mapBytes lowerByte s else unicodeLower s.

(** *** Package [strconv] *)

Definition digitChar (d : Z) : ascii := ascii_of_N (Z.to_N (48 + d)).

(** The decimal digits of [n], least significant first, pushed in front of
    [acc]; [fuel] bounds the number of divisions by ten. *)
Fixpoint formatDigits (fuel : nat) (n : Z) (acc : string) : string :=
  let acc := String (digitChar (n mod 10)) acc in
  match fuel with
  | O => acc
  | S fuel' => if n <? 10 then acc else formatDigits fuel' (n / 10) acc
  end.

(** [strconv.FormatUint n 10]; a number has no more decimal digits than
    binary ones. *)
Definition FormatUint (n : Z) : string :=
  formatDigits (Z.to_nat (Z.log2 n)) n "".

(** [strconv.FormatInt z 10], also [%d]. *)
Definition FormatInt (z : Z) : string :=
  if z <? 0 then String "-" (FormatUint (- z)) else FormatUint z.

Definition digitVal (c : ascii) : Z := Z.of_N (N_of_ascii c) - 48.

(** The digits of [s] in [base] (at most 10), most significant first;
    [None] is [strconv.ErrSyntax]. *)
Fixpoint parseDigits (base : Z) (acc : Z) (s : string) : option Z :=
  match s with
  | EmptyString => Some acc
  | String c t =>
      if isDigit c && (digitVal c <? base)
      then parseDigits base (acc * base + digitVal c) t
      else None
  end.

(** [strconv.ParseUint s base bitSize] with an explicit base of at most 10:
    no sign, no prefix, no underscores; [None] for a syntax or range
    error. *)
Definition ParseUint (s : string) (base : Z) (bitSize : Z) : option Z :=
  match s with
  | EmptyString => None
  | _ =>
      match parseDigits base 0 s with
      | Some v => if v <? 2 ^ bitSize then Some v else None
      | None => None
      end
  end.

(** [strconv.ParseInt s 10 0] on a platform whose [int] has 64 bits: an
    optional sign, then decimal digits, the value within [int64]. *)
Definition ParseInt (s : string) : option Z :=
  match s with
  | EmptyString => None
  | String c t =>
      let neg := Ascii.eqb c "-" in
      let digits := if neg || Ascii.eqb c "+" then t else s in
      match ParseUint digits 10 64 with
      | Some un =>
          if neg then (if un <=? 2 ^ 63 then Some (- un) else None)
          else (if un <? 2 ^ 63 then Some un else None)
      | None => None
      end
  end.

(** *** Package [fmt] and [encoding/hex] *)

Definition hexDigit (n : N) : ascii :=
  match String.get (N.to_nat n) "0123456789abcdef" with
  | Some c => c
  | None => "?"%char
  end.

(** [%02x] of a byte. *)
Definition hex2 (n : N) : string :=
  String (hexDigit (n / 16 mod 16)) (String (hexDigit (n mod 16)) EmptyString).

Fixpoint EncodeToString (s : string) : string :=
  match s with
  | EmptyString => EmptyString
  | String c t => hex2 (N_of_ascii c) +:+ EncodeToString t
  end.

(** A word between two double-quote bytes. *)
Definition quoted (s : string) : string :=
  String (ascii_of_nat 34) s +:+ String (ascii_of_nat 34) EmptyString.

Fixpoint spaces (n : nat) : string :=
  match n with
  | O => EmptyString
  | S n' => String " " (spaces n')
  end.

(** [fmt.Sprintf("%-10d", z)]: the decimal text, padded on the right with
    spaces up to width 10 and never truncated. *)
Definition Sprintf_left10 (z : Z) : string :=
  let d := FormatInt z in
  d +:+ spaces (10 - String.length d).

(** *** Package [path] *)

(** The elements of [s] between occurrences of [sep]. *)
Fixpoint splitOn (sep : ascii) (s : string) : list string :=
  match s with
  | EmptyString => [EmptyString]
  | String c t =>
      if Ascii.eqb c sep then EmptyString :: splitOn sep t
      else match splitOn sep t with
           | [] => [String c EmptyString]
           | e :: es => String c e :: es
           end
  end.

Fixpoint joinWith (sep : string) (l : list string) : string :=
  match l with
  | [] => EmptyString
  | [e] => e
  | e :: es => e +:+ sep +:+ joinWith sep es
  end.

(** One step of [path.Clean] over the elements of the path.  [stack] holds
    the elements written so far, last written first; [locked] counts the
    leading [..] elements of an unrooted path, which no later [..] can
    remove. *)
Definition cleanStep (rooted : bool) (st : list string * nat) (e : string)
  : list string * nat :=
  let '(stack, locked) := st in
  if String.eqb e "" || String.eqb e "." then st
  else if String.eqb e ".." then
    if (locked <? List.length stack)%nat then (tail stack, locked)
    else if rooted then st
    else (e :: stack, S locked)
  else (e :: stack, locked).

(** [path.Clean]: empty elements and [.] are dropped, [..] removes the
    element before it, a rooted path loses [..] at its root, and the empty
    result is [.]. *)
Definition Clean (p : string) : string :=
  match p with
  | EmptyString => "."
  | String c _ =>
      let rooted := Ascii.eqb c "/" in
      let '(stack, _) := fold_left (cleanStep rooted) (splitOn "/" p) ([], O) in
      let body := joinWith "/" (rev stack) in
      if rooted then "/" +:+ body
      else if String.eqb body "" then "." else body
  end.

(** The first component of [path.Split]: everything up to and including the
    last slash. *)
Fixpoint splitDir (s : string) : string :=
  match s with
  | EmptyString => EmptyString
  | String c t =>
      if anyByte (Ascii.eqb "/") t then String c (splitDir t)
      else if Ascii.eqb c "/" then String c EmptyString
      else EmptyString
  end.

Definition Dir (p : string) : string := Clean (splitDir p).

(** *** Package [regexp]

    Regular expressions over bytes, matched against a whole string (every
    expression of the package is anchored by [^] and [$]) with Brzozowski
    derivatives.  The package's character classes are all ASCII, so a
    byte outside ASCII matches none of them, as no rune outside ASCII
    does. *)

Inductive regex : Type :=
| Nul
| Eps
| Cls (p : ascii → bool)
| Seq (a b : regex)
| Alt (a b : regex)
| Star (a : regex).

Definition Plus (a : regex) : regex := Seq a (Star a).
Definition Opt (a : regex) : regex := Alt a Eps.
Definition Chr (c : ascii) : regex := Cls (Ascii.eqb c).
Definition OneOf (set : string) : regex := Cls (λ c, anyByte (Ascii.eqb c) set).

Fixpoint Lit (s : string) : regex :=
  match s with
  | EmptyString => Eps
  | String c t => Seq (Chr c) (Lit t)
  end.

Fixpoint nullable (r : regex) : bool :=
  match r with
  | Nul => false
  | Eps => true
  | Cls _ => false
  | Seq a b => nullable a && nullable b
  | Alt a b => nullable a || nullable b
  | Star _ => true
  end.

Definition mkSeq (a b : regex) : regex :=
  match a, b with
  | Nul, _ => Nul
  | _, Nul => Nul
  | Eps, _ => b
  | _, _ => Seq a b
  end.

Definition mkAlt (a b : regex) : regex :=
  match a, b with
  | Nul, _ => b
  | _, Nul => a
  | _, _ => Alt a b
  end.

Fixpoint deriv (c : ascii) (r : regex) : regex :=
  match r with
  | Nul => Nul
  | Eps => Nul
  | Cls p => if p c then Eps else Nul
  | Seq a b =>
      if nullable a then mkAlt (mkSeq (deriv c a) b) (deriv c b)
      else mkSeq (deriv c a) b
  | Alt a b => mkAlt (deriv c a) (deriv c b)
  | Star a => mkSeq (deriv c a) (Star a)
  end.

Fixpoint MatchString (r : regex) (s : string) : bool :=
  match s with
  | EmptyString => nullable r
  | String c t => MatchString (deriv c r) t
  end.

(** *** Package [unicode/utf8] and [unicode] *)

Definition RuneError : N := 65533.

Definition isCont (c : ascii) : bool := byteIn 128 191 c.

Definition low6 (c : ascii) : N := N_of_ascii c mod 64.

(** The runes a [range] loop over a string yields: well-formed UTF-8 is
    decoded, and any byte that starts no well-formed sequence yields
    [RuneError] and is skipped alone. *)
Fixpoint runes (s : string) : list N :=
  match s with
  | EmptyString => []
  | String b0 t0 =>
      let n0 := N_of_ascii b0 in
      let bad := RuneError :: runes t0 in
      if (n0 <? 128)%N then n0 :: runes t0
      else match t0 with
      | String b1 t1 =>
          if byteIn 194 223 b0 && isCont b1
          then (n0 mod 32 * 64 + low6 b1)%N :: runes t1
          else match t1 with
          | String b2 t2 =>
              if byteIn 224 239 b0 && isCont b2 &&
                 byteIn (if (n0 =? 224)%N then 160 else 128)
                        (if (n0 =? 237)%N then 159 else 191) b1
              then (n0 mod 16 * 4096 + low6 b1 * 64 + low6 b2)%N :: runes t2
              else match t2 with
              | String b3 t3 =>
                  if byteIn 240 244 b0 && isCont b2 && isCont b3 &&
                     byteIn (if (n0 =? 240)%N then 144 else 128)
                            (if (n0 =? 244)%N then 143 else 191) b1
                  then (n0 mod 8 * 262144 + low6 b1 * 4096
                        + low6 b2 * 64 + low6 b3)%N :: runes t3
                  else bad
              | EmptyString => bad
              end
          | EmptyString => bad
          end
      | EmptyString => bad
      end
  end.

Definition inRange (lo hi r : N) : bool := (lo <=? r)%N && (r <=? hi)%N.

(** [unicode.Is(unicode.Cc, r)]: the control characters. *)
Definition isCc (r : N) : bool := inRange 0 31 r || inRange 127 159 r.

(** [unicode.Is(unicode.Z, r)]: the space, line and paragraph separators. *)
Definition isZ (r : N) : bool :=
  (r =? 32)%N || (r =? 160)%N || (r =? 5760)%N || inRange 8192 8202 r ||
  inRange 8232 8233 r || (r =? 8239)%N || (r =? 8287)%N || (r =? 12288)%N.

End Go.

(** ** Typed primitives *)

Section Primitives.

(** The Unicode lower-casing of [strings.ToLower] for strings that are not
    all ASCII. *)
Variable unicodeLower : string → string.

(** *** [type.go]: the entry type *)

Definition TypeAUTO : N := 0.
Definition TypeDIR : N := 1.
Definition TypeREG : N := 2.
Definition TypeLNK : N := 3.
Definition TypeFIFO : N := 4.
Definition TypeCHR : N := 5.
Definition TypeBLK : N := 6.

Definition fileTypeGoNameArray : list string :=
  [ "mkdeb.TypeAUTO"; "mkdeb.TypeDIR"; "mkdeb.TypeREG"; "mkdeb.TypeLNK";
    "mkdeb.TypeFIFO"; "mkdeb.TypeCHR"; "mkdeb.TypeBLK" ].

Definition fileTypeNameArray : list string :=
  [ "AUTO"; "DIR"; "REG"; "LNK"; "FIFO"; "CHR"; "BLK" ].

Definition fileTypeAliasMap : gmap string N :=
  list_to_map
    [ ("", TypeAUTO); ("auto", TypeAUTO);
      ("directory", TypeDIR); ("dir", TypeDIR); ("d", TypeDIR);
      ("regular-file", TypeREG); ("regular", TypeREG); ("reg", TypeREG);
      ("r", TypeREG); ("file", TypeREG); ("f", TypeREG); ("-", TypeREG);
      ("link", TypeLNK); ("l", TypeLNK); ("symbolic-link", TypeLNK);
      ("sym-link", TypeLNK); ("symlink", TypeLNK);
      ("fifo", TypeFIFO); ("pipe", TypeFIFO); ("p", TypeFIFO);
      ("char-device", TypeCHR); ("char-dev", TypeCHR); ("chardev", TypeCHR);
      ("char", TypeCHR); ("chr-dev", TypeCHR); ("chrdev", TypeCHR);
      ("chr", TypeCHR); ("c", TypeCHR);
      ("block-device", TypeBLK); ("block-dev", TypeBLK); ("blockdev", TypeBLK);
      ("block", TypeBLK); ("blk-dev", TypeBLK); ("blkdev", TypeBLK);
      ("blk", TypeBLK); ("b", TypeBLK) ].

(** [array[x]] for an [x] checked to be below [len(array)]. *)
Definition index (array : list string) (x : N) : string :=
  nth (N.to_nat x) array EmptyString.

Definition below (x : N) (array : list string) : bool :=
  (x <? N.of_nat (List.length array))%N.

Definition Type_IsValid (ft : N) : bool := below ft fileTypeGoNameArray.

Definition Type_String (ft : N) : string :=
  if below ft fileTypeNameArray then index fileTypeNameArray ft
  else "fileType#" +:+ Go.hex2 ft.

(** A [Parse] method assigns through its pointer receiver: the first
    component is the receiver after the call. *)
Definition Type_Parse (input : string) : N * option Error :=
  match fileTypeAliasMap !! input with
  | Some value => (value, None)
  | None =>
      match fileTypeAliasMap !! Go.ToLower unicodeLower input with
      | Some value => (value, None)
      | None =>
          (0%N, Some (Errorf "failed to parse %q as mkdeb.Type enum constant"
                             [AStr input]))
      end
  end.

(** *** [type.go], second part: the hash algorithm *)

Definition HashMD5 : N := 0.
Definition HashSHA1 : N := 1.
Definition HashSHA256 : N := 2.

Definition standardHashes : list N := [HashMD5; HashSHA1; HashSHA256].

Definition hashNameArray : list string := ["MD5"; "SHA1"; "SHA256"].

Definition hashFileNameArray : list string := ["md5sum"; "sha1sum"; "sha256sum"].

Definition hashMap : gmap string N :=
  list_to_map
    [ ("md5", HashMD5); ("md-5", HashMD5);
      ("sha1", HashSHA1); ("sha-1", HashSHA1);
      ("sha256", HashSHA256); ("sha-256", HashSHA256);
      ("sha2", HashSHA256); ("sha-2", HashSHA256) ].

Definition HashAlgorithm_String (algo : N) : string :=
  if below algo hashNameArray then index hashNameArray algo
  else "algo#" +:+ Go.hex2 algo.

Definition HashAlgorithm_FileName (algo : N) : string :=
  if below algo hashFileNameArray then index hashFileNameArray algo
  else "cksum." +:+ Go.hex2 algo.

Definition HashAlgorithm_Parse (input : string) : N * option Error :=
  match hashMap !! input with
  | Some value => (value, None)
  | None =>
      match hashMap !! Go.ToLower unicodeLower input with
      | Some value => (value, None)
      | None =>
          (0%N, Some (Errorf "failed to parse %q as HashAlgorithm enum constant"
                             [AStr input]))
      end
  end.

(** *** [compress.go]: the compression algorithm *)

Definition CompressAuto : N := 0.
Definition CompressNone : N := 1.
Definition CompressGZIP : N := 2.
Definition CompressBZIP2 : N := 3.
Definition CompressXZ : N := 4.
Definition CompressZSTD : N := 5.

Definition compressNameArray : list string :=
  ["auto"; "none"; "gzip"; "bzip2"; "xz"; "zstd"].

Definition compressSuffixArray : list string :=
  [""; ""; ".gz"; ".bz2"; ".xz"; ".zstd"].

Definition compressMap : gmap string N :=
  list_to_map
    [ ("", CompressAuto); ("auto", CompressAuto); ("none", CompressNone);
      ("gzip", CompressGZIP); ("gz", CompressGZIP);
      ("bzip2", CompressBZIP2); ("bzip", CompressBZIP2); ("bz2", CompressBZIP2);
      ("xz", CompressXZ); ("zstd", CompressZSTD) ].

Definition CompressAlgorithm_String (algo : N) : string :=
  if below algo compressNameArray then index compressNameArray algo
  else "compression#" +:+ Go.hex2 algo.

Definition CompressAlgorithm_Suffix (algo : N) : string :=
  if below algo compressSuffixArray then index compressSuffixArray algo
  else "".

Definition CompressAlgorithm_Parse (input : string) : N * option Error :=
  match compressMap !! input with
  | Some value => (value, None)
  | None =>
      match compressMap !! Go.ToLower unicodeLower input with
      | Some value => (value, None)
      | None =>
          (0%N, Some (Errorf
                        "failed to parse %q as mkdeb.CompressAlgorithm enum constant"
                        [AStr input]))
      end
  end.

(** *** [perm.go]: permission bits, a [uint16] *)

Definition octalDigit (d : Z) : ascii :=
  match String.get (Z.to_nat d) "01234567" with
  | Some c => c
  | None => "?"%char
  end.

Definition appendOctal (out : string) (num : Z) : string :=
  let ch0 := octalDigit (Z.land (Z.shiftr num 9) 7) in
  let ch1 := octalDigit (Z.land (Z.shiftr num 6) 7) in
  let ch2 := octalDigit (Z.land (Z.shiftr num 3) 7) in
  let ch3 := octalDigit (Z.land (Z.shiftr num 0) 7) in
  out +:+ String ch0 (String ch1 (String ch2 (String ch3 EmptyString))).

Definition Perm_AppendTo (perm : Z) (out : string) : string :=
  appendOctal out perm.

Definition Perm_String (perm : Z) : string := Perm_AppendTo perm "".

Definition Perm_Parse (input : string) : Z * option Error :=
  if String.eqb input "" then (0, None)
  else match Go.ParseUint input 8 16 with
       | None =>
           (0, Some (Errorf "failed to parse %q as octal uint16: %w"
                            [AStr input; AErr (Errorf "strconv.ParseUint" [])]))
       | Some num => (Z.land num 4095, None)
       end.

(** *** [util.go], last part: the owner *)

Definition OwnerUnspecified : N := 0.
Definition OwnerByID : N := 1.
Definition OwnerByName : N := 2.

Record Owner : Type := mkOwner {
  o_Type : N;
  o_ID : Z;
  o_Name : string
}.

(** The zero value [Owner{}]. *)
Definition Owner_zero : Owner := mkOwner OwnerUnspecified 0 "".

Definition ID (id : Z) : Owner := mkOwner OwnerByID id "".

Definition Name (name : string) : Owner := mkOwner OwnerByName 0 name.

Definition Owner_IsZero (owner : Owner) : bool :=
  negb (o_Type owner =? OwnerByID)%N && negb (o_Type owner =? OwnerByName)%N.

Definition Owner_Equal (owner other : Owner) : bool :=
  if (o_Type owner =? OwnerByID)%N then
    (o_Type other =? OwnerByID)%N && (o_ID owner =? o_ID other)
  else if (o_Type owner =? OwnerByName)%N then
    (o_Type other =? OwnerByName)%N && String.eqb (o_Name owner) (o_Name other)
  else Owner_IsZero other.

Definition Owner_String (owner : Owner) : string :=
  if (o_Type owner =? OwnerByID)%N then "#" +:+ Go.FormatInt (o_ID owner)
  else if (o_Type owner =? OwnerByName)%N then o_Name owner
  else "".

(** [Owner.Parse]: the receiver after the call and the returned error. *)
Definition Owner_Parse (input : string) : Owner * option Error :=
  match input with
  | EmptyString => (Owner_zero, None)
  | String c rest =>
      if Ascii.eqb c "#" then
        match Go.ParseInt rest with
        | Some i64 => (ID i64, None)
        | None => (Name input, None)
        end
      else (Name input, None)
  end.

End Primitives.

(** ** [util.go], first part: the syntactic validators *)

Module Rx.
Import Go.

Definition alnum : regex := Cls isAlnum.
Definition lowerAlnum : regex := Cls (λ c, isDigit c || isLower c).
Definition digit : regex := Cls isDigit.

(** [(?:[.-]|_+)] *)
Definition sep : regex := Alt (OneOf ".-") (Plus (Chr "_")).

(** [nameComponent]: [(?:[.-]|_+)?[0-9A-Za-z]+(?:(?:[.-]|_+)[0-9A-Za-z]+)*] *)
Definition nameComponent : regex :=
  Seq (Opt sep) (Seq (Plus alnum) (Star (Seq sep (Plus alnum)))).

(** [^(?:[.]|(?:nameComponent/)*nameComponent)/?$] *)
Definition nameRx : regex :=
  Seq (Alt (OneOf ".")
           (Seq (Star (Seq nameComponent (Chr "/"))) nameComponent))
      (Opt (Chr "/")).

(** [^[0-9a-z][0-9a-z]+(?:[.+-][0-9a-z]+)*$] *)
Definition packageRx : regex :=
  Seq lowerAlnum
      (Seq (Plus lowerAlnum) (Star (Seq (OneOf ".+-") (Plus lowerAlnum)))).

(** [^(?:[1-9][0-9]*[:])?[0-9][0-9A-Za-z]*(?:[.~+-][0-9A-Za-z]+)*$] *)
Definition versionRx : regex :=
  Seq (Opt (Seq (Cls (byteIn 49 57)) (Seq (Star digit) (OneOf ":"))))
      (Seq digit (Seq (Star alnum) (Star (Seq (OneOf ".~+-") (Plus alnum))))).

(** [^[0-9A-Za-z]+(?:[-][0-9A-Za-z]+)*$] *)
Definition archRx : regex :=
  Seq (Plus alnum) (Star (Seq (OneOf "-") (Plus alnum))).

(** [^[0-9a-z]+(?:[/-][0-9a-z]+)*$] *)
Definition sectionRx : regex :=
  Seq (Plus lowerAlnum) (Star (Seq (OneOf "/-") (Plus lowerAlnum))).

(** [^(?:required|important|standard|optional|extra)$] *)
Definition priorityRx : regex :=
  Alt (Lit "required")
      (Alt (Lit "important")
           (Alt (Lit "standard") (Alt (Lit "optional") (Lit "extra")))).

End Rx.

Definition isValidUnixPath (str : string) : bool := Go.MatchString Rx.nameRx str.
Definition isValidPackage (str : string) : bool := Go.MatchString Rx.packageRx str.
Definition isValidVersion (str : string) : bool := Go.MatchString Rx.versionRx str.
Definition isValidArch (str : string) : bool := Go.MatchString Rx.archRx str.
Definition isValidSection (str : string) : bool := Go.MatchString Rx.sectionRx str.
Definition isValidPriority (str : string) : bool := Go.MatchString Rx.priorityRx str.
Definition isValidDepends (str : string) : bool := true.
Definition isValidMaintainer (str : string) : bool := true.
Definition isValidURL (str : string) : bool := true.
Definition isValidBuiltUsing (str : string) : bool := true.

(** The loop of [isValidDescriptionLine] over the runes of the line:
    [None] is the early [return false], otherwise the final [spaceCount]. *)
Fixpoint descriptionLoop (rs : list N) (spaceCount : Z) : option Z :=
  match rs with
  | [] => Some spaceCount
  | ch :: rest =>
      if Go.isCc ch then None
      else descriptionLoop rest (if Go.isZ ch then spaceCount + 1 else 0)
  end.

Definition isValidDescriptionLine (str : string) : bool :=
  match descriptionLoop (Go.runes str) 0 with
  | None => false
  | Some spaceCount => spaceCount <=? 0
  end.

(** ** [util.go], second part: one file entry *)

(** [time.Time] as seconds since the Unix epoch; the zero [Time] is
    January 1 of year 1. *)
Definition Time_zero : Z := -62135596800.
Definition Time_IsZero (t : Z) : bool := t =? Time_zero.

Record File : Type := mkFile {
  f_Name : string;
  f_Type : N;
  f_IsConf : bool;
  f_Perm : Z;
  f_User : Owner;
  f_Group : Owner;
  f_MTime : Z;
  f_Major : option Z;
  f_Minor : option Z;
  f_Path : option string;
  f_Text : option string;
  f_Bytes : option string;
  f_Link : option string;
  f_isResolved : bool;
  f_size : Z;
  f_isHashed : bool;
  f_hashes : gmap N string
}.

(** Assignments to the fields the package writes. *)
Definition File_setName (file : File) (name : string) : File :=
  mkFile name (f_Type file) (f_IsConf file) (f_Perm file) (f_User file)
    (f_Group file) (f_MTime file) (f_Major file) (f_Minor file) (f_Path file)
    (f_Text file) (f_Bytes file) (f_Link file) (f_isResolved file)
    (f_size file) (f_isHashed file) (f_hashes file).

Definition File_setType (file : File) (ft : N) : File :=
  mkFile (f_Name file) ft (f_IsConf file) (f_Perm file) (f_User file)
    (f_Group file) (f_MTime file) (f_Major file) (f_Minor file) (f_Path file)
    (f_Text file) (f_Bytes file) (f_Link file) (f_isResolved file)
    (f_size file) (f_isHashed file) (f_hashes file).

Definition File_setResolved (file : File) (size : Z) : File :=
  mkFile (f_Name file) (f_Type file) (f_IsConf file) (f_Perm file)
    (f_User file) (f_Group file) (f_MTime file) (f_Major file) (f_Minor file)
    (f_Path file) (f_Text file) (f_Bytes file) (f_Link file) true size
    (f_isHashed file) (f_hashes file).

Definition File_setHashes (file : File) (isHashed : bool)
    (hashes : gmap N string) : File :=
  mkFile (f_Name file) (f_Type file) (f_IsConf file) (f_Perm file)
    (f_User file) (f_Group file) (f_MTime file) (f_Major file) (f_Minor file)
    (f_Path file) (f_Text file) (f_Bytes file) (f_Link file)
    (f_isResolved file) (f_size file) isHashed hashes.

Definition isSome {A : Type} (o : option A) : bool :=
  match o with Some _ => true | None => false end.

(** The first check that fails. *)
Fixpoint firstError (checks : list (bool * Error)) : option Error :=
  match checks with
  | [] => None
  | (failed, e) :: rest => if failed then Some e else firstError rest
  end.

Definition optLen (o : option string) : Z :=
  match o with Some s => Go.len s | None => 0 end.

Definition optStr (o : option string) : string :=
  match o with Some s => s | None => "" end.

Definition optInt (o : option Z) : Z :=
  match o with Some z => z | None => 0 end.

(** The type fix-up of [validateImpl]. *)
Definition fixupType (file : File) : File :=
  if (f_Type file =? TypeAUTO)%N then
    File_setType file
      (if Go.HasSuffix (f_Name file) "/" then TypeDIR else TypeREG)
  else file.

(** The checks of [validateImpl] that follow the fix-ups of type and name,
    in source order. *)
Definition contentChecks (file : File) : list (bool * Error) :=
  if (f_Type file =? TypeREG)%N then
    [ (isSome (f_Path file) && negb (isValidUnixPath (optStr (f_Path file))),
       Errorf "path: invalid Unix path %q" [AStr (optStr (f_Path file))]);
      (isSome (f_Path file) && Go.HasSuffix (optStr (f_Path file)) "/",
       Errorf "path: unexpected trailing '/': %q" [AStr (optStr (f_Path file))]);
      (isSome (f_Path file) && isSome (f_Text file),
       Errorf ("text: conflict with field " +:+ Go.quoted "path") []);
      (isSome (f_Path file) && isSome (f_Bytes file),
       Errorf ("bytes: conflict with field " +:+ Go.quoted "path") []);
      (isSome (f_Text file) && isSome (f_Bytes file),
       Errorf ("bytes: conflict with field " +:+ Go.quoted "text") []) ]
  else
    [ (f_IsConf file, Errorf ("isConf: conflict with field " +:+ Go.quoted "type") []);
      (isSome (f_Path file),
       Errorf "path: unexpected value for field: %q" [AStr (optStr (f_Path file))]);
      (isSome (f_Text file),
       Errorf "text: unexpected value for field (%d bytes)"
              [AInt (optLen (f_Text file))]);
      (isSome (f_Bytes file),
       Errorf "bytes: unexpected value for field (%d bytes)"
              [AInt (optLen (f_Bytes file))]) ].

Definition linkChecks (file : File) : list (bool * Error) :=
  if (f_Type file =? TypeLNK)%N then
    [ (negb (isSome (f_Link file)), Errorf "link: missing required field" []);
      (negb (String.eqb (optStr (f_Link file)) (Go.Clean (optStr (f_Link file)))),
       Errorf "link: value is not canonical: expected %q, got %q"
              [AStr (Go.Clean (optStr (f_Link file))); AStr (optStr (f_Link file))]) ]
  else
    [ (isSome (f_Link file),
       Errorf "link: unexpected value for field: %q" [AStr (optStr (f_Link file))]) ].

Definition deviceChecks (file : File) : list (bool * Error) :=
  if (f_Type file =? TypeCHR)%N || (f_Type file =? TypeBLK)%N then
    [ (negb (isSome (f_Major file)), Errorf "major: missing required field" []);
      (negb (isSome (f_Minor file)), Errorf "major: missing required field" []) ]
  else
    [ (isSome (f_Major file),
       Errorf "major: unexpected value for field: %d" [AInt (optInt (f_Major file))]);
      (isSome (f_Minor file),
       Errorf "minor: unexpected value for field: %d" [AInt (optInt (f_Minor file))]) ].

(** [File.validateImpl], a pointer-receiver method: the entry after the
    call and the returned error.  The fix-ups of [Type] and [Name] happen
    before the later checks and stay when one of those fails. *)
Definition validateImpl (file : File) : File * option Error :=
  if String.eqb (f_Name file) "" then
    (file, Some (Errorf "name: missing required field" []))
  else if negb (isValidUnixPath (f_Name file)) then
    (file, Some (Errorf "name: invalid Unix path %q" [AStr (f_Name file)]))
  else if negb (Type_IsValid (f_Type file)) then
    (file, Some (Errorf "type: invalid value %#v" [AInt (Z.of_N (f_Type file))]))
  else
    let file := fixupType file in
    let named :=
      if (f_Type file =? TypeDIR)%N then
        (File_setName file (Go.TrimRight (f_Name file) "/" +:+ "/"), None)
      else if String.eqb (f_Name file) "." || Go.HasSuffix (f_Name file) "/" then
        (file, Some (Errorf "name: value is only appropriate for a directory: %q"
                            [AStr (f_Name file)]))
      else (file, None) in
    match named with
    | (file, Some e) => (file, Some e)
    | (file, None) =>
        (file,
         firstError (contentChecks file ++ linkChecks file ++ deviceChecks file))
    end.

(** [File.Validate], a value-receiver method: [validateImpl] runs on a copy
    of the entry and only the error comes back. *)
Definition File_Validate (file : File) : option Error :=
  snd (validateImpl file).

(** The content root: the bytes of the regular file at each path that has
    one.  [fs.Stat] and [Open] fail at every other path. *)
Definition FS : Type := string → option string.

(** [File.Resolve], a pointer-receiver method. *)
Definition File_Resolve (fileSystem : FS) (file : File) : File * option Error :=
  match validateImpl file with
  | (file, Some e) => (file, Some e)
  | (file, None) =>
      let stat (statPath : string) : File * option Error :=
        match fileSystem statPath with
        | None =>
            (file, Some (Errorf "failed to stat %q: %w"
                                [AStr statPath; AErr (Errorf "fs.Stat" [])]))
        | Some content => (File_setResolved file (Go.len content), None)
        end in
      if (f_Type file =? TypeREG)%N then
        match f_Bytes file, f_Text file, f_Path file with
        | Some bytes, _, _ => (File_setResolved file (Go.len bytes), None)
        | None, Some text, _ => (File_setResolved file (Go.len text), None)
        | None, None, Some path => stat path
        | None, None, None => stat (f_Name file)
        end
      else (File_setResolved file 0, None)
  end.

(** ** [manifest.go], second part: block padding *)

Definition wrapU64 (z : Z) : Z := z mod 2 ^ 64.

(** The conversion of a 64-bit pattern to [int64]. *)
Definition toInt64 (z : Z) : Z :=
  let u := wrapU64 z in
  if u <? 2 ^ 63 then u else u - 2 ^ 64.

(** [pad] on [uint64]: [&^] is and-not. *)
Definition pad (size : Z) (shift : Z) : Z :=
  let x := wrapU64 (wrapU64 (Z.shiftl 1 shift) - 1) in
  Z.ldiff (wrapU64 (size + x)) x.

Definition padSigned (size : Z) (shift : Z) : res Z :=
  let neg := size <? 0 in
  let size := if neg then toInt64 (- size) else size in
  let result := toInt64 (pad (wrapU64 size) shift) in
  if result <? 0 then
    Panic (Errorf "out of range: pad(%d, %d) => %d"
                  [AInt size; AInt shift; AInt result])
  else Ok (if neg then toInt64 (- result) else result).

(** ** [manifest.go]: the manifest *)

Record Manifest : Type := mkManifest {
  m_Package : string;
  m_Version : string;
  m_Arch : string;
  m_Section : string;
  m_Priority : string;
  m_Essential : string;
  m_Depends : string;
  m_PreDepends : string;
  m_Recommends : string;
  m_Suggests : string;
  m_Enhances : string;
  m_Breaks : string;
  m_Conflicts : string;
  m_Maintainer : string;
  m_HomePage : string;
  m_BuiltUsing : string;
  m_ShortDescription : string;
  m_LongDescription : list string;
  m_ImplicitDirs : list string;
  m_Files : list File;
  m_PreInstall : list string;
  m_PostInstall : list string;
  m_PreRemove : list string;
  m_PostRemove : list string;
  m_isResolved : bool;
  m_installedSize : Z;
  m_isHashed : bool
}.

(** The manifest with its entries and private state replaced. *)
Definition Manifest_with (manifest : Manifest) (files : list File)
    (isResolved : bool) (installedSize : Z) (isHashed : bool) : Manifest :=
  mkManifest (m_Package manifest) (m_Version manifest) (m_Arch manifest)
    (m_Section manifest) (m_Priority manifest) (m_Essential manifest)
    (m_Depends manifest) (m_PreDepends manifest) (m_Recommends manifest)
    (m_Suggests manifest) (m_Enhances manifest) (m_Breaks manifest)
    (m_Conflicts manifest) (m_Maintainer manifest) (m_HomePage manifest)
    (m_BuiltUsing manifest) (m_ShortDescription manifest)
    (m_LongDescription manifest) (m_ImplicitDirs manifest) files
    (m_PreInstall manifest) (m_PostInstall manifest) (m_PreRemove manifest)
    (m_PostRemove manifest) isResolved installedSize isHashed.

Definition Manifest_setFiles (manifest : Manifest) (files : list File) : Manifest :=
  Manifest_with manifest files (m_isResolved manifest)
    (m_installedSize manifest) (m_isHashed manifest).

Definition nonEmpty (s : string) : bool := negb (String.eqb s "").

Fixpoint longDescriptionLoop (index : nat) (lines : list string) : option Error :=
  match lines with
  | [] => None
  | line :: rest =>
      if negb (isValidDescriptionLine line) then
        Some (Errorf "longDescription[%d]: invalid Description continuation line %q"
                     [AInt (Z.of_nat index); AStr line])
      else longDescriptionLoop (S index) rest
  end.

Definition dependsCheck (field : string) (value : string) : bool * Error :=
  (nonEmpty value && negb (isValidDepends value),
   Errorf (field +:+ ": invalid Debian package dependency spec %q") [AStr value]).

Definition validatePre (manifest : Manifest) : option Error :=
  match
    firstError
      [ (String.eqb (m_Package manifest) "",
         Errorf "package: missing required field" []);
        (negb (isValidPackage (m_Package manifest)),
         Errorf "package: invalid Debian package name %q" [AStr (m_Package manifest)]);
        (String.eqb (m_Version manifest) "",
         Errorf "version: missing required field" []);
        (negb (isValidVersion (m_Version manifest)),
         Errorf "version: invalid Debian package version %q" [AStr (m_Version manifest)]);
        (String.eqb (m_Arch manifest) "",
         Errorf "arch: missing required field" []);
        (negb (isValidArch (m_Arch manifest)),
         Errorf "version: invalid Debian package architecture %q" [AStr (m_Arch manifest)]);
        (nonEmpty (m_Section manifest) && negb (isValidSection (m_Section manifest)),
         Errorf "version: invalid Debian package section %q" [AStr (m_Section manifest)]);
        (nonEmpty (m_Priority manifest) && negb (isValidPriority (m_Priority manifest)),
         Errorf "version: invalid Debian package priority %q" [AStr (m_Priority manifest)]);
        dependsCheck "essential" (m_Essential manifest);
        dependsCheck "depends" (m_Depends manifest);
        dependsCheck "preDepends" (m_PreDepends manifest);
        dependsCheck "recommends" (m_Recommends manifest);
        dependsCheck "suggests" (m_Suggests manifest);
        dependsCheck "enhances" (m_Enhances manifest);
        dependsCheck "breaks" (m_Breaks manifest);
        dependsCheck "conflicts" (m_Conflicts manifest);
        (String.eqb (m_Maintainer manifest) "",
         Errorf "maintainer: missing required field" []);
        (negb (isValidMaintainer (m_Maintainer manifest)),
         Errorf "maintainer: invalid Maintainer line %q" [AStr (m_Maintainer manifest)]);
        (nonEmpty (m_HomePage manifest) && negb (isValidURL (m_HomePage manifest)),
         Errorf "homePage: invalid URL %q" [AStr (m_HomePage manifest)]);
        (nonEmpty (m_BuiltUsing manifest)
           && negb (isValidBuiltUsing (m_BuiltUsing manifest)),
         Errorf "builtUsing: invalid Built-Using line %q" [AStr (m_BuiltUsing manifest)]);
        (String.eqb (m_ShortDescription manifest) "",
         Errorf "shortDescription: missing required field" []);
        (negb (isValidDescriptionLine (m_ShortDescription manifest)),
         Errorf "shortDescription: invalid Description line %q"
                [AStr (m_ShortDescription manifest)]) ]
  with
  | Some e => Some e
  | None => longDescriptionLoop 0 (m_LongDescription manifest)
  end.

(** The first loop of [validatePost]: the set of known directories. *)
Fixpoint implicitDirsLoop (index : nat) (dirs : list string)
    (knownDirectories : gset string) : gset string + Error :=
  match dirs with
  | [] => inl knownDirectories
  | dir :: rest =>
      if negb (isValidUnixPath dir) then
        inr (Errorf "implicitDirs[%d]: invalid Unix path %q"
                    [AInt (Z.of_nat index); AStr dir])
      else
        implicitDirsLoop (S index) rest
          ({[ Go.TrimRight dir "/" ]} ∪ knownDirectories)
  end.

(** The second loop of [validatePost], over the entries in list order. *)
Fixpoint filesLoop (index : nat) (files : list File) (seen : gmap string nat)
    (knownDirectories : gset string) : option Error :=
  match files with
  | [] => None
  | file :: rest =>
      let name := f_Name file in
      match seen !! name with
      | Some oldIndex =>
          Some (Errorf "files[%d]: duplicate file %q has the same name as files[%d]"
                       [AInt (Z.of_nat index); AStr name; AInt (Z.of_nat oldIndex)])
      | None =>
          let seen := <[ name := index ]> seen in
          let name := Go.TrimRight name "/" in
          let dir := Go.Dir name in
          if negb (bool_decide (dir ∈ knownDirectories)) then
            Some (Errorf "files[%d]: directory %q might not exist yet"
                         [AInt (Z.of_nat index); AStr dir])
          else
            filesLoop (S index) rest seen
              (if (f_Type file =? TypeDIR)%N
               then {[ name ]} ∪ knownDirectories else knownDirectories)
      end
  end.

Definition validatePost (manifest : Manifest) : option Error :=
  match implicitDirsLoop 0 (m_ImplicitDirs manifest) {[ "." ]} with
  | inr e => Some e
  | inl knownDirectories =>
      filesLoop 0 (m_Files manifest) ∅ knownDirectories
  end.

(** The per-entry loop of [Manifest.Validate]: each entry is copied into the
    loop variable and validated there. *)
Fixpoint validateFilesLoop (index : nat) (files : list File) : option Error :=
  match files with
  | [] => None
  | file :: rest =>
      match File_Validate file with
      | Some e => Some (Errorf "files[%d]: %w" [AInt (Z.of_nat index); AErr e])
      | None => validateFilesLoop (S index) rest
      end
  end.

(** [Manifest.Validate], a value-receiver method: the first component is the
    caller's manifest after the call, which the method cannot reach. *)
Definition Manifest_Validate (manifest : Manifest) : Manifest * option Error :=
  (manifest,
   match validatePre manifest with
   | Some e => Some e
   | None =>
       match validateFilesLoop 0 (m_Files manifest) with
       | Some e => Some e
       | None => validatePost manifest
       end
   end).

(** A loop [for index := range files] that updates the entries in place and
    threads an accumulator, stopping at the first error or panic. *)
Fixpoint forFiles {A : Type} (step : nat → File → A → File * res A)
    (index : nat) (files : list File) (acc : A) : list File * res A :=
  match files with
  | [] => ([], Ok acc)
  | file :: rest =>
      match step index file acc with
      | (file, Ok acc) =>
          let '(rest, r) := forFiles step (S index) rest acc in
          (file :: rest, r)
      | (file, Err e) => (file :: rest, Err e)
      | (file, Panic e) => (file :: rest, Panic e)
      end
  end.

Definition resolveStep (fileSystem : FS) (index : nat) (file : File)
    (installedSize : Z) : File * res Z :=
  match File_Resolve fileSystem file with
  | (file, Some e) =>
      (file, Err (Errorf "files[%d]: %w" [AInt (Z.of_nat index); AErr e]))
  | (file, None) =>
      (file,
       do padded <~ padSigned (f_size file) 12 in
       Ok (toInt64 (installedSize + padded)))
  end.

(** [Manifest.Resolve], a pointer-receiver method: the manifest after the
    call and the outcome. *)
Definition Manifest_Resolve (fileSystem : FS) (manifest : Manifest)
  : Manifest * res unit :=
  match validatePre manifest with
  | Some e => (manifest, Err e)
  | None =>
      match forFiles (resolveStep fileSystem) 0 (m_Files manifest) 0 with
      | (files, Err e) => (Manifest_setFiles manifest files, Err e)
      | (files, Panic e) => (Manifest_setFiles manifest files, Panic e)
      | (files, Ok installedSize) =>
          let manifest := Manifest_setFiles manifest files in
          match validatePost manifest with
          | Some e => (manifest, Err e)
          | None =>
              (Manifest_with manifest files true installedSize
                 (m_isHashed manifest), Ok tt)
          end
      end
  end.

Definition mustResolve {A : Type} (manifest : Manifest) (k : res A) : res A :=
  if negb (m_isResolved manifest) then
    Panic (Errorf "must call Resolve first" [])
  else k.

Definition field (key value : string) : string :=
  key +:+ value +:+ "
".

Definition optField (key value : string) : string :=
  if nonEmpty value then field key value else "".

Definition nl : string := "
".

Fixpoint concatMap {A : Type} (f : A → string) (l : list A) : string :=
  match l with
  | [] => ""
  | x :: rest => f x +:+ concatMap f rest
  end.

Definition ControlFile (manifest : Manifest) : res string :=
  mustResolve manifest
    (Ok (field "Package: " (m_Package manifest)
         +:+ field "Version: " (m_Version manifest)
         +:+ optField "Section: " (m_Section manifest)
         +:+ optField "Priority: " (m_Priority manifest)
         +:+ optField "Architecture: " (m_Arch manifest)
         +:+ optField "Essential: " (m_Essential manifest)
         +:+ optField "Depends: " (m_Depends manifest)
         +:+ optField "Pre-Depends: " (m_PreDepends manifest)
         +:+ optField "Recommends: " (m_Recommends manifest)
         +:+ optField "Suggests: " (m_Suggests manifest)
         +:+ optField "Enhances: " (m_Enhances manifest)
         +:+ optField "Breaks: " (m_Breaks manifest)
         +:+ optField "Conflicts: " (m_Conflicts manifest)
         +:+ field "Installed-Size: " (Go.FormatInt (m_installedSize manifest))
         +:+ field "Maintainer: " (m_Maintainer manifest)
         +:+ optField "Homepage: " (m_HomePage manifest)
         +:+ optField "Built-Using: " (m_BuiltUsing manifest)
         +:+ field "Description: " (m_ShortDescription manifest)
         +:+ concatMap (λ line, if String.eqb line "" then " ." +:+ nl
                                else " " +:+ line +:+ nl)
               (m_LongDescription manifest))).

(** [bytes.Buffer.Bytes] of a buffer that was declared with [var] and never
    grown nor written is the [nil] slice; a write of at least one byte
    makes it non-nil. *)
Definition bufferBytes (written : list string) : option string :=
  if forallb (String.eqb "") written then None
  else Some (concatMap id written).

Definition ConfFiles (manifest : Manifest) : res (option string) :=
  mustResolve manifest
    (Ok (bufferBytes
           (flat_map (λ file, if f_IsConf file then [f_Name file; nl] else [])
                     (m_Files manifest)))).

Definition scriptPreamble : string :=
  "#!/bin/bash" +:+ nl +:+ "set -euo pipefail" +:+ nl
  +:+ "umask 022" +:+ nl +:+ "cd /" +:+ nl.

(** The body shared by the four script renderers. *)
Definition script (manifest : Manifest) (lines : list string) : res (option string) :=
  mustResolve manifest
    (match lines with
     | [] => Ok None
     | _ => Ok (Some (scriptPreamble +:+ concatMap (λ line, line +:+ nl) lines))
     end).

Definition PreInstallScript (manifest : Manifest) : res (option string) :=
  script manifest (m_PreInstall manifest).
Definition PostInstallScript (manifest : Manifest) : res (option string) :=
  script manifest (m_PostInstall manifest).
Definition PreRemoveScript (manifest : Manifest) : res (option string) :=
  script manifest (m_PreRemove manifest).
Definition PostRemoveScript (manifest : Manifest) : res (option string) :=
  script manifest (m_PostRemove manifest).

(** ** The build pipeline *)

(** *** [archive/tar] as the pipeline uses it *)

Definition tar_FormatPAX : N := 4.
Definition tar_TypeReg : N := 48.
Definition tar_TypeSymlink : N := 50.
Definition tar_TypeChar : N := 51.
Definition tar_TypeBlock : N := 52.
Definition tar_TypeDir : N := 53.
Definition tar_TypeFifo : N := 54.

Record TarHeader : Type := mkTarHeader {
  h_Format : N;
  h_Typeflag : N;
  h_Name : string;
  h_Linkname : string;
  h_Size : Z;
  h_Mode : Z;
  h_Uid : Z;
  h_Gid : Z;
  h_Uname : string;
  h_Gname : string;
  h_ModTime : Z;
  h_Devmajor : Z;
  h_Devminor : Z
}.

Definition TarHeader_setModTime (hdr : TarHeader) (t : Z) : TarHeader :=
  mkTarHeader (h_Format hdr) (h_Typeflag hdr) (h_Name hdr) (h_Linkname hdr)
    (h_Size hdr) (h_Mode hdr) (h_Uid hdr) (h_Gid hdr) (h_Uname hdr)
    (h_Gname hdr) t (h_Devmajor hdr) (h_Devminor hdr).

Record TarMember : Type := mkTarMember {
  tm_hdr : TarHeader;
  tm_body : string
}.

(** A [tar.Writer]: the members written so far, oldest first, and the
    number of body bytes the last header still announces.  Failures of the
    underlying sink are not part of the model: every write to it
    succeeds. *)
Record TarWriter : Type := mkTarWriter {
  tw_members : list TarMember;
  tw_missing : Z
}.

Definition tar_NewWriter : TarWriter := mkTarWriter [] 0.

Definition tar_headerOnly (flag : N) : bool :=
  (flag =? tar_TypeSymlink)%N || (flag =? tar_TypeChar)%N ||
  (flag =? tar_TypeBlock)%N || (flag =? tar_TypeDir)%N ||
  (flag =? tar_TypeFifo)%N.

Definition tar_WriteHeader (tw : TarWriter) (hdr : TarHeader) : res TarWriter :=
  if negb (tw_missing tw =? 0) then
    Err (Errorf "archive/tar: missed writing %d bytes" [AInt (tw_missing tw)])
  else if h_Size hdr <? 0 then
    Err (Errorf "archive/tar: cannot encode header" [])
  else
    Ok (mkTarWriter (tw_members tw ++ [mkTarMember hdr ""])
          (if tar_headerOnly (h_Typeflag hdr) then 0 else h_Size hdr)).

Fixpoint appendLast (members : list TarMember) (p : string) : list TarMember :=
  match members with
  | [] => []
  | [m] => [mkTarMember (tm_hdr m) (tm_body m +:+ p)]
  | m :: rest => m :: appendLast rest p
  end.

Definition tar_Write (tw : TarWriter) (p : string) : res TarWriter :=
  if tw_missing tw <? Go.len p then
    Err (Errorf "archive/tar: write too long" [])
  else
    Ok (mkTarWriter (appendLast (tw_members tw) p) (tw_missing tw - Go.len p)).

(** What the pipeline takes from outside the package. *)
Record Extern : Type := mkExtern {
  (** The digest of a byte string under [crypto/md5], [crypto/sha1] and
      [crypto/sha256], by algorithm. *)
  x_hashSum : N → string → string;
  (** The bytes [archive/tar] writes for a sequence of members,
      end-of-archive marker included. *)
  x_tarEncode : list TarMember → string;
  (** The bytes a compressing writer of [compress/gzip], [xz] or [zstd] has
      written once closed, by algorithm. *)
  x_compressEncode : N → string → string;
  (** The package's file-mode constants, which the sources at hand use but
      do not declare. *)
  x_unixModeFMT : Z;
  x_unixModeDIR : Z;
  x_unixModeREG : Z;
  x_unixModeLNK : Z;
  x_unixModeFIFO : Z;
  x_unixModeCHR : Z;
  x_unixModeBLK : Z
}.

Section Pipeline.

Variable X : Extern.

Local Abbreviation hashSum := (x_hashSum X).
Local Abbreviation tarEncode := (x_tarEncode X).
Local Abbreviation compressEncode := (x_compressEncode X).
Local Abbreviation unixModeFMT := (x_unixModeFMT X).
Local Abbreviation unixModeDIR := (x_unixModeDIR X).
Local Abbreviation unixModeREG := (x_unixModeREG X).
Local Abbreviation unixModeLNK := (x_unixModeLNK X).
Local Abbreviation unixModeFIFO := (x_unixModeFIFO X).
Local Abbreviation unixModeCHR := (x_unixModeCHR X).
Local Abbreviation unixModeBLK := (x_unixModeBLK X).

Definition tar_Close (tw : TarWriter) : res string :=
  if negb (tw_missing tw =? 0) then
    Err (Errorf "archive/tar: missed writing %d bytes" [AInt (tw_missing tw)])
  else Ok (tarEncode (tw_members tw)).

(** *** [util.go]: the entry as a tar header, and its content *)

Definition nilDeref {A : Type} : res A :=
  Panic (Errorf "runtime error: invalid memory address or nil pointer dereference" []).

Definition deref {A : Type} (o : option A) : res A :=
  match o with Some a => Ok a | None => nilDeref end.

Definition AsTarHeader (file : File) : res TarHeader :=
  if negb (f_isResolved file) then Panic (Errorf "must call Resolve first" [])
  else
    let uid := if (o_Type (f_User file) =? OwnerByID)%N then o_ID (f_User file) else 0 in
    let uname :=
      if (o_Type (f_User file) =? OwnerByName)%N then o_Name (f_User file) else "" in
    let gid := if (o_Type (f_Group file) =? OwnerByID)%N then o_ID (f_Group file) else 0 in
    let gname :=
      if (o_Type (f_Group file) =? OwnerByName)%N then o_Name (f_Group file) else "" in
    let finish (defaultPerm : Z) (flag : N) (mode : Z) (linkname : string)
               (major minor : Z) : res TarHeader :=
      let perm := if f_Perm file =? 0 then defaultPerm else f_Perm file in
      Ok (mkTarHeader tar_FormatPAX flag (f_Name file) linkname (f_size file)
            (Z.lor mode perm) uid gid uname gname (f_MTime file) major minor) in
    let ft := f_Type file in
    if (ft =? TypeDIR)%N then finish 493 tar_TypeDir unixModeDIR "" 0 0
    else if (ft =? TypeREG)%N then finish 420 tar_TypeReg unixModeREG "" 0 0
    else if (ft =? TypeLNK)%N then
      do link <~ deref (f_Link file) in
      finish 511 tar_TypeSymlink unixModeLNK link 0 0
    else if (ft =? TypeFIFO)%N then finish 384 tar_TypeFifo unixModeFIFO "" 0 0
    else if (ft =? TypeCHR)%N then
      do major <~ deref (f_Major file) in
      do minor <~ deref (f_Minor file) in
      finish 384 tar_TypeChar unixModeCHR "" major minor
    else if (ft =? TypeBLK)%N then
      do major <~ deref (f_Major file) in
      do minor <~ deref (f_Minor file) in
      finish 384 tar_TypeBlock unixModeBLK "" major minor
    else finish 384 0%N unixModeFMT "" 0 0.

(** [File.Reader]: all the bytes the returned reader yields. *)
Definition File_Reader (fileSystem : FS) (file : File) : res string :=
  if negb (f_isResolved file) then Panic (Errorf "must call Resolve first" [])
  else if negb (f_Type file =? TypeREG)%N then Ok ""
  else
    let open (name : string) : res string :=
      match fileSystem name with
      | Some content => Ok content
      | None => Err (Errorf "failed to open %q: %w"
                            [AStr name; AErr (Errorf "fs.Open" [])])
      end in
    match f_Bytes file, f_Text file, f_Path file with
    | Some bytes, _, _ => Ok bytes
    | None, Some text, _ => Ok text
    | None, None, Some path => open path
    | None, None, None => open (f_Name file)
    end.

(** *** The builder *)

Record Builder : Type := mkBuilder {
  b_Root : FS;
  b_ZeroTime : Z;
  b_Compression : N;
  b_Hashes : option (list N)
}.

Definition fillDefaults (builder : Builder) : Builder :=
  mkBuilder (b_Root builder)
    (if Time_IsZero (b_ZeroTime builder) then 1577836800 else b_ZeroTime builder)
    (if (b_Compression builder =? CompressAuto)%N then CompressGZIP
     else b_Compression builder)
    (match b_Hashes builder with
     | None => Some standardHashes
     | Some hashes => Some hashes
     end).

(** [range builder.Hashes]. *)
Definition hashesOf (builder : Builder) : list N :=
  match b_Hashes builder with Some hashes => hashes | None => [] end.

(** [CompressAlgorithm.NewWriter] and the compressed stream once closed:
    the function from the bytes written to the bytes that reach the sink. *)
Definition CompressAlgorithm_NewWriter (algo : N) : res (string → string) :=
  if (algo =? CompressNone)%N then Ok id
  else if (algo =? CompressGZIP)%N || (algo =? CompressXZ)%N
          || (algo =? CompressZSTD)%N then Ok (compressEncode algo)
  else Panic (Errorf "%#v not implemented" [AInt (Z.of_N algo)]).

(** [HashAlgorithm.New]: a fresh hasher is the empty input. *)
Definition HashAlgorithm_New (algo : N) : res string :=
  if (algo =? HashMD5)%N || (algo =? HashSHA1)%N || (algo =? HashSHA256)%N
  then Ok ""
  else Panic (Errorf "%#v not implemented" [AInt (Z.of_N algo)]).

(** The loop that fills [hw.hashers]: each hasher is the input it has
    absorbed. *)
Fixpoint newHashers (algos : list N) (hashers : gmap N string)
  : res (gmap N string) :=
  match algos with
  | [] => Ok hashers
  | algo :: rest =>
      do hasher <~ HashAlgorithm_New algo in
      newHashers rest (<[ algo := hasher ]> hashers)
  end.

(** [hashWriter.Write] for a write the tar layer takes whole. *)
Definition hashWriter_Write (hashers : gmap N string) (p : string)
  : gmap N string :=
  (λ absorbed, absorbed +:+ p) <$> hashers.

(** The loop that fills [file.hashes] from the hashers. *)
Fixpoint sumHashers (algos : list N) (hashers : gmap N string)
    (hashes : gmap N string) : gmap N string :=
  match algos with
  | [] => hashes
  | algo :: rest =>
      sumHashers rest hashers
        (<[ algo := hashSum algo (default "" (hashers !! algo)) ]> hashes)
  end.

Definition dataStep (builder : Builder) (index : nat) (file : File)
    (tw : TarWriter) : File * res TarWriter :=
  let file := File_setHashes file false ∅ in
  let at_ (what : string) (e : Error) : Error :=
    Errorf ("files[%d]: " +:+ what +:+ ": %w") [AInt (Z.of_nat index); AErr e] in
  match AsTarHeader file with
  | Panic e => (file, Panic e)
  | Err e => (file, Err e)
  | Ok hdr =>
      let hdr :=
        if Time_IsZero (h_ModTime hdr)
        then TarHeader_setModTime hdr (b_ZeroTime builder) else hdr in
      match tar_WriteHeader tw hdr with
      | Panic e => (file, Panic e)
      | Err e => (file, Err (at_ "tar.WriteHeader" e))
      | Ok tw =>
          if (f_Type file =? TypeREG)%N then
            match File_Reader (b_Root builder) file with
            | Panic e => (file, Panic e)
            | Err e => (file, Err (at_ "Open" e))
            | Ok content =>
                match newHashers (hashesOf builder) ∅ with
                | Panic e => (file, Panic e)
                | Err e => (file, Err e)
                | Ok hashers =>
                    match tar_Write tw content with
                    | Panic e => (file, Panic e)
                    | Err e => (file, Err (at_ "Copy" e))
                    | Ok tw =>
                        let hashers := hashWriter_Write hashers content in
                        (File_setHashes file true
                           (sumHashers (hashesOf builder) hashers ∅),
                         Ok tw)
                    end
                end
            end
          else (file, Ok tw)
      end
  end.

Definition BuildDataTarball (builder : Builder) (manifest : Manifest)
  : Manifest * res string :=
  if negb (m_isResolved manifest) then
    (manifest, Panic (Errorf "must call manifest.Resolve first" []))
  else
    let builder := fillDefaults builder in
    match CompressAlgorithm_NewWriter (b_Compression builder) with
    | Panic e => (manifest, Panic e)
    | Err e => (manifest, Err e)
    | Ok cw =>
        match forFiles (dataStep builder) 0 (m_Files manifest) tar_NewWriter with
        | (files, Panic e) => (Manifest_setFiles manifest files, Panic e)
        | (files, Err e) => (Manifest_setFiles manifest files, Err e)
        | (files, Ok tw) =>
            match tar_Close tw with
            | Panic e => (Manifest_setFiles manifest files, Panic e)
            | Err e => (Manifest_setFiles manifest files, Err e)
            | Ok archive =>
                (Manifest_with manifest files (m_isResolved manifest)
                   (m_installedSize manifest) true,
                 Ok (cw archive))
            end
        end
    end.

(** [Builder.writeControlFile]: nothing is written for [nil] data. *)
Definition writeControlFile (builder : Builder) (tw : TarWriter) (name : string)
    (isExec : bool) (data : option string) : res TarWriter :=
  match data with
  | None => Ok tw
  | Some data =>
      let mode := Z.lor unixModeREG 420 in
      let mode := if isExec then Z.lor mode 73 else mode in
      let hdr := mkTarHeader tar_FormatPAX tar_TypeReg name "" (Go.len data)
                   mode 0 0 "" "" (b_ZeroTime builder) 0 0 in
      match tar_WriteHeader tw hdr with
      | Panic e => Panic e
      | Err e => Err (Errorf "tar.WriteHeader: %w" [AErr e])
      | Ok tw =>
          match tar_Write tw data with
          | Panic e => Panic e
          | Err e => Err (Errorf "Write: %w" [AErr e])
          | Ok tw => Ok tw
          end
      end
  end.

(** One line of a checksum file. *)
Definition checksumLine (algo : N) (file : File) : string :=
  Go.EncodeToString (default "" (f_hashes file !! algo))
  +:+ "  " +:+ f_Name file +:+ nl.

(** The buffer of one checksum file; [buf.Grow] has allocated it, so its
    bytes are never [nil]. *)
Definition checksumFile (algo : N) (files : list File) : string :=
  concatMap (λ file, if f_isHashed file then checksumLine algo file else "") files.

Fixpoint checksumLoop (builder : Builder) (algos : list N) (files : list File)
    (tw : TarWriter) : res TarWriter :=
  match algos with
  | [] => Ok tw
  | algo :: rest =>
      do tw <~ writeControlFile builder tw (HashAlgorithm_FileName algo) false
                 (Some (checksumFile algo files)) in
      checksumLoop builder rest files tw
  end.

(** The tar layer of [BuildControlTarball] up to its [Close]; [builder] has
    its defaults filled. *)
Definition controlTar (builder : Builder) (manifest : Manifest) : res TarWriter :=
  let tw := tar_NewWriter in
  do control <~ ControlFile manifest in
  do tw <~ writeControlFile builder tw "control" false (Some control) in
  do tw <~ checksumLoop builder (hashesOf builder) (m_Files manifest) tw in
  do conffiles <~ ConfFiles manifest in
  do tw <~ writeControlFile builder tw "conffiles" false conffiles in
  do preinst <~ PreInstallScript manifest in
  do tw <~ writeControlFile builder tw "preinst" true preinst in
  do postinst <~ PostInstallScript manifest in
  do tw <~ writeControlFile builder tw "postinst" true postinst in
  do prerm <~ PreRemoveScript manifest in
  do tw <~ writeControlFile builder tw "prerm" true prerm in
  do postrm <~ PostRemoveScript manifest in
  writeControlFile builder tw "postrm" true postrm.

Definition BuildControlTarball (builder : Builder) (manifest : Manifest)
  : res string :=
  if negb (m_isResolved manifest) then
    Panic (Errorf "must call manifest.Resolve first" [])
  else if negb (m_isHashed manifest) then
    Panic (Errorf "must call BuildDataTarball first" [])
  else
    let builder := fillDefaults builder in
    do cw <~ CompressAlgorithm_NewWriter (b_Compression builder) in
    do tw <~ controlTar builder manifest in
    do archive <~ tar_Close tw in
    Ok (cw archive).

(** *** The [ar] container *)

Definition arHeaderTemplate : string :=
  "????????????????1577836800  0     0     100644  ??????????`" +:+ nl.

(** The loop [for i := 0; i < 16; i++] over the name field. *)
Fixpoint arNameField (name : string) (width : nat) : string :=
  match width with
  | O => ""
  | S width' =>
      match name with
      | EmptyString => String " " (arNameField "" width')
      | String ch rest => String ch (arNameField rest width')
      end
  end.

(** [writeArEntry]: the bytes written to [w]; [r] is all the reader
    yields. *)
Definition writeArEntry (name : string) (size : Z) (r : string) : res string :=
  if 16 <? Go.len name then
    Panic (Errorf "name %q exceeds 16 bytes" [AStr name])
  else if size <? 0 then
    Panic (Errorf "size %d is negative" [AInt size])
  else
    let sizeString := Go.Sprintf_left10 size in
    if negb (Go.len sizeString =? 10) then
      Panic (Errorf
        "internal error: formatted size %q should be exactly %d bytes, but got %d bytes"
        [AStr sizeString; AInt 10; AInt (Go.len sizeString)])
    else
      let hdr :=
        arNameField name 16 +:+ substring 16 32 arHeaderTemplate
        +:+ sizeString +:+ substring 58 2 arHeaderTemplate in
      Ok (hdr +:+ r +:+ (if negb (Z.land size 1 =? 0) then nl else "")).

Definition arMagic : string := "!<arch>" +:+ nl.

Definition debianBinary : string := "2.0" +:+ nl.

(** [Builder.writeArFile] on the two sealed temporary files, given by their
    contents. *)
Definition writeArFile (builder : Builder) (controlFile dataFile : string)
  : res string :=
  let controlSize := Go.len controlFile in
  let dataSize := Go.len dataFile in
  do e1 <~ writeArEntry "debian-binary" (Go.len debianBinary) debianBinary in
  let suffix := CompressAlgorithm_Suffix (b_Compression builder) in
  do e2 <~ writeArEntry ("control.tar" +:+ suffix) controlSize controlFile in
  do e3 <~ writeArEntry ("data.tar" +:+ suffix) dataSize dataFile in
  Ok (arMagic +:+ e1 +:+ e2 +:+ e3).

Definition wrapErr {A : Type} (format : string) (r : res A) : res A :=
  match r with
  | Err e => Err (Errorf format [AErr e])
  | _ => r
  end.

(** [Builder.Build]: the manifest after the call and the bytes written to
    [w].  The temporary directory and files are created, read back and
    removed without failure. *)
Definition Build (builder : Builder) (manifest : Manifest)
  : Manifest * res string :=
  let builder := fillDefaults builder in
  match Manifest_Resolve (b_Root builder) manifest with
  | (manifest, Err e) => (manifest, Err e)
  | (manifest, Panic e) => (manifest, Panic e)
  | (manifest, Ok _) =>
      match BuildDataTarball builder manifest with
      | (manifest, Err e) =>
          (manifest,
           Err (Errorf "failed to build data tarball in temporary file: %w" [AErr e]))
      | (manifest, Panic e) => (manifest, Panic e)
      | (manifest, Ok dataFile) =>
          (manifest,
           do controlFile <~
             wrapErr "failed to build control tarball in temporary file: %w"
               (BuildControlTarball builder manifest) in
           writeArFile builder controlFile dataFile)
      end
  end.

End Pipeline.

(** ** [main.go]: the version table *)

Section Version.

Variable unicodeLower : string → string.

(** The loop of [SetVersion] over the key/value pairs still to read;
    [keys] are the keys stored so far, in order. *)
Fixpoint setVersionLoop (pairs : list string) (keys : list string)
    (values seen : gmap string string)
  : res (list string * gmap string string) :=
  match pairs with
  | key :: value :: rest =>
      let lc := Go.ToLower unicodeLower key in
      match seen !! lc with
      | Some oldKey =>
          let oldValue := default "" (values !! oldKey) in
          if String.eqb oldKey key then
            Panic (Errorf "duplicate key %q: conflict between %q and %q"
                          [AStr key; AStr oldValue; AStr value])
          else
            Panic (Errorf "duplicate key %q / %q: conflict between %q and %q"
                          [AStr oldKey; AStr key; AStr oldValue; AStr value])
      | None =>
          setVersionLoop rest (keys ++ [key]) (<[ key := value ]> values)
            (<[ lc := key ]> seen)
      end
  | _ => Ok (keys, values)
  end.

(** [SetVersion]: the new [versionDataKeys] and [versionDataMap], or the
    panic. *)
Definition SetVersion (pairs : list string)
  : res (list string * gmap string string) :=
  let pairsLen := Z.of_nat (List.length pairs) in
  let keysLen := Z.shiftr pairsLen 1 in
  if Z.land pairsLen 1 =? 1 then
    Panic (Errorf
      "expected a whole number of key / value pairs, but got %d and a half (%d strings total)"
      [AInt keysLen; AInt pairsLen])
  else setVersionLoop pairs [] ∅ ∅.

End Version.

(** What [Main] prints for [--version]: one line [key=value] per key of
    [versionDataKeys]. *)
Definition versionOutput (versionDataKeys : list string)
    (versionDataMap : gmap string string) : string :=
  concatMap (λ key, key +:+ "=" +:+ default "" (versionDataMap !! key) +:+ nl)
            versionDataKeys.

(** ** Further notions the properties are phrased with *)

(** The key/value pairs of an argument list, in order. *)
Fixpoint pairsOf (l : list string) : list (string * string) :=
  match l with
  | key :: value :: rest => (key, value) :: pairsOf rest
  | _ => []
  end.

(** ASCII lower-casing, byte by byte. *)
Definition lowerASCII (s : string) : string := Go.mapBytes Go.lowerByte s.

(** An octal digit. *)
Definition isOctal (c : ascii) : bool := Go.byteIn 48 55 c.

(** [size] rounded up to the next multiple of [2 ^ shift]. *)
Definition roundUpPow2 (size shift : Z) : Z :=
  (size + (2 ^ shift - 1)) / 2 ^ shift * 2 ^ shift.


(** Parsing the text of [perm] gives the low twelve bits of [perm] and no
    error. *)
Definition Perm_parse_string_at (perm : Z) : bool :=
  match Perm_Parse (Perm_String perm) with
  | (parsed, None) => parsed =? Z.land perm 4095
  | (_, Some _) => false
  end.

(** No byte of [s] is anything but an octal digit. *)
Definition allOctal (s : string) : bool :=
  negb (Go.anyByte (λ c, negb (isOctal c)) s).

(** An ASCII control byte: below the space, or DEL. *)
Definition isControlByte (c : ascii) : bool :=
  Go.byteIn 0 31 c || (N_of_ascii c =? 127)%N.

(** The length of the run of spaces at the end of [s], continuing a run of
    [count] spaces before it. *)
Fixpoint spaceRun (s : string) (count : Z) : Z :=
  match s with
  | EmptyString => count
  | String c t => spaceRun t (if Ascii.eqb c " " then count + 1 else 0)
  end.

(** The size of an [ar] entry of [size] content bytes: the header, the
    content and the padding to an even length. *)
Definition arEntrySize (size : Z) : Z := 60 + size + size mod 2.

(** The keys of an argument list, lower-cased. *)
Definition lowerKeys (unicodeLower : string → string) (pairs : list string)
  : list string :=
  map (λ pair, Go.ToLower unicodeLower (fst pair)) (pairsOf pairs).

(** One line of the version listing. *)
Definition versionLine (pair : string * string) : string :=
  fst pair +:+ "=" +:+ snd pair +:+ nl.

(** The member of the data tarball that stands for an entry: it has the
    entry's name and resolved size, the entry's modification time or, when
    that is zero, the builder's, and for its body all that the entry's
    reader yields, which is as long as the size says. *)
Definition dataMember (builder : Builder) (file : File) (member : TarMember)
  : Prop :=
  h_Name (tm_hdr member) = f_Name file ∧
  h_Size (tm_hdr member) = f_size file ∧
  h_ModTime (tm_hdr member)
  = (if Time_IsZero (f_MTime file) then b_ZeroTime builder else f_MTime file) ∧
  File_Reader (b_Root builder) file = Ok (tm_body member) ∧
  ((f_Type file =? TypeREG)%N = true → Go.len (tm_body member) = f_size file).

(** Some character class of [r] holds of [c]: a byte no class holds of
    occurs in no string that [r] matches. *)
Fixpoint accepts (r : Go.regex) (c : ascii) : bool :=
  match r with
  | Go.Nul | Go.Eps => false
  | Go.Cls p => p c
  | Go.Seq a b | Go.Alt a b => accepts a c || accepts b c
  | Go.Star a => accepts a c
  end.

(** Every byte of [s] satisfies [p]. *)
Definition allBytes (p : ascii → bool) (s : string) : bool :=
  negb (Go.anyByte (λ c, negb (p c)) s).

(** A letter, a digit, or one of the bytes of [extra]. *)
Definition wordByte (extra : string) (c : ascii) : bool :=
  Go.isAlnum c || Go.anyByte (Ascii.eqb c) extra.

(** [p] implies [q] on each of the 256 bytes. *)
Definition bytesImply (p q : ascii → bool) : bool :=
  forallb (λ n, implb (p (ascii_of_nat n)) (q (ascii_of_nat n))) (seq 0 256).

(** [f] gives different texts for different byte values. *)
Definition namesDistinct (f : N → string) : bool :=
  forallb
    (λ a, forallb
            (λ b, (a =? b)%nat
                  || negb (String.eqb (f (N.of_nat a)) (f (N.of_nat b))))
            (seq 0 256))
    (seq 0 256).
(** ** A small instance of the externals

    Used to run the pipeline on examples: the digest of a byte string is the
    string behind a byte naming the algorithm, a tarball lists each member as
    name, colon and body, and a compressed stream is its input behind the
    name of the algorithm.  The mode constants are those of POSIX. *)

Module Ref.

Definition hashSum (algo : N) (s : string) : string :=
  String (ascii_of_N algo) s.

Definition tarEncode (members : list TarMember) : string :=
  concatMap (λ m, h_Name (tm_hdr m) +:+ ":" +:+ tm_body m +:+ ";") members.

Definition compressEncode (algo : N) (s : string) : string :=
  CompressAlgorithm_String algo +:+ ":" +:+ s.

Definition X : Extern :=
  mkExtern hashSum tarEncode compressEncode
    61440 16384 32768 40960 4096 8192 24576.

(** A content root with no file in it. *)
Definition emptyFS : FS := λ _, None.

(** The zero [Builder] over [emptyFS]. *)
Definition builder : Builder := mkBuilder emptyFS Time_zero CompressAuto None.

(** An entry that sets only its name, its type and, for a regular file,
    its embedded text. *)
Definition entry (name : string) (ft : N) (text : option string) : File :=
  mkFile name ft false 0 Owner_zero Owner_zero Time_zero None None None text
    None None false 0 false ∅.

(** The minimal manifest of package [foo] with the given entries. *)
Definition manifest (files : list File) : Manifest :=
  mkManifest "foo" "1.0" "amd64" "" "" "" "" "" "" "" "" "" ""
    "A <a@example.com>" "" "" "x" [] [] files [] [] [] [] false 0 false.

End Ref.

(** ** What the specification states

    The notions the claims are phrased with, written after the
    specification, next to which the code is measured. *)

(** The round trip of [Perm] at one value: parsing the formatted value
    succeeds and formats to the same text. *)
Definition Perm_roundtrip_at (perm : Z) : bool :=
  match Perm_Parse (Perm_String perm) with
  | (parsed, None) => String.eqb (Perm_String parsed) (Perm_String perm)
  | (_, Some _) => false
  end.

(** [p] on the [n] integers from [z] on. *)
Fixpoint allFrom (n : nat) (z : Z) (p : Z → bool) : bool :=
  match n with
  | O => true
  | S n' => p z && allFrom n' (z + 1) p
  end.

(** The layout C2 describes for one encoded entry: a header of exactly 60
    bytes, the name left-justified and space-padded in its first 16 bytes,
    the size in decimal left-justified in the 10 bytes from offset 48, then
    the entry bytes, then one newline when the size is odd. *)
Definition ar_entry_layout (name : string) (size : Z) (r : string) : Prop :=
  ∃ hdr,
    writeArEntry name size r = Ok (hdr +:+ r +:+ (if Z.odd size then nl else "")) ∧
    String.length hdr = 60%nat ∧
    substring 0 16 hdr = name +:+ Go.spaces (16 - String.length name) ∧
    substring 48 10 hdr
      = Go.FormatInt size +:+ Go.spaces (10 - String.length (Go.FormatInt size)) ∧
    String.length (substring 48 10 hdr) = 10%nat.

(** [size] rounded up to the next multiple of 4096. *)
Definition roundUp4096 (size : Z) : Z := (size + 4095) / 4096 * 4096.

(** The installed size C6 describes: the sum over the regular files of
    their resolved size, each rounded up to a multiple of 4096. *)
Definition installedSizeSpec (files : list File) : Z :=
  fold_right
    (λ file total,
       (if (f_Type file =? TypeREG)%N then roundUp4096 (f_size file) else 0) + total)
    0 files.

(** C6 as stated, for one manifest: whenever [Manifest.Resolve] completes
    successfully the installed size is that sum. *)
Definition installedSize_is_sum (fileSystem : FS) (manifest : Manifest) : Prop :=
  ∀ manifest', Manifest_Resolve fileSystem manifest = (manifest', Ok tt) →
               m_installedSize manifest' = installedSizeSpec (m_Files manifest').

(** The part of C8 about [Manifest.Validate]: no entry of the caller's
    manifest is of type [TypeAUTO] once the call has returned no error. *)
Definition Validate_clears_Auto (manifest : Manifest) : Prop :=
  snd (Manifest_Validate manifest) = None →
  Forall (λ file, f_Type file ≠ TypeAUTO)
         (m_Files (fst (Manifest_Validate manifest))).

(** The parent directory [validatePost] looks up for an entry name. *)
Definition parentDir (name : string) : string :=
  Go.Dir (Go.TrimRight name "/").

(** What [Manifest.ConfFiles] returns: nothing when no entry is marked
    [isConf], else each marked name followed by a newline. *)
Definition confText (files : list File) : option string :=
  if existsb f_IsConf files
  then Some (concatMap (λ file, f_Name file +:+ nl) (List.filter f_IsConf files))
  else None.

(** What a script renderer returns: nothing for no lines, else the
    preamble and each line followed by a newline. *)
Definition scriptText (lines : list string) : option string :=
  match lines with
  | [] => None
  | _ => Some ("#!/bin/bash" +:+ nl +:+ "set -euo pipefail" +:+ nl
               +:+ "umask 022" +:+ nl +:+ "cd /" +:+ nl
               +:+ concatMap (λ line, line +:+ nl) lines)
  end.

Definition memberName (m : TarMember) : string := h_Name (tm_hdr m).

Definition present (b : bool) (name : string) : list string :=
  if b then [name] else [].

Definition hasLines (lines : list string) : bool :=
  match lines with [] => false | _ => true end.

(** The names of the members of the control tarball, in order. *)
Definition controlNames (builder : Builder) (manifest : Manifest) : list string :=
  "control"
  :: map HashAlgorithm_FileName (hashesOf builder)
  ++ present (existsb f_IsConf (m_Files manifest)) "conffiles"
  ++ present (hasLines (m_PreInstall manifest)) "preinst"
  ++ present (hasLines (m_PostInstall manifest)) "postinst"
  ++ present (hasLines (m_PreRemove manifest)) "prerm"
  ++ present (hasLines (m_PostRemove manifest)) "postrm".

(** The content of an entry as its reader yields it. *)
Definition contentOf (fileSystem : FS) (file : File) : string :=
  got "" (File_Reader fileSystem file).

Section Statements.

Variable X : Extern.

(** A member of the control tarball: a regular file of mode 0644, or 0755
    when executable, over the file-type bits, stamped with the builder's
    fixed time. *)
Definition ctlMember (builder : Builder) (name : string) (isExec : bool)
    (data : string) : TarMember :=
  mkTarMember
    (mkTarHeader tar_FormatPAX tar_TypeReg name "" (Go.len data)
       (Z.lor (x_unixModeREG X) (if isExec then 493 else 420))
       0 0 "" "" (b_ZeroTime builder) 0 0)
    data.

(** A member that is written only when there is data for it. *)
Definition optMember (builder : Builder) (name : string) (isExec : bool)
    (data : option string) : list TarMember :=
  match data with
  | Some data => [ctlMember builder name isExec data]
  | None => []
  end.

(** The checksum members, one per algorithm in the given order. *)
Definition checksumMembers (builder : Builder) (algos : list N)
    (files : list File) : list TarMember :=
  map (λ algo, ctlMember builder (HashAlgorithm_FileName algo) false
                 (checksumFile algo files)) algos.

(** The members of the control tarball, in the order they are written. *)
Definition controlLayout (builder : Builder) (manifest : Manifest)
    (control : string) : list TarMember :=
  ctlMember builder "control" false control
  :: checksumMembers builder (hashesOf builder) (m_Files manifest)
  ++ optMember builder "conffiles" false (confText (m_Files manifest))
  ++ optMember builder "preinst" true (scriptText (m_PreInstall manifest))
  ++ optMember builder "postinst" true (scriptText (m_PostInstall manifest))
  ++ optMember builder "prerm" true (scriptText (m_PreRemove manifest))
  ++ optMember builder "postrm" true (scriptText (m_PostRemove manifest)).

(** The part of C4 that fails: the control tarball has a member named
    [conffiles]. *)
Definition conffiles_written (builder : Builder) (manifest : Manifest) : Prop :=
  ∀ tw, controlTar X (fillDefaults builder) manifest = Ok tw →
        "conffiles" ∈ map memberName (tw_members tw).

(** What the data step leaves on an entry: a regular file is marked hashed
    and carries, for every algorithm of the builder, the digest of the
    content its reader yields; any other entry is marked not hashed. *)
Definition hashedFor (builder : Builder) (file : File) : Prop :=
  if (f_Type file =? TypeREG)%N then
    f_isHashed file = true ∧
    ∃ content,
      File_Reader (b_Root builder) file = Ok content ∧
      ∀ algo, algo ∈ hashesOf builder →
              f_hashes file !! algo = Some (x_hashSum X algo content)
  else f_isHashed file = false.

(** One checksum file as the specification describes it: for each regular
    file, in list order, the lowercase hexadecimal digest of its content,
    two spaces, its name, a newline. *)
Definition checksumSpec (fileSystem : FS) (algo : N) (files : list File)
  : string :=
  concatMap
    (λ file,
       Go.EncodeToString (x_hashSum X algo (contentOf fileSystem file))
       +:+ "  " +:+ f_Name file +:+ nl)
    (List.filter (λ file, (f_Type file =? TypeREG)%N) files).

(** The members of the control tarball as C3 describes them: [control],
    then one checksum file per algorithm of the builder, in the builder's
    order, named by the algorithm's file name and holding the lines of
    [checksumSpec], then the members that follow the checksum files. *)
Definition checksumLayout (builder : Builder) (manifest : Manifest)
    (control : string) : list TarMember :=
  ctlMember builder "control" false control
  :: map (λ algo, ctlMember builder (HashAlgorithm_FileName algo) false
                    (checksumSpec (b_Root builder) algo (m_Files manifest)))
         (hashesOf builder)
  ++ optMember builder "conffiles" false (confText (m_Files manifest))
  ++ optMember builder "preinst" true (scriptText (m_PreInstall manifest))
  ++ optMember builder "postinst" true (scriptText (m_PostInstall manifest))
  ++ optMember builder "prerm" true (scriptText (m_PreRemove manifest))
  ++ optMember builder "postrm" true (scriptText (m_PostRemove manifest)).

End Statements.

(** ** Example manifests *)

(** The manifest of the specification's example: regular files of 10, 4096
    and 4097 bytes. *)
Definition sizesManifest : Manifest :=
  Ref.manifest
    [ Ref.entry "a" TypeAUTO (Some (Go.spaces 10));
      Ref.entry "b" TypeAUTO (Some (Go.spaces 4096));
      Ref.entry "c" TypeAUTO (Some (Go.spaces 4097)) ].

(** Two regular files found under the content root, each of [2 ^ 62]
    bytes. *)
Definition hugeContent : string := Go.spaces (Z.to_nat (2 ^ 62)).

Definition hugeFS : FS := λ _, Some hugeContent.

Definition hugeManifest : Manifest :=
  Ref.manifest [Ref.entry "a" TypeREG None; Ref.entry "b" TypeREG None].

(** A directory and a regular file, both declared with type [TypeAUTO]. *)
Definition autoManifest : Manifest :=
  Ref.manifest [ Ref.entry "etc/" TypeAUTO None;
                 Ref.entry "etc/motd" TypeAUTO (Some "hi") ].

(** Entries for the examples: a directory, and a regular file in it. *)
Definition dirEntry : File := Ref.entry "opt/" TypeDIR None.

Definition fileEntry : File := Ref.entry "opt/tool" TypeREG (Some "x").

(** The end-to-end example of the specification: package [foo] with one
    regular file of embedded text, resolved, then with its data tarball
    built. *)
Definition fooManifest : Manifest :=
  Ref.manifest [Ref.entry "foo" TypeAUTO (Some ("hi" +:+ nl))].

Definition fooResolved : Manifest :=
  fst (Manifest_Resolve Ref.emptyFS fooManifest).

Definition fooHashed : Manifest :=
  fst (BuildDataTarball Ref.X Ref.builder fooResolved).

(** A manifest with a configuration file and a post-install script. *)
Definition confManifest : Manifest :=
  mkManifest "foo" "1.0" "amd64" "" "" "" "" "" "" "" "" "" ""
    "A <a@example.com>" "" "" "x" [] []
    [ mkFile "foo.conf" TypeREG true 0 Owner_zero Owner_zero Time_zero None None
        None (Some "k=v") None None false 0 false ∅ ]
    [] ["ldconfig"] [] [] false 0 false.

Definition confHashed : Manifest :=
  fst (BuildDataTarball Ref.X Ref.builder
         (fst (Manifest_Resolve Ref.emptyFS confManifest))).

(** A character device entry, before and after [File.Resolve]. *)
Definition devNull : File :=
  mkFile "dev/null" TypeCHR false 0 Owner_zero Owner_zero Time_zero
    (Some 1) (Some 3) None None None None false 0 false ∅.

Definition devNullResolved : File := File_setResolved devNull 0.

(** ** Properties of the typed primitives *)

Section PrimitiveFacts.

Variable unicodeLower : string → string.

Lemma below_cases (x : N) (array : list string) :
  below x array = true → (N.to_nat x < List.length array)%nat.
Proof. unfold below. intros H. apply N.ltb_lt in H. lia. Qed.

(** Every valid entry type other than [TypeLNK] survives formatting and
    parsing. *)
Lemma Type_roundtrip_but_LNK (ft : N) :
  Type_IsValid ft = true → ft ≠ TypeLNK →
  Type_Parse unicodeLower (Type_String ft) = (ft, None).
Proof.
  intros Hv Hne. apply below_cases in Hv. simpl in Hv.
  assert (Hn : ft = N.of_nat (N.to_nat ft)) by (symmetry; apply N2Nat.id).
  revert Hne. rewrite Hn. clear Hn. generalize dependent (N.to_nat ft).
  intros k Hk.
  do 7 (destruct k as [|k];
        [ first [ vm_compute; reflexivity
                | intros Hne; exfalso; apply Hne; reflexivity ] | ]).
  lia.
Qed.

(** C9, at the value where the code departs from the claim: the text that
    [Type.String] gives for the valid type [TypeLNK] is no key of the alias
    table, in either case, so [Type.Parse] returns an error, resets the
    value to [TypeAUTO], and formatting again gives another text. *)
Theorem Type_roundtrip_fails_at_LNK :
  Type_IsValid TypeLNK = true ∧
  Type_String TypeLNK = "LNK" ∧
  Type_Parse unicodeLower (Type_String TypeLNK)
    = (TypeAUTO,
       Some (Errorf "failed to parse %q as mkdeb.Type enum constant" [AStr "LNK"])) ∧
  Type_String (fst (Type_Parse unicodeLower (Type_String TypeLNK))) = "AUTO" ∧
  Type_String (fst (Type_Parse unicodeLower (Type_String TypeLNK)))
    ≠ Type_String TypeLNK.
Proof.
  repeat split; try (vm_compute; reflexivity).
  vm_compute. discriminate.
Qed.

Lemma HashAlgorithm_roundtrip (algo : N) :
  below algo hashNameArray = true →
  HashAlgorithm_Parse unicodeLower (HashAlgorithm_String algo) = (algo, None).
Proof.
  intros Hv. apply below_cases in Hv. simpl in Hv.
  rewrite <- (N2Nat.id algo). generalize dependent (N.to_nat algo).
  intros k Hk.
  do 3 (destruct k as [|k]; [ vm_compute; reflexivity | ]).
  lia.
Qed.

Lemma CompressAlgorithm_roundtrip (algo : N) :
  below algo compressNameArray = true →
  CompressAlgorithm_Parse unicodeLower (CompressAlgorithm_String algo)
    = (algo, None).
Proof.
  intros Hv. apply below_cases in Hv. simpl in Hv.
  rewrite <- (N2Nat.id algo). generalize dependent (N.to_nat algo).
  intros k Hk.
  do 6 (destruct k as [|k]; [ vm_compute; reflexivity | ]).
  lia.
Qed.

End PrimitiveFacts.

Lemma allFrom_spec (n : nat) (p : Z → bool) :
  ∀ z, allFrom n z p = true → ∀ k, z <= k < z + Z.of_nat n → p k = true.
Proof.
  induction n as [|n IH]; intros z H k Hk; [lia|].
  simpl in H. apply andb_true_iff in H. destruct H as [Hz Hrest].
  destruct (Z.eq_dec k z) as [->|Hne]; [exact Hz|].
  apply (IH (z + 1) Hrest). lia.
Qed.

(** The round trip of [Perm] holds on all of [uint16], checked value by
    value. *)
Lemma Perm_roundtrip_all :
  allFrom (Z.to_nat 65536) 0 Perm_roundtrip_at = true.
Proof. vm_compute. reflexivity. Qed.

Lemma Perm_roundtrip (perm : Z) :
  0 <= perm < 65536 →
  ∃ parsed, Perm_Parse (Perm_String perm) = (parsed, None) ∧
            Perm_String parsed = Perm_String perm.
Proof.
  intros Hr.
  pose proof (allFrom_spec _ _ _ Perm_roundtrip_all perm ltac:(lia)) as H.
  unfold Perm_roundtrip_at in H.
  destruct (Perm_Parse (Perm_String perm)) as [parsed [e|]]; [discriminate|].
  exists parsed. split; [reflexivity|]. by apply String.eqb_eq.
Qed.

(** An owner built by [Name] from a text that [Owner.Parse] reads as an id
    comes back from the round trip as that id, and formats differently. *)
Example Owner_roundtrip_signed_name :
  Owner_String (Name "#+5") = "#+5" ∧
  fst (Owner_Parse (Owner_String (Name "#+5"))) = ID 5 ∧
  Owner_String (fst (Owner_Parse (Owner_String (Name "#+5")))) = "#5".
Proof. vm_compute. auto. Qed.

(** C10: [Owner.Parse] returns no error on any input; the empty string gives
    the unspecified owner, [#] followed by a text that [strconv.ParseInt]
    accepts gives the owner with that id, and every other input gives the
    owner named by the whole input, [#foo] among them. *)
Theorem Owner_Parse_never_fails (input : string) :
  snd (Owner_Parse input) = None ∧
  (input = "" → fst (Owner_Parse input) = Owner_zero) ∧
  (∀ rest id, input = String "#" rest → Go.ParseInt rest = Some id →
     fst (Owner_Parse input) = ID id) ∧
  (input ≠ "" →
   (∀ rest, input = String "#" rest → Go.ParseInt rest = None) →
     fst (Owner_Parse input) = Name input) ∧
  Owner_Parse "#foo" = (Name "#foo", None) ∧
  Owner_Parse "#" = (Name "#", None) ∧
  Owner_Parse "#42" = (ID 42, None) ∧
  Owner_Parse "root" = (Name "root", None).
Proof.
  split; [|split; [|split; [|split]]].
  - destruct input as [|c rest]; [reflexivity|]. simpl.
    destruct (Ascii.eqb c "#"); [destruct (Go.ParseInt rest)|]; reflexivity.
  - intros ->. reflexivity.
  - intros rest id -> Hp. simpl. rewrite Hp. reflexivity.
  - intros Hne Hnone. destruct input as [|c rest]; [congruence|]. simpl.
    destruct (Ascii.eqb_spec c "#") as [->|Hc]; [|reflexivity].
    rewrite (Hnone rest eq_refl). reflexivity.
  - vm_compute. auto.
Qed.

(** The owners of C10 on a mixed input: a [#] that no integer follows. *)
Lemma Owner_Parse_never_fails_witness :
  fst (Owner_Parse "#1x") = Name "#1x".
Proof.
  apply (Owner_Parse_never_fails "#1x").
  - discriminate.
  - intros rest Heq. injection Heq as <-. vm_compute. reflexivity.
Defined.

(** ** Byte strings *)

Lemma append_nil (b : string) : "" +:+ b = b.
Proof. reflexivity. Qed.

Lemma append_cons (c : ascii) (a b : string) :
  String c a +:+ b = String c (a +:+ b).
Proof. reflexivity. Qed.

Lemma length_append (a b : string) :
  String.length (a +:+ b) = (String.length a + String.length b)%nat.
Proof.
  induction a as [|c a IH]; [reflexivity|].
  rewrite append_cons. simpl. by rewrite IH.
Qed.

Lemma append_assoc (a b c : string) : (a +:+ b) +:+ c = a +:+ (b +:+ c).
Proof.
  induction a as [|x a IH]; [reflexivity|].
  rewrite !append_cons. by rewrite IH.
Qed.

Lemma append_empty_r (a : string) : a +:+ "" = a.
Proof.
  induction a as [|x a IH]; [reflexivity|].
  rewrite append_cons. by rewrite IH.
Qed.

Lemma substring_0_0 (s : string) : substring 0 0 s = "".
Proof. destruct s; reflexivity. Qed.

Lemma substring_prefix (a b : string) :
  substring 0 (String.length a) (a +:+ b) = a.
Proof.
  induction a as [|c a IH]; [apply substring_0_0|].
  rewrite append_cons. simpl. by rewrite IH.
Qed.

Lemma substring_skip (a b : string) (n m : nat) :
  substring (String.length a + n) m (a +:+ b) = substring n m b.
Proof.
  induction a as [|c a IH]; [reflexivity|].
  rewrite append_cons. simpl. exact IH.
Qed.

Lemma length_spaces (n : nat) : String.length (Go.spaces n) = n.
Proof. induction n as [|n IH]; simpl; [reflexivity | by rewrite IH]. Qed.

Lemma length_formatDigits (fuel : nat) :
  ∀ (k : nat) (n : Z) (acc : string),
    (1 <= k)%nat → 0 <= n < 10 ^ Z.of_nat k →
    (String.length (Go.formatDigits fuel n acc) <= k + String.length acc)%nat.
Proof.
  induction fuel as [|fuel IH]; intros k n acc Hk Hn; simpl.
  - lia.
  - destruct (Z.ltb_spec n 10) as [Hlt|Hge]; simpl; [lia|].
    destruct k as [|k]; [lia|].
    destruct k as [|k].
    + simpl in Hn. lia.
    + specialize (IH (S k) (n / 10) (String (Go.digitChar (n mod 10)) acc)).
      simpl in IH. assert (Hdiv : 0 <= n / 10 < 10 ^ Z.of_nat (S k)).
      { split; [apply Z.div_pos; lia|].
        apply Z.div_lt_upper_bound; [lia|].
        replace (Z.of_nat (S (S k))) with (Z.succ (Z.of_nat (S k))) in Hn by lia.
        rewrite Z.pow_succ_r in Hn by lia. lia. }
      specialize (IH ltac:(lia) Hdiv). lia.
Qed.

Lemma length_FormatInt_10 (size : Z) :
  0 <= size < 10 ^ 10 → (1 <= String.length (Go.FormatInt size) <= 10)%nat.
Proof.
  intros Hs. unfold Go.FormatInt.
  destruct (Z.ltb_spec size 0) as [?|_]; [lia|]. unfold Go.FormatUint.
  split.
  - destruct (Z.to_nat (Z.log2 size)); simpl; [lia|].
    destruct (size <? 10); simpl; [lia|].
    match goal with |- context [Go.formatDigits ?f ?n ?a] =>
      assert (String.length a <= String.length (Go.formatDigits f n a))%nat
    end; [|simpl in *; lia].
    generalize (size / 10) (String (Go.digitChar (size mod 10)) "").
    induction n as [|n IH]; intros z a; simpl; [lia|].
    destruct (z <? 10); simpl; [lia|].
    specialize (IH (z / 10) (String (Go.digitChar (z mod 10)) a)). simpl in IH. lia.
  - pose proof (length_formatDigits (Z.to_nat (Z.log2 size)) 10 size ""
                  ltac:(lia) Hs) as H.
    simpl in H. lia.
Qed.

(** ** The [ar] entry encoder *)

Lemma arNameField_pad (name : string) (width : nat) :
  (String.length name <= width)%nat →
  arNameField name width = name +:+ Go.spaces (width - String.length name).
Proof.
  revert name. induction width as [|width IH]; intros name Hl.
  - destruct name; [reflexivity | simpl in Hl; lia].
  - destruct name as [|c name]; simpl.
    + rewrite (IH "") by (simpl; lia). rewrite !append_nil. simpl.
      by rewrite Nat.sub_0_r.
    + rewrite IH by (simpl in Hl; lia). by rewrite append_cons.
Qed.

Lemma length_arNameField (name : string) (width : nat) :
  String.length (arNameField name width) = width.
Proof.
  revert name. induction width as [|width IH]; intros name; [reflexivity|].
  destruct name; simpl; by rewrite IH.
Qed.

(** C2 as stated fails: a non-negative size of eleven decimal digits makes
    the encoder panic on its own check of the size field. *)
Lemma writeArEntry_large_size_counterexample :
  Go.len "a" <= 16 ∧ 0 <= 10000000000 ∧ ¬ ar_entry_layout "a" 10000000000 "".
Proof.
  split; [vm_compute; discriminate|]. split; [lia|].
  intros (hdr & Hw & _). vm_compute in Hw. discriminate.
Qed.

(** The layout holds whenever the checks of the encoder pass. *)
Lemma writeArEntry_checked (name : string) (size : Z) (r : string) :
  Go.len name <= 16 → 0 <= size →
  String.length (Go.Sprintf_left10 size) = 10%nat →
  ar_entry_layout name size r.
Proof.
  intros Hn Hs Hfield. unfold Go.len in Hn.
  exists (arNameField name 16 +:+ substring 16 32 arHeaderTemplate
          +:+ Go.Sprintf_left10 size +:+ substring 58 2 arHeaderTemplate).
  assert (H48 : (48 = String.length (arNameField name 16
                       +:+ substring 16 32 arHeaderTemplate) + 0)%nat)
    by (rewrite length_append, length_arNameField; reflexivity).
  split; [|split; [|split; [|split]]].
  - unfold writeArEntry.
    destruct (Z.ltb_spec 16 (Go.len name)) as [H|_]; [unfold Go.len in H; lia|].
    destruct (Z.ltb_spec size 0) as [H|_]; [lia|].
    unfold Go.len at 1. rewrite Hfield. simpl negb. cbv iota.
    replace (Z.land size 1) with (size mod 2)
      by (symmetry; apply (Z.land_ones size 1); lia).
    rewrite Zmod_odd. destruct (Z.odd size); reflexivity.
  - rewrite !length_append, length_arNameField, Hfield. reflexivity.
  - rewrite <- (length_arNameField name 16) at 1.
    rewrite substring_prefix. apply arNameField_pad. lia.
  - rewrite <- !append_assoc. rewrite H48 at 1.
    rewrite append_assoc, substring_skip.
    rewrite <- Hfield at 1. apply substring_prefix.
  - rewrite <- !append_assoc. rewrite H48 at 1.
    rewrite append_assoc, substring_skip.
    rewrite <- Hfield at 1. rewrite substring_prefix. exact Hfield.
Qed.

(** The checks that passed when the encoder returned. *)
Lemma writeArEntry_inv (name : string) (size : Z) (r e : string) :
  writeArEntry name size r = Ok e →
  Go.len name <= 16 ∧ 0 <= size ∧
  String.length (Go.Sprintf_left10 size) = 10%nat.
Proof.
  unfold writeArEntry.
  destruct (Z.ltb_spec 16 (Go.len name)); [discriminate|].
  destruct (Z.ltb_spec size 0); [discriminate|].
  destruct (Z.eqb_spec (Go.len (Go.Sprintf_left10 size)) 10) as [Hl|];
    [|discriminate].
  intros _. unfold Go.len in Hl. repeat split; lia.
Qed.

(** A number of at least [10 ^ k] has more than [k] decimal digits. *)
Lemma length_formatDigits_lower (fuel : nat) :
  ∀ (k : nat) (n : Z) (acc : string),
    10 ^ Z.of_nat k <= n < 2 ^ (Z.of_nat fuel + 1) →
    (k + 1 + String.length acc <= String.length (Go.formatDigits fuel n acc))%nat.
Proof.
  induction fuel as [|fuel IH]; intros k n acc Hn.
  - simpl Go.formatDigits. simpl String.length.
    destruct k as [|k]; [lia|].
    assert (10 ^ 1 <= 10 ^ Z.of_nat (S k)) by (apply Z.pow_le_mono_r; lia).
    change (2 ^ (Z.of_nat 0 + 1)) with 2 in Hn. change (10 ^ 1) with 10 in *.
    lia.
  - simpl Go.formatDigits. destruct (Z.ltb_spec n 10) as [Hlt|Hge].
    + simpl String.length. destruct k as [|k]; [lia|].
      assert (10 ^ 1 <= 10 ^ Z.of_nat (S k)) by (apply Z.pow_le_mono_r; lia).
      change (10 ^ 1) with 10 in *. lia.
    + assert (Hdiv : n / 10 < 2 ^ (Z.of_nat fuel + 1)).
      { apply Z.div_lt_upper_bound; [lia|].
        replace (Z.of_nat (S fuel) + 1) with (Z.succ (Z.of_nat fuel + 1)) in Hn
          by lia.
        rewrite Z.pow_succ_r in Hn by lia.
        assert (0 < 2 ^ (Z.of_nat fuel + 1)) by (apply Z.pow_pos_nonneg; lia).
        lia. }
      destruct k as [|k].
      * specialize (IH 0%nat (n / 10) (String (Go.digitChar (n mod 10)) acc)).
        simpl String.length in IH. apply Nat.le_trans with (2 := IH ltac:(
          split; [change (10 ^ Z.of_nat 0) with 1;
                  apply Z.div_le_lower_bound; lia | exact Hdiv])).
        lia.
      * specialize (IH k (n / 10) (String (Go.digitChar (n mod 10)) acc)).
        simpl String.length in IH. apply Nat.le_trans with (2 := IH ltac:(
          split; [apply Z.div_le_lower_bound; [lia|];
                  rewrite <- Z.pow_succ_r by lia;
                  replace (Z.succ (Z.of_nat k)) with (Z.of_nat (S k)) by lia;
                  lia
                 | exact Hdiv])).
        lia.
Qed.

(** A size of eleven decimal digits or more overflows the size field. *)
Lemma length_Sprintf_left10_large (size : Z) :
  10 ^ 10 <= size → (11 <= String.length (Go.Sprintf_left10 size))%nat.
Proof.
  intros Hs. unfold Go.Sprintf_left10. rewrite length_append.
  assert (H10 : 10 ^ 10 = 10000000000) by reflexivity.
  assert (Hd : (11 <= String.length (Go.FormatInt size))%nat).
  { unfold Go.FormatInt. destruct (Z.ltb_spec size 0) as [?|_]; [lia|].
    unfold Go.FormatUint.
    pose proof (length_formatDigits_lower (Z.to_nat (Z.log2 size)) 10 size "")
      as H.
    simpl String.length in H.
    replace (10 + 1 + 0)%nat with 11%nat in H by reflexivity. apply H.
    split; [exact Hs|].
    rewrite Z2Nat.id by apply Z.log2_nonneg.
    pose proof (Z.log2_spec size ltac:(lia)) as Hl.
    replace (Z.log2 size + 1) with (Z.succ (Z.log2 size)) by lia. lia. }
  lia.
Qed.

(** C2, amended: for a name of at most 16 bytes and a size from 0 to
    9999999999, the encoder returns the layout above.  Every other call is
    a panic, not a returned error: a name longer than 16 bytes, a negative
    size, and a size of 10000000000 or more, whose text does not fit the
    size field.  The encoder returns no error at all. *)
Theorem writeArEntry_layout (name : string) (size : Z) (r : string) :
  (Go.len name <= 16 → 0 <= size < 10 ^ 10 → ar_entry_layout name size r) ∧
  (16 < Go.len name →
     writeArEntry name size r
       = Panic (Errorf "name %q exceeds 16 bytes" [AStr name])) ∧
  (Go.len name <= 16 → size < 0 →
     writeArEntry name size r
       = Panic (Errorf "size %d is negative" [AInt size])) ∧
  (Go.len name <= 16 → 10 ^ 10 <= size →
     writeArEntry name size r
       = Panic (Errorf
           "internal error: formatted size %q should be exactly %d bytes, but got %d bytes"
           [AStr (Go.Sprintf_left10 size); AInt 10;
            AInt (Go.len (Go.Sprintf_left10 size))])) ∧
  is_Err (writeArEntry name size r) = false.
Proof.
  split; [|split; [|split; [|split]]].
  - intros Hn Hs. apply writeArEntry_checked; [exact Hn | lia |].
    pose proof (length_FormatInt_10 size Hs) as Hd.
    unfold Go.Sprintf_left10. rewrite length_append, length_spaces. lia.
  - intros Hn. unfold writeArEntry.
    destruct (Z.ltb_spec 16 (Go.len name)) as [_|H]; [reflexivity | lia].
  - intros Hn Hs. unfold writeArEntry.
    destruct (Z.ltb_spec 16 (Go.len name)) as [H|_]; [lia|].
    destruct (Z.ltb_spec size 0) as [_|H]; [reflexivity | lia].
  - intros Hn Hs. unfold writeArEntry.
    assert (H10 : 10 ^ 10 = 10000000000) by reflexivity.
    destruct (Z.ltb_spec 16 (Go.len name)) as [H|_]; [lia|].
    destruct (Z.ltb_spec size 0) as [H|_]; [lia|].
    pose proof (length_Sprintf_left10_large size Hs) as Hl.
    destruct (Z.eqb_spec (Go.len (Go.Sprintf_left10 size)) 10) as [He|_];
      [unfold Go.len in He; lia | reflexivity].
  - unfold writeArEntry.
    destruct (16 <? Go.len name); [reflexivity|].
    destruct (size <? 0); [reflexivity|].
    destruct (negb (Go.len (Go.Sprintf_left10 size) =? 10)); reflexivity.
Qed.

(** The entry [debian-binary] of the specification's example, through the
    theorem: 13 bytes of name and 3 spaces, the size field [4] and 9
    spaces, no padding byte. *)
Lemma writeArEntry_layout_witness :
  ar_entry_layout "debian-binary" 4 debianBinary.
Proof.
  apply (writeArEntry_layout "debian-binary" 4 debianBinary).
  - vm_compute. discriminate.
  - lia.
Defined.

Example writeArEntry_debian_binary :
  writeArEntry "debian-binary" 4 debianBinary
  = Ok ("debian-binary   1577836800  0     0     100644  4         `" +:+ nl
        +:+ debianBinary).
Proof. vm_compute. reflexivity. Qed.

(** ** Resolution: installed size and entry types *)

Lemma roundUp4096_bounds (size : Z) :
  0 <= size → size <= roundUp4096 size < size + 4096.
Proof.
  intros Hs. unfold roundUp4096.
  pose proof (Z.div_mod (size + 4095) 4096 ltac:(lia)).
  pose proof (Z.mod_pos_bound (size + 4095) 4096 ltac:(lia)). lia.
Qed.

Lemma pad_12 (size : Z) :
  0 <= size → size + 4095 < 2 ^ 64 → pad size 12 = roundUp4096 size.
Proof.
  intros H0 Hlt. unfold pad, wrapU64.
  change (Z.shiftl 1 12) with 4096.
  rewrite (Z.mod_small 4096) by lia. rewrite (Z.mod_small (4096 - 1)) by lia.
  rewrite (Z.mod_small (size + (4096 - 1))) by lia.
  change (4096 - 1) with (Z.ones 12).
  rewrite Z.ldiff_ones_r by lia.
  rewrite Z.shiftr_div_pow2, Z.shiftl_mul_pow2 by lia.
  reflexivity.
Qed.

Lemma toInt64_small (z : Z) : 0 <= z < 2 ^ 63 → toInt64 z = z.
Proof.
  intros Hz. unfold toInt64, wrapU64. rewrite Z.mod_small by lia.
  destruct (Z.ltb_spec z (2 ^ 63)); lia.
Qed.

Lemma padSigned_12 (size : Z) :
  0 <= size → roundUp4096 size < 2 ^ 63 →
  padSigned size 12 = Ok (roundUp4096 size).
Proof.
  intros H0 Hlt. pose proof (roundUp4096_bounds size H0) as Hb.
  assert (E : toInt64 (pad (wrapU64 size) 12) = roundUp4096 size).
  { unfold wrapU64 at 1. rewrite Z.mod_small by lia.
    rewrite pad_12 by lia. apply toInt64_small. lia. }
  unfold padSigned.
  replace (size <? 0) with false by (symmetry; apply Z.ltb_ge; lia).
  cbv zeta iota. rewrite E.
  destruct (Z.ltb_spec (roundUp4096 size) 0); [lia | reflexivity].
Qed.

(** What an entry is after [validateImpl] returned no error. *)
Lemma fixupType_spec (file : File) :
  f_Type (fixupType file) ≠ TypeAUTO ∧
  f_Type (fixupType file)
  = (if (f_Type file =? TypeAUTO)%N
     then (if Go.HasSuffix (f_Name file) "/" then TypeDIR else TypeREG)
     else f_Type file) ∧
  f_Bytes (fixupType file) = f_Bytes file ∧
  f_Text (fixupType file) = f_Text file ∧
  f_Path (fixupType file) = f_Path file ∧
  f_Name (fixupType file) = f_Name file.
Proof.
  unfold fixupType. destruct (N.eqb_spec (f_Type file) TypeAUTO) as [He|Hne].
  - simpl. destruct (Go.HasSuffix (f_Name file) "/");
      (split; [discriminate|]); repeat split; reflexivity.
  - repeat split; try assumption; reflexivity.
Qed.

Lemma validateImpl_ok (file file' : File) :
  validateImpl file = (file', None) →
  f_Type file' ≠ TypeAUTO ∧
  f_Type file' = (if (f_Type file =? TypeAUTO)%N
                  then (if Go.HasSuffix (f_Name file) "/" then TypeDIR else TypeREG)
                  else f_Type file) ∧
  f_Bytes file' = f_Bytes file ∧ f_Text file' = f_Text file ∧
  f_Path file' = f_Path file ∧
  ((f_Type file' =? TypeREG)%N = true → f_Name file' = f_Name file).
Proof.
  unfold validateImpl.
  destruct (String.eqb (f_Name file) ""); [discriminate|].
  destruct (negb (isValidUnixPath (f_Name file))); [discriminate|].
  destruct (negb (Type_IsValid (f_Type file))); [discriminate|].
  destruct (fixupType_spec file) as (Hna & Hty & Hb & Ht & Hp & Hn).
  cbv zeta.
  destruct (N.eqb_spec (f_Type (fixupType file)) TypeDIR) as [Hd|Hnd].
  - intros Heq. injection Heq as <- _. simpl.
    rewrite Hd. repeat split; try assumption; try discriminate. congruence.
  - destruct (String.eqb (f_Name (fixupType file)) "."
              || Go.HasSuffix (f_Name (fixupType file)) "/"); [discriminate|].
    intros Heq. injection Heq as <- _. repeat split; try assumption.
    intros _. assumption.
Qed.

(** What an entry is after [File.Resolve] returned no error: resolved, of a
    concrete type, its size that of the content its reader yields. *)
Lemma File_Resolve_ok (fileSystem : FS) (file file' : File) :
  File_Resolve fileSystem file = (file', None) →
  f_isResolved file' = true ∧
  f_Type file' ≠ TypeAUTO ∧
  f_Type file' = (if (f_Type file =? TypeAUTO)%N
                  then (if Go.HasSuffix (f_Name file) "/" then TypeDIR else TypeREG)
                  else f_Type file) ∧
  0 <= f_size file' ∧
  (if (f_Type file' =? TypeREG)%N
   then ∃ content, File_Reader fileSystem file' = Ok content ∧
                   f_size file' = Go.len content
   else f_size file' = 0).
Proof.
  unfold File_Resolve.
  destruct (validateImpl file) as [v [e|]] eqn:Hv; [discriminate|].
  apply validateImpl_ok in Hv. destruct Hv as (Hna & Hty & Hb & Ht & Hp & Hn).
  assert (Hlen : ∀ s, 0 <= Go.len s) by (intros s; unfold Go.len; lia).
  destruct (N.eqb_spec (f_Type v) TypeREG) as [Hr|Hnr].
  - assert (Hreg : (f_Type v =? TypeREG)%N = true) by (by apply N.eqb_eq).
    unfold File_Reader.
    destruct (f_Bytes v) as [bytes|] eqn:Eb;
      [|destruct (f_Text v) as [text|] eqn:Et;
        [|destruct (f_Path v) as [path|] eqn:Ep;
          [destruct (fileSystem path) as [content|] eqn:Ef; [|discriminate]
          |destruct (fileSystem (f_Name v)) as [content|] eqn:Ef; [|discriminate]]]];
      intros Heq; injection Heq as <-; simpl;
      rewrite ?Hreg, ?Eb, ?Et, ?Ep, ?Ef; simpl;
      (split; [reflexivity|]); (split; [assumption|]); (split; [assumption|]);
      (split; [apply Hlen|]); eexists; (split; [reflexivity|reflexivity]).
  - intros Heq. injection Heq as <-. simpl.
    destruct (N.eqb_spec (f_Type v) TypeREG); [contradiction|].
    repeat split; try assumption; lia.
Qed.

Lemma installedSizeSpec_nonneg (files : list File) :
  Forall (λ file, 0 <= f_size file) files → 0 <= installedSizeSpec files.
Proof.
  induction 1 as [|f l Hf _ IH]; simpl; [lia|].
  destruct (f_Type f =? TypeREG)%N; [|lia].
  pose proof (roundUp4096_bounds (f_size f) Hf). lia.
Qed.

(** The loop of [Manifest.Resolve], entry by entry. *)
Lemma forFiles_resolve (fileSystem : FS) (files : list File) :
  ∀ (index : nat) (acc : Z) (files' : list File) (total : Z),
    forFiles (resolveStep fileSystem) index files acc = (files', Ok total) →
    Forall2 (λ file file', File_Resolve fileSystem file = (file', None))
            files files' ∧
    (0 <= acc → acc + installedSizeSpec files' < 2 ^ 63 →
     total = acc + installedSizeSpec files').
Proof.
  induction files as [|file rest IH]; intros index acc files' total; simpl.
  - intros Heq. injection Heq as <- <-. split; [constructor | simpl; lia].
  - unfold resolveStep at 1.
    destruct (File_Resolve fileSystem file) as [file1 [e|]] eqn:Hres;
      [discriminate|].
    destruct (padSigned (f_size file1) 12) as [padded|e|e] eqn:Hpad;
      simpl; try discriminate.
    destruct (forFiles (resolveStep fileSystem) (S index) rest
                (toInt64 (acc + padded))) as [rest' r] eqn:Hrest.
    intros Heq. injection Heq as <- ->.
    destruct (IH _ _ _ _ Hrest) as [Hall Hsum].
    split; [constructor; assumption|].
    intros Hacc Hbound. simpl in Hbound |- *.
    apply File_Resolve_ok in Hres.
    destruct Hres as (_ & _ & _ & Hsize & Hkind).
    assert (Hrest_nn : 0 <= installedSizeSpec rest').
    { apply installedSizeSpec_nonneg.
      clear -Hall. induction Hall as [|f f' l l' Hf _ IHl]; constructor;
        [|exact IHl].
      apply File_Resolve_ok in Hf. tauto. }
    assert (Hp : padded
                 = if (f_Type file1 =? TypeREG)%N
                   then roundUp4096 (f_size file1) else 0).
    { destruct (f_Type file1 =? TypeREG)%N.
      - rewrite padSigned_12 in Hpad by lia. by injection Hpad as <-.
      - rewrite Hkind in Hpad. vm_compute in Hpad. by injection Hpad as <-. }
    assert (Hpn : 0 <= padded).
    { rewrite Hp. destruct (f_Type file1 =? TypeREG)%N; [|lia].
      pose proof (roundUp4096_bounds (f_size file1) Hsize). lia. }
    rewrite <- Hp in Hbound |- *.
    rewrite toInt64_small in Hsum by lia.
    rewrite Hsum by lia. lia.
Qed.

(** A successful [Manifest.Resolve], taken apart. *)
Lemma Manifest_Resolve_ok (fileSystem : FS) (manifest manifest' : Manifest) :
  Manifest_Resolve fileSystem manifest = (manifest', Ok tt) →
  ∃ total,
    forFiles (resolveStep fileSystem) 0 (m_Files manifest) 0
      = (m_Files manifest', Ok total) ∧
    m_installedSize manifest' = total ∧
    m_isResolved manifest' = true ∧
    m_isHashed manifest' = m_isHashed manifest ∧
    validatePost manifest' = None.
Proof.
  unfold Manifest_Resolve.
  destruct (validatePre manifest); [discriminate|].
  destruct (forFiles (resolveStep fileSystem) 0 (m_Files manifest) 0)
    as [files [total|e|e]] eqn:Hloop; try discriminate.
  destruct (validatePost (Manifest_setFiles manifest files)) eqn:Hpost;
    [discriminate|].
  intros Heq. injection Heq as <-. exists total. simpl.
  repeat split; try reflexivity. exact Hpost.
Qed.

(** C6: after a successful [Manifest.Resolve], the installed size is the sum
    over the regular files of the resolved size rounded up to a multiple of
    4096, other entries adding nothing, as long as that sum is within
    [int64]; the resolved size of a regular file is the length of its
    content, and that of any other entry is 0. *)
Theorem Resolve_installedSize (fileSystem : FS) (manifest manifest' : Manifest) :
  Manifest_Resolve fileSystem manifest = (manifest', Ok tt) →
  installedSizeSpec (m_Files manifest') < 2 ^ 63 →
  m_installedSize manifest' = installedSizeSpec (m_Files manifest') ∧
  Forall (λ file,
            if (f_Type file =? TypeREG)%N
            then ∃ content, File_Reader fileSystem file = Ok content ∧
                            f_size file = Go.len content
            else f_size file = 0)
         (m_Files manifest').
Proof.
  intros Hres Hbound.
  destruct (Manifest_Resolve_ok _ _ _ Hres) as (total & Hloop & Hsize & _).
  destruct (forFiles_resolve _ _ _ _ _ _ Hloop) as [Hall Hsum].
  split.
  - rewrite Hsize, Hsum; lia.
  - clear -Hall. induction Hall as [|f f' l l' Hf _ IH]; constructor;
      [|exact IH].
    apply File_Resolve_ok in Hf. tauto.
Qed.

Lemma Resolve_installedSize_witness :
  m_installedSize (fst (Manifest_Resolve Ref.emptyFS sizesManifest)) = 16384.
Proof.
  destruct (Resolve_installedSize Ref.emptyFS sizesManifest
              (fst (Manifest_Resolve Ref.emptyFS sizesManifest))) as [H _].
  - vm_compute. reflexivity.
  - vm_compute. reflexivity.
  - rewrite H. vm_compute. reflexivity.
Defined.

(** [Manifest.Resolve] on two regular files that the content root holds
    with [2 ^ 62] bytes each: both are accepted, and the second addition
    wraps around. *)
Lemma Resolve_two_huge_files (content : string) :
  Go.len content = 2 ^ 62 →
  Manifest_Resolve (λ _, Some content) hugeManifest
  = (Manifest_with hugeManifest
       [ File_setResolved (Ref.entry "a" TypeREG None) (2 ^ 62);
         File_setResolved (Ref.entry "b" TypeREG None) (2 ^ 62) ]
       true (- 2 ^ 63) false,
     Ok tt).
Proof.
  intros Hlen.
  assert (Hstep : ∀ (index : nat) (name : string) (acc : Z),
            validateImpl (Ref.entry name TypeREG None)
              = (Ref.entry name TypeREG None, None) →
            resolveStep (λ _, Some content) index (Ref.entry name TypeREG None) acc
            = (File_setResolved (Ref.entry name TypeREG None) (2 ^ 62),
               Ok (toInt64 (acc + 2 ^ 62)))).
  { intros index name acc Hv. unfold resolveStep, File_Resolve. rewrite Hv.
    change (f_Type (Ref.entry name TypeREG None) =? TypeREG)%N with true.
    cbv iota.
    change (f_Bytes (Ref.entry name TypeREG None)) with (@None string).
    change (f_Text (Ref.entry name TypeREG None)) with (@None string).
    change (f_Path (Ref.entry name TypeREG None)) with (@None string).
    cbv iota beta. rewrite Hlen.
    change (f_size (File_setResolved (Ref.entry name TypeREG None) (2 ^ 62)))
      with (2 ^ 62).
    replace (padSigned (2 ^ 62) 12) with (Ok (2 ^ 62) : res Z)
      by (vm_compute; reflexivity).
    reflexivity. }
  unfold Manifest_Resolve.
  replace (validatePre hugeManifest) with (@None Error)
    by (vm_compute; reflexivity).
  change (m_Files hugeManifest)
    with [Ref.entry "a" TypeREG None; Ref.entry "b" TypeREG None].
  cbn [forFiles].
  rewrite (Hstep 0%nat "a" 0) by (vm_compute; reflexivity).
  rewrite (Hstep 1%nat "b" (toInt64 (0 + 2 ^ 62))) by (vm_compute; reflexivity).
  vm_compute. reflexivity.
Qed.

(** C6 as stated fails: [Manifest.Resolve] completes successfully on two
    regular files of [2 ^ 62] bytes each, and the installed size it
    computes is [- 2 ^ 63], while the rounded sizes sum to [2 ^ 63]. *)
Lemma Resolve_installedSize_counterexample :
  ¬ installedSize_is_sum hugeFS hugeManifest.
Proof.
  intros H.
  assert (Hlen : Go.len hugeContent = 2 ^ 62).
  { unfold Go.len, hugeContent. rewrite length_spaces.
    apply Z2Nat.id. apply Z.pow_nonneg. lia. }
  specialize (H _ (Resolve_two_huge_files hugeContent Hlen)). clear Hlen.
  vm_compute in H. discriminate H.
Qed.

(** C8 as stated fails for [Manifest.Validate]: the call returns no error
    on a manifest whose one entry is of type [TypeAUTO], and the entry is
    of that type afterwards. *)
Lemma Validate_keeps_Auto_counterexample :
  ¬ Validate_clears_Auto (Ref.manifest [Ref.entry "foo" TypeAUTO (Some "hi")]).
Proof.
  intros H. specialize (H ltac:(vm_compute; reflexivity)).
  inversion H as [|f l Hf _]. apply Hf. reflexivity.
Qed.

(** C8, amended: after a successful [Manifest.Resolve] no entry is of type
    [TypeAUTO]; an entry that was is a directory when its name ends in a
    slash and a regular file otherwise, and any other entry keeps its type.
    [Manifest.Validate] and [File.Validate] work on copies: the manifest and
    the entry the caller holds are unchanged. *)
Theorem Resolve_clears_Auto (fileSystem : FS) (manifest manifest' : Manifest) :
  Manifest_Resolve fileSystem manifest = (manifest', Ok tt) →
  Forall (λ file, f_Type file ≠ TypeAUTO) (m_Files manifest') ∧
  Forall2
    (λ file file',
       f_Type file'
       = if (f_Type file =? TypeAUTO)%N
         then (if Go.HasSuffix (f_Name file) "/" then TypeDIR else TypeREG)
         else f_Type file)
    (m_Files manifest) (m_Files manifest') ∧
  fst (Manifest_Validate manifest) = manifest.
Proof.
  intros Hres.
  destruct (Manifest_Resolve_ok _ _ _ Hres) as (total & Hloop & _).
  destruct (forFiles_resolve _ _ _ _ _ _ Hloop) as [Hall _].
  split; [|split; [|reflexivity]].
  - clear -Hall. induction Hall as [|f f' l l' Hf _ IH]; constructor;
      [|exact IH].
    apply File_Resolve_ok in Hf. tauto.
  - clear -Hall. induction Hall as [|f f' l l' Hf _ IH]; constructor;
      [|exact IH].
    apply File_Resolve_ok in Hf. tauto.
Qed.

Lemma Resolve_clears_Auto_witness :
  map f_Type (m_Files (fst (Manifest_Resolve Ref.emptyFS autoManifest)))
    = [TypeDIR; TypeREG] ∧
  Forall (λ file, f_Type file ≠ TypeAUTO)
         (m_Files (fst (Manifest_Resolve Ref.emptyFS autoManifest))).
Proof.
  split; [vm_compute; reflexivity|].
  apply (Resolve_clears_Auto Ref.emptyFS autoManifest).
  vm_compute. reflexivity.
Defined.

(** ** The cross-entry pass *)

(** The known directories after the first loop. *)
Lemma implicitDirsLoop_known (dirs : list string) :
  ∀ (index : nat) (known known' : gset string),
    implicitDirsLoop index dirs known = inl known' →
    ∀ dir, dir ∈ known' ↔
           dir ∈ known ∨ ∃ d, d ∈ dirs ∧ dir = Go.TrimRight d "/".
Proof.
  induction dirs as [|d dirs IH]; intros index known known'; simpl.
  - intros Heq. injection Heq as <-. intros dir. split; [auto|].
    intros [H|(d & Hd & _)]; [exact H|]. by apply elem_of_nil in Hd.
  - destruct (negb (isValidUnixPath d)); [discriminate|].
    intros Hloop dir. rewrite (IH _ _ _ Hloop dir).
    rewrite elem_of_union, elem_of_singleton. split.
    + intros [[->|H]|(d' & Hd' & ->)].
      * right. exists d. split; [left|reflexivity].
      * by left.
      * right. exists d'. split; [by right|reflexivity].
    + intros [H|(d' & Hd' & ->)]; [left; by right|].
      apply elem_of_cons in Hd'. destruct Hd' as [->|Hd'].
      * left. by left.
      * right. by exists d'.
Qed.

(** The second loop fails when an entry repeats a name already seen. *)
Lemma filesLoop_seen (files : list File) :
  ∀ (index : nat) (seen : gmap string nat) (known : gset string) (file : File),
    file ∈ files → is_Some (seen !! f_Name file) →
    is_Some (filesLoop index files seen known).
Proof.
  induction files as [|head rest IH]; intros index seen known file Hin Hseen.
  - by apply elem_of_nil in Hin.
  - simpl. destruct (seen !! f_Name head) as [old|] eqn:Hhead; [eauto|].
    destruct (negb (bool_decide (_ ∈ known))); [eauto|].
    apply elem_of_cons in Hin. destruct Hin as [->|Hin].
    + rewrite Hhead in Hseen. by destruct Hseen.
    + apply (IH _ _ _ file Hin).
      destruct (decide (f_Name head = f_Name file)) as [->|Hne].
      * rewrite lookup_insert_eq. eauto.
      * by rewrite lookup_insert_ne.
Qed.

(** The second loop fails when two entries share a name. *)
Lemma filesLoop_duplicate (files : list File) :
  ∀ (index : nat) (seen : gmap string nat) (known : gset string)
    (i j : nat) (fi fj : File),
    (i < j)%nat → files !! i = Some fi → files !! j = Some fj →
    f_Name fi = f_Name fj →
    is_Some (filesLoop index files seen known).
Proof.
  induction files as [|head rest IH]; intros index seen known i j fi fj Hij Hi Hj Hn.
  - discriminate.
  - simpl. destruct (seen !! f_Name head) as [old|] eqn:Hhead; [eauto|].
    destruct (negb (bool_decide (_ ∈ known))); [eauto|].
    destruct j as [|j]; [lia|]. simpl in Hj.
    destruct i as [|i]; simpl in Hi.
    + injection Hi as ->.
      apply (filesLoop_seen rest _ _ _ fj).
      * by apply list_elem_of_lookup_2 in Hj.
      * rewrite <- Hn, lookup_insert_eq. eauto.
    + apply (IH _ _ _ i j fi fj); [lia|assumption..].
Qed.

(** The second loop fails at an entry whose parent directory is not known
    before the loop and is declared by no directory entry before it. *)
Lemma filesLoop_missing_parent (files : list File) :
  ∀ (index : nat) (seen : gmap string nat) (known : gset string)
    (j : nat) (fj : File),
    files !! j = Some fj →
    parentDir (f_Name fj) ∉ known →
    (∀ i fi, (i < j)%nat → files !! i = Some fi → f_Type fi = TypeDIR →
             Go.TrimRight (f_Name fi) "/" ≠ parentDir (f_Name fj)) →
    is_Some (filesLoop index files seen known).
Proof.
  induction files as [|head rest IH]; intros index seen known j fj Hj Hk Hearlier.
  - discriminate.
  - simpl. destruct (seen !! f_Name head) as [old|] eqn:Hhead; [eauto|].
    fold (parentDir (f_Name head)).
    destruct (bool_decide (parentDir (f_Name head) ∈ known)) eqn:Hdec;
      simpl; [|eauto].
    destruct j as [|j]; simpl in Hj.
    + injection Hj as ->. apply bool_decide_eq_true in Hdec. contradiction.
    + apply (IH _ _ _ j fj Hj).
      * destruct (N.eqb_spec (f_Type head) TypeDIR) as [Hd|_]; [|exact Hk].
        rewrite elem_of_union, elem_of_singleton. intros [Heq|Hin]; [|contradiction].
        apply (Hearlier 0%nat head); [lia|reflexivity|exact Hd|]. by symmetry.
      * intros i fi Hi Hfi Hty.
        apply (Hearlier (S i) fi); [lia|exact Hfi|exact Hty].
Qed.

(** C5: the cross-entry pass returns an error when two entries share a
    name, and when the parent directory of an entry (its name without
    trailing slashes, then the directory part) is neither [.] nor an
    implicit directory (compared without trailing slashes) nor the name of
    a directory entry earlier in the list.  A file listed before the
    directory that holds it is rejected; the same two entries in the other
    order are accepted. *)
Theorem validatePost_rejects (manifest : Manifest) :
  (∀ i j fi fj,
     (i < j)%nat → m_Files manifest !! i = Some fi →
     m_Files manifest !! j = Some fj → f_Name fi = f_Name fj →
     is_Some (validatePost manifest)) ∧
  (∀ j fj,
     m_Files manifest !! j = Some fj →
     parentDir (f_Name fj) ≠ "." →
     (∀ d, d ∈ m_ImplicitDirs manifest →
           Go.TrimRight d "/" ≠ parentDir (f_Name fj)) →
     (∀ i fi, (i < j)%nat → m_Files manifest !! i = Some fi →
              f_Type fi = TypeDIR →
              Go.TrimRight (f_Name fi) "/" ≠ parentDir (f_Name fj)) →
     is_Some (validatePost manifest)) ∧
  validatePost (Ref.manifest [fileEntry; dirEntry])
    = Some (Errorf "files[%d]: directory %q might not exist yet"
                   [AInt 0; AStr "opt"]) ∧
  validatePost (Ref.manifest [dirEntry; fileEntry]) = None.
Proof.
  split; [|split; [|split; vm_compute; reflexivity]].
  - intros i j fi fj Hij Hi Hj Hn. unfold validatePost.
    destruct (implicitDirsLoop 0 (m_ImplicitDirs manifest) {["."]})
      as [known|e]; [|eauto].
    by apply (filesLoop_duplicate _ _ _ _ i j fi fj).
  - intros j fj Hj Hdot Himplicit Hearlier. unfold validatePost.
    destruct (implicitDirsLoop 0 (m_ImplicitDirs manifest) {["."]})
      as [known|e] eqn:Hloop; [|eauto].
    apply (filesLoop_missing_parent _ _ _ _ j fj Hj); [|exact Hearlier].
    rewrite (implicitDirsLoop_known _ _ _ _ Hloop).
    rewrite elem_of_singleton. intros [H|(d & Hd & Heq)]; [contradiction|].
    by apply (Himplicit d Hd).
Qed.

(** The rejection of C5 through the theorem: in a manifest that lists a
    file before the directory that holds it, the file's parent is declared
    by no earlier entry. *)
Lemma validatePost_rejects_witness :
  is_Some (validatePost (Ref.manifest [fileEntry; dirEntry])).
Proof.
  destruct (validatePost_rejects (Ref.manifest [fileEntry; dirEntry]))
    as (_ & Hmissing & _).
  apply (Hmissing 0%nat fileEntry).
  - reflexivity.
  - vm_compute. discriminate.
  - intros d Hd. vm_compute in Hd. by apply elem_of_nil in Hd.
  - intros i fi Hi. lia.
Defined.

(** ** Properties of the control tarball and of phase order *)

Section PipelineFacts.

Variable X : Extern.

Lemma appendLast_snoc (members : list TarMember) (m : TarMember) (p : string) :
  appendLast (members ++ [m]) p
  = members ++ [mkTarMember (tm_hdr m) (tm_body m +:+ p)].
Proof.
  induction members as [|a members IH]; [reflexivity|].
  simpl. rewrite IH. destruct (members ++ [m]) eqn:E; [|reflexivity].
  destruct members; discriminate.
Qed.

Lemma writeControlFile_written (builder : Builder) (tw : TarWriter)
    (name : string) (isExec : bool) (data : option string) :
  tw_missing tw = 0 →
  writeControlFile X builder tw name isExec data
  = Ok (mkTarWriter (tw_members tw ++ optMember X builder name isExec data) 0).
Proof.
  intros Hm. unfold writeControlFile. destruct data as [data|]; simpl.
  - unfold tar_WriteHeader. rewrite Hm. simpl.
    assert (Hlen : 0 <= Go.len data) by (unfold Go.len; lia).
    destruct (Z.ltb_spec (Go.len data) 0) as [?|_]; [lia|].
    unfold tar_Write. simpl.
    destruct (Z.ltb_spec (Go.len data) (Go.len data)) as [?|_]; [lia|].
    rewrite appendLast_snoc, Z.sub_diag. simpl. unfold ctlMember.
    destruct isExec; [|reflexivity].
    rewrite <- Z.lor_assoc. reflexivity.
  - destruct tw as [members missing]. simpl in *. subst missing.
    by rewrite app_nil_r.
Qed.

Local Arguments writeControlFile : simpl never.

Lemma checksumLoop_written (builder : Builder) (files : list File)
    (algos : list N) :
  ∀ tw, tw_missing tw = 0 →
    checksumLoop X builder algos files tw
    = Ok (mkTarWriter
            (tw_members tw ++ checksumMembers X builder algos files) 0).
Proof.
  induction algos as [|algo rest IH]; intros tw Hm; simpl.
  - destruct tw as [members missing]. simpl in *. subst missing.
    by rewrite app_nil_r.
  - rewrite writeControlFile_written by exact Hm. simpl.
    rewrite IH by reflexivity. simpl. by rewrite <- app_assoc.
Qed.

Lemma confWritten_empty (files : list File) :
  forallb (String.eqb "")
    (flat_map (λ file, if f_IsConf file then [f_Name file; nl] else []) files)
  = negb (existsb f_IsConf files).
Proof.
  induction files as [|file files IH]; [reflexivity|].
  simpl. destruct (f_IsConf file); simpl; [apply andb_false_r | exact IH].
Qed.

Lemma confWritten_concat (files : list File) :
  concatMap id
    (flat_map (λ file, if f_IsConf file then [f_Name file; nl] else []) files)
  = concatMap (λ file, f_Name file +:+ nl) (List.filter f_IsConf files).
Proof.
  induction files as [|file files IH]; [reflexivity|].
  simpl. destruct (f_IsConf file); simpl; [|exact IH].
  rewrite IH. unfold id. by rewrite append_assoc.
Qed.

Lemma ConfFiles_confText (manifest : Manifest) :
  m_isResolved manifest = true →
  ConfFiles manifest = Ok (confText (m_Files manifest)).
Proof.
  intros Hr. unfold ConfFiles, mustResolve. rewrite Hr. simpl. f_equal.
  unfold bufferBytes, confText.
  rewrite confWritten_empty, confWritten_concat.
  by destruct (existsb f_IsConf (m_Files manifest)).
Qed.

Lemma script_scriptText (manifest : Manifest) (lines : list string) :
  m_isResolved manifest = true →
  script manifest lines = Ok (scriptText lines).
Proof.
  intros Hr. unfold script, mustResolve. rewrite Hr. simpl.
  destruct lines; reflexivity.
Qed.

Lemma ControlFile_resolved (manifest : Manifest) :
  m_isResolved manifest = true → ∃ control, ControlFile manifest = Ok control.
Proof.
  intros Hr. unfold ControlFile, mustResolve. rewrite Hr. simpl. eauto.
Qed.

Lemma controlTar_written (builder : Builder) (manifest : Manifest)
    (control : string) :
  m_isResolved manifest = true →
  ControlFile manifest = Ok control →
  controlTar X builder manifest
  = Ok (mkTarWriter (controlLayout X builder manifest control) 0).
Proof.
  intros Hr Hc. unfold controlTar. rewrite Hc. simpl.
  rewrite writeControlFile_written by reflexivity. simpl.
  rewrite checksumLoop_written by reflexivity. simpl.
  rewrite ConfFiles_confText by exact Hr. simpl.
  rewrite writeControlFile_written by reflexivity. simpl.
  unfold PreInstallScript, PostInstallScript, PreRemoveScript, PostRemoveScript.
  rewrite !script_scriptText by exact Hr. simpl.
  rewrite writeControlFile_written by reflexivity. simpl.
  rewrite writeControlFile_written by reflexivity. simpl.
  rewrite writeControlFile_written by reflexivity. simpl.
  rewrite writeControlFile_written by reflexivity. simpl.
  unfold controlLayout. by rewrite <- !app_assoc.
Qed.

Lemma fillDefaults_idem (builder : Builder) :
  fillDefaults (fillDefaults builder) = fillDefaults builder.
Proof.
  unfold fillDefaults. simpl.
  destruct (Time_IsZero (b_ZeroTime builder)) eqn:Ht;
    destruct (N.eqb_spec (b_Compression builder) CompressAuto) as [Hc|Hc];
    destruct (b_Hashes builder); simpl; rewrite ?Ht;
    try (destruct (N.eqb_spec (b_Compression builder) CompressAuto);
         [contradiction|]);
    reflexivity.
Qed.

(** A successful [BuildControlTarball] is the control layout, archived and
    compressed. *)
Lemma BuildControlTarball_written (builder : Builder) (manifest : Manifest)
    (cw : string → string) :
  m_isResolved manifest = true → m_isHashed manifest = true →
  CompressAlgorithm_NewWriter X (b_Compression (fillDefaults builder)) = Ok cw →
  ∃ control,
    ControlFile manifest = Ok control ∧
    BuildControlTarball X builder manifest
    = Ok (cw (x_tarEncode X
                (controlLayout X (fillDefaults builder) manifest control))).
Proof.
  intros Hr Hh Hcw. destruct (ControlFile_resolved manifest Hr) as [control Hc].
  exists control. split; [exact Hc|].
  unfold BuildControlTarball. rewrite Hr, Hh. simpl negb. cbv iota zeta.
  rewrite Hcw. simpl.
  rewrite (controlTar_written _ _ control Hr Hc). reflexivity.
Qed.

(** A successful [BuildDataTarball], taken apart. *)
Lemma BuildDataTarball_ok (builder : Builder) (manifest manifest' : Manifest)
    (data : string) :
  BuildDataTarball X builder manifest = (manifest', Ok data) →
  m_isResolved manifest' = true ∧ m_isHashed manifest' = true ∧
  ∃ cw tw,
    CompressAlgorithm_NewWriter X (b_Compression (fillDefaults builder)) = Ok cw ∧
    forFiles (dataStep X (fillDefaults builder)) 0 (m_Files manifest) tar_NewWriter
      = (m_Files manifest', Ok tw) ∧
    data = cw (x_tarEncode X (tw_members tw)).
Proof.
  unfold BuildDataTarball.
  destruct (m_isResolved manifest) eqn:Hr; simpl; [|discriminate].
  destruct (CompressAlgorithm_NewWriter X _) as [cw|e|e] eqn:Hcw;
    try discriminate.
  destruct (forFiles _ 0 (m_Files manifest) tar_NewWriter)
    as [files [tw|e|e]] eqn:Hloop; try discriminate.
  unfold tar_Close. destruct (negb (tw_missing tw =? 0)); [discriminate|].
  intros Heq. injection Heq as <- <-. simpl.
  repeat split; try assumption. exists cw, tw. auto.
Qed.

(** C7: before [Resolve] every rendering method panics, and so do both
    tarball builders; [BuildControlTarball] panics as long as
    [BuildDataTarball] has not marked the manifest hashed; after [Resolve]
    the rendering methods return, after a successful [Resolve] the manifest
    is resolved, and after a successful [BuildDataTarball] the same builder's
    [BuildControlTarball] returns the control tarball. *)
Theorem phase_order (builder : Builder) (manifest : Manifest) :
  (m_isResolved manifest = false →
     ControlFile manifest = Panic (Errorf "must call Resolve first" []) ∧
     ConfFiles manifest = Panic (Errorf "must call Resolve first" []) ∧
     PreInstallScript manifest = Panic (Errorf "must call Resolve first" []) ∧
     PostInstallScript manifest = Panic (Errorf "must call Resolve first" []) ∧
     PreRemoveScript manifest = Panic (Errorf "must call Resolve first" []) ∧
     PostRemoveScript manifest = Panic (Errorf "must call Resolve first" []) ∧
     BuildDataTarball X builder manifest
       = (manifest, Panic (Errorf "must call manifest.Resolve first" [])) ∧
     BuildControlTarball X builder manifest
       = Panic (Errorf "must call manifest.Resolve first" [])) ∧
  (m_isHashed manifest = false →
     is_Panic (BuildControlTarball X builder manifest) = true ∧
     (m_isResolved manifest = true →
        BuildControlTarball X builder manifest
          = Panic (Errorf "must call BuildDataTarball first" []))) ∧
  (m_isResolved manifest = true →
     is_Ok (ControlFile manifest) = true ∧
     is_Ok (ConfFiles manifest) = true ∧
     is_Ok (PreInstallScript manifest) = true ∧
     is_Ok (PostInstallScript manifest) = true ∧
     is_Ok (PreRemoveScript manifest) = true ∧
     is_Ok (PostRemoveScript manifest) = true) ∧
  (∀ fileSystem manifest',
     Manifest_Resolve fileSystem manifest = (manifest', Ok tt) →
     m_isResolved manifest' = true) ∧
  (∀ manifest' data,
     BuildDataTarball X builder manifest = (manifest', Ok data) →
     is_Ok (BuildControlTarball X builder manifest') = true).
Proof.
  split; [|split; [|split; [|split]]].
  - intros Hr.
    unfold ControlFile, ConfFiles, PreInstallScript, PostInstallScript,
      PreRemoveScript, PostRemoveScript, script, mustResolve,
      BuildDataTarball, BuildControlTarball.
    rewrite Hr. simpl. repeat split; reflexivity.
  - intros Hh. unfold BuildControlTarball. rewrite Hh.
    destruct (m_isResolved manifest); simpl; split; try reflexivity.
    discriminate.
  - intros Hr.
    unfold PreInstallScript, PostInstallScript, PreRemoveScript,
      PostRemoveScript.
    rewrite (ConfFiles_confText manifest Hr).
    rewrite !(script_scriptText manifest _ Hr).
    destruct (ControlFile_resolved manifest Hr) as [control ->].
    repeat split; reflexivity.
  - intros fileSystem manifest' Hres.
    destruct (Manifest_Resolve_ok _ _ _ Hres) as (total & _ & _ & Hr & _).
    exact Hr.
  - intros manifest' data Hdata.
    destruct (BuildDataTarball_ok _ _ _ _ Hdata)
      as (Hr & Hh & cw & tw & Hcw & _).
    destruct (BuildControlTarball_written builder manifest' cw Hr Hh Hcw)
      as (control & _ & ->).
    reflexivity.
Qed.

Lemma optMember_names (builder : Builder) (name : string) (isExec : bool)
    (data : option string) :
  map memberName (optMember X builder name isExec data)
  = present (isSome data) name.
Proof. destruct data; reflexivity. Qed.

Lemma isSome_confText (files : list File) :
  isSome (confText files) = existsb f_IsConf files.
Proof. unfold confText. by destruct (existsb f_IsConf files). Qed.

Lemma isSome_scriptText (lines : list string) :
  isSome (scriptText lines) = hasLines lines.
Proof. by destruct lines. Qed.

Lemma controlLayout_names (builder : Builder) (manifest : Manifest)
    (control : string) :
  map memberName (controlLayout X builder manifest control)
  = controlNames builder manifest.
Proof.
  unfold controlLayout, controlNames. simpl. f_equal.
  rewrite !map_app, !optMember_names. unfold checksumMembers.
  rewrite map_map. simpl.
  by rewrite isSome_confText, !isSome_scriptText.
Qed.

(** C4, amended: for a resolved and hashed manifest and a compression that
    has a writer, [BuildControlTarball] returns the compressed archive of
    these members in this order: [control]; one checksum file per hash
    algorithm of the builder; [conffiles], present if and only if some
    entry is marked [isConf], each such name followed by a newline; then
    [preinst], [postinst], [prerm], [postrm], each present if and only if
    its list of lines is not empty, with the preamble followed by each line
    and a newline, in mode 0755 over the file-type bits; the other members
    are in mode 0644. *)
Theorem BuildControlTarball_layout (builder : Builder) (manifest : Manifest)
    (cw : string → string) :
  m_isResolved manifest = true → m_isHashed manifest = true →
  CompressAlgorithm_NewWriter X (b_Compression (fillDefaults builder)) = Ok cw →
  ∃ control,
    ControlFile manifest = Ok control ∧
    BuildControlTarball X builder manifest
    = Ok (cw (x_tarEncode X
                (controlLayout X (fillDefaults builder) manifest control))) ∧
    map memberName (controlLayout X (fillDefaults builder) manifest control)
    = controlNames (fillDefaults builder) manifest.
Proof.
  intros Hr Hh Hcw.
  destruct (BuildControlTarball_written builder manifest cw Hr Hh Hcw)
    as (control & Hc & Hb).
  exists control. split; [exact Hc|]. split; [exact Hb|].
  apply controlLayout_names.
Qed.

End PipelineFacts.

(** C7 on the example: the data tarball builds, and the control tarball
    builds after it. *)
Lemma phase_order_witness :
  is_Ok (BuildControlTarball Ref.X Ref.builder fooHashed) = true.
Proof.
  destruct (phase_order Ref.X Ref.builder fooResolved) as (_ & _ & _ & _ & H).
  apply (H fooHashed
           (got "" (snd (BuildDataTarball Ref.X Ref.builder fooResolved)))).
  vm_compute. reflexivity.
Defined.

(** C4 as stated fails: no entry of the example is marked [isConf], and
    the control tarball built for it has no member named [conffiles]. *)
Lemma conffiles_absent_counterexample :
  ¬ conffiles_written Ref.X Ref.builder fooHashed.
Proof.
  intros H.
  specialize (H (got tar_NewWriter
                   (controlTar Ref.X (fillDefaults Ref.builder) fooHashed))
                ltac:(vm_compute; reflexivity)).
  vm_compute in H. 
  repeat (apply elem_of_cons in H; destruct H as [H|H]; [discriminate|]).
  by apply elem_of_nil in H.
Qed.

(** C4 on a manifest with a configuration file and a post-install script:
    the members are [control], the three checksum files, [conffiles] and
    [postinst]. *)
Lemma BuildControlTarball_layout_witness :
  ∃ control,
    ControlFile confHashed = Ok control ∧
    BuildControlTarball Ref.X Ref.builder confHashed
    = Ok (Ref.compressEncode CompressGZIP
            (Ref.tarEncode
               (controlLayout Ref.X (fillDefaults Ref.builder) confHashed control))) ∧
    map memberName
      (controlLayout Ref.X (fillDefaults Ref.builder) confHashed control)
    = ["control"; "md5sum"; "sha1sum"; "sha256sum"; "conffiles"; "postinst"].
Proof.
  destruct (BuildControlTarball_layout Ref.X Ref.builder confHashed
              (Ref.compressEncode CompressGZIP))
    as (control & Hc & Hb & Hn).
  - vm_compute. reflexivity.
  - vm_compute. reflexivity.
  - vm_compute. reflexivity.
  - exists control. split; [exact Hc|]. split; [exact Hb|].
    rewrite Hn. vm_compute. reflexivity.
Defined.

(** ** The data tarball and the checksum files *)

Section ChecksumFacts.

Variable X : Extern.

(** A loop that returned has run its step on every entry. *)
Lemma forFiles_steps {A : Type} (step : nat → File → A → File * res A)
    (files : list File) :
  ∀ (index : nat) (acc : A) (files' : list File) (last : A),
    forFiles step index files acc = (files', Ok last) →
    Forall2 (λ file file', ∃ i a a', step i file a = (file', Ok a'))
            files files'.
Proof.
  induction files as [|file rest IH]; intros index acc files' last; simpl.
  - intros Heq. injection Heq as <- _. constructor.
  - destruct (step index file acc) as [file1 [a1|e|e]] eqn:Hstep;
      try discriminate.
    destruct (forFiles step (S index) rest a1) as [rest' r] eqn:Hrest.
    intros Heq. injection Heq as <- ->.
    constructor; [eauto | by eapply IH].
Qed.

Lemma newHashers_lookup (algos : list N) :
  ∀ (h0 hashers : gmap N string),
    newHashers algos h0 = Ok hashers →
    ∀ algo, algo ∈ algos → hashers !! algo = Some "".
Proof.
  induction algos as [|a rest IH]; intros h0 hashers Hnew algo Hin.
  - by apply elem_of_nil in Hin.
  - simpl in Hnew. destruct (HashAlgorithm_New a) as [hasher|e|e] eqn:Ha;
      try discriminate. simpl in Hnew.
    assert (hasher = "") as ->.
    { unfold HashAlgorithm_New in Ha.
      destruct ((a =? HashMD5)%N || (a =? HashSHA1)%N || (a =? HashSHA256)%N);
        [by injection Ha | discriminate]. }
    destruct (decide (algo ∈ rest)) as [Hr|Hr]; [by eapply IH|].
    apply elem_of_cons in Hin. destruct Hin as [->|Hin]; [|contradiction].
    clear IH Ha. revert h0 Hnew Hr.
    induction rest as [|b rest IHr]; intros h0 Hnew Hr.
    + simpl in Hnew. injection Hnew as <-. apply lookup_insert_eq.
    + simpl in Hnew. destruct (HashAlgorithm_New b) as [hb|e|e];
        try discriminate. simpl in Hnew.
      apply not_elem_of_cons in Hr. destruct Hr as [Hne Hr].
      rewrite insert_insert_ne in Hnew by done.
      by apply (IHr (<[b:=hb]> h0)).
Qed.

Lemma sumHashers_lookup (algos : list N) (hashers : gmap N string) :
  ∀ (h0 : gmap N string) algo,
    algo ∈ algos →
    sumHashers X algos hashers h0 !! algo
    = Some (x_hashSum X algo (default "" (hashers !! algo))).
Proof.
  induction algos as [|a rest IH]; intros h0 algo Hin.
  - by apply elem_of_nil in Hin.
  - simpl. destruct (decide (algo ∈ rest)) as [Hr|Hr]; [by apply IH|].
    apply elem_of_cons in Hin. destruct Hin as [->|Hin]; [|contradiction].
    clear IH. revert h0 Hr.
    induction rest as [|b rest IHr]; intros h0 Hr; simpl.
    + apply lookup_insert_eq.
    + apply not_elem_of_cons in Hr. destruct Hr as [Hne Hr].
      rewrite insert_insert_ne by done. by apply IHr.
Qed.

Lemma File_Reader_setHashes (fileSystem : FS) (file : File) (isHashed : bool)
    (hashes : gmap N string) :
  File_Reader fileSystem (File_setHashes file isHashed hashes)
  = File_Reader fileSystem file.
Proof. reflexivity. Qed.

Lemma dataStep_ok (builder : Builder) (index : nat) (file file' : File)
    (tw tw' : TarWriter) :
  dataStep X builder index file tw = (file', Ok tw') →
  f_Name file' = f_Name file ∧ f_Type file' = f_Type file ∧
  hashedFor X builder file'.
Proof.
  unfold dataStep.
  destruct (AsTarHeader X (File_setHashes file false ∅)) as [hdr|e|e];
    try discriminate.
  cbv zeta.
  destruct (tar_WriteHeader tw _) as [tw1|e|e]; try discriminate.
  change (f_Type (File_setHashes file false ∅)) with (f_Type file).
  rewrite File_Reader_setHashes.
  unfold hashedFor.
  destruct (f_Type file =? TypeREG)%N eqn:Hreg.
  - destruct (File_Reader (b_Root builder) file) as [content|e|e] eqn:Hread;
      try discriminate.
    destruct (newHashers (hashesOf builder) ∅) as [hashers|e|e] eqn:Hnew;
      try discriminate.
    destruct (tar_Write tw1 content) as [tw2|e|e]; try discriminate.
    intros Heq. injection Heq as <- _.
    change (f_Type (File_setHashes _ true _)) with (f_Type file).
    rewrite Hreg, !File_Reader_setHashes. simpl.
    repeat split. exists content. split; [exact Hread|].
    intros algo Hin. rewrite sumHashers_lookup by exact Hin.
    unfold hashWriter_Write. rewrite lookup_fmap.
    rewrite (newHashers_lookup _ _ _ Hnew algo Hin). reflexivity.
  - intros Heq. injection Heq as <- _.
    change (f_Type (File_setHashes file false ∅)) with (f_Type file).
    rewrite Hreg. repeat split.
Qed.

Lemma checksumFile_spec (builder : Builder) (algo : N) (files : list File) :
  algo ∈ hashesOf builder →
  Forall (hashedFor X builder) files →
  checksumFile algo files = checksumSpec X (b_Root builder) algo files.
Proof.
  intros Hin Hall. unfold checksumFile, checksumSpec.
  induction Hall as [|file files Hf _ IH]; [reflexivity|].
  simpl. unfold hashedFor in Hf.
  destruct (f_Type file =? TypeREG)%N.
  - destruct Hf as (-> & content & Hread & Hhash). simpl.
    rewrite IH. unfold checksumLine, contentOf.
    rewrite (Hhash algo Hin), Hread. simpl.
    by rewrite !append_assoc.
  - rewrite Hf. exact IH.
Qed.

Lemma checksumMembers_spec (builder : Builder) (files : list File) :
  Forall (hashedFor X builder) files →
  checksumMembers X builder (hashesOf builder) files
  = map (λ algo, ctlMember X builder (HashAlgorithm_FileName algo) false
                   (checksumSpec X (b_Root builder) algo files))
        (hashesOf builder).
Proof.
  intros Hall. unfold checksumMembers.
  apply map_ext_in. intros algo Hin.
  rewrite (checksumFile_spec builder algo files); [reflexivity| |exact Hall].
  by apply list_elem_of_In.
Qed.

(** C3: after a successful [BuildDataTarball], the control tarball that
    the same builder writes, through the compressing writer its
    compression gives, is the archive of exactly these members: [control],
    then one checksum file per hash algorithm of the builder, in the
    builder's order, each named by [HashAlgorithm.FileName] ([md5sum],
    [sha1sum], [sha256sum] for the three algorithms) and holding, for the
    regular-file entries in manifest order, the lowercase hexadecimal digest
    of the entry's content under that algorithm, two spaces, the entry name
    and a newline, then the configuration list and the scripts.  The
    content of a regular file is what its reader yields, and the data build
    changes neither the names nor the types of the entries. *)
Theorem checksum_files (builder : Builder) (manifest manifest' : Manifest)
    (data : string) :
  BuildDataTarball X builder manifest = (manifest', Ok data) →
  ∃ cw control,
    CompressAlgorithm_NewWriter X (b_Compression (fillDefaults builder)) = Ok cw ∧
    ControlFile manifest' = Ok control ∧
    controlTar X (fillDefaults builder) manifest'
    = Ok (mkTarWriter
            (checksumLayout X (fillDefaults builder) manifest' control) 0) ∧
    BuildControlTarball X builder manifest'
    = Ok (cw (x_tarEncode X
                (checksumLayout X (fillDefaults builder) manifest' control))) ∧
    Forall (λ file, (f_Type file =? TypeREG)%N = true →
                    File_Reader (b_Root (fillDefaults builder)) file
                    = Ok (contentOf (b_Root (fillDefaults builder)) file))
           (m_Files manifest') ∧
    map f_Name (m_Files manifest') = map f_Name (m_Files manifest) ∧
    map f_Type (m_Files manifest') = map f_Type (m_Files manifest) ∧
    map HashAlgorithm_FileName standardHashes
    = ["md5sum"; "sha1sum"; "sha256sum"].
Proof.
  intros Hdata.
  destruct (BuildDataTarball_ok _ _ _ _ _ Hdata)
    as (Hr & Hh & cw & tw & Hcw & Hloop & _).
  apply forFiles_steps in Hloop.
  assert (Hall : Forall (hashedFor X (fillDefaults builder)) (m_Files manifest')).
  { clear -Hloop. induction Hloop as [|f f' l l' (i & a & a' & Hs) _ IH];
      constructor; [|exact IH].
    apply dataStep_ok in Hs. tauto. }
  destruct (BuildControlTarball_written X builder manifest' cw Hr Hh Hcw)
    as (control & Hc & Hb).
  assert (Hlayout : controlLayout X (fillDefaults builder) manifest' control
                    = checksumLayout X (fillDefaults builder) manifest' control).
  { unfold controlLayout, checksumLayout.
    rewrite (checksumMembers_spec _ _ Hall). reflexivity. }
  exists cw, control.
  split; [exact Hcw|]. split; [exact Hc|].
  split; [|split; [|split; [|split; [|split]]]].
  - rewrite <- Hlayout. by apply controlTar_written.
  - rewrite <- Hlayout. exact Hb.
  - clear -Hall. induction Hall as [|f l Hf _ IH]; constructor; [|exact IH].
    intros Hreg. unfold hashedFor in Hf. rewrite Hreg in Hf.
    destruct Hf as (_ & content & Hread & _).
    unfold contentOf. by rewrite Hread.
  - clear -Hloop. induction Hloop as [|f f' l l' (i & a & a' & Hs) _ IH];
      [reflexivity|].
    simpl. rewrite IH. apply dataStep_ok in Hs. destruct Hs as (-> & _).
    reflexivity.
  - clear -Hloop. induction Hloop as [|f f' l l' (i & a & a' & Hs) _ IH];
      [reflexivity|].
    simpl. rewrite IH. apply dataStep_ok in Hs. destruct Hs as (_ & -> & _).
    reflexivity.
  - reflexivity.
Qed.

End ChecksumFacts.

(** C3 on the end-to-end example: one file [foo], and after [control] the
    three checksum files, each with the one line of [foo]. *)
Lemma checksum_files_witness :
  ∃ cw control,
    CompressAlgorithm_NewWriter Ref.X (b_Compression (fillDefaults Ref.builder))
      = Ok cw ∧
    BuildControlTarball Ref.X Ref.builder fooHashed
    = Ok (cw (Ref.tarEncode
                (checksumLayout Ref.X (fillDefaults Ref.builder) fooHashed
                   control))) ∧
    map (λ member, (memberName member, tm_body member))
        (tail (checksumLayout Ref.X (fillDefaults Ref.builder) fooHashed control))
    = [ ("md5sum",
         Go.EncodeToString (Ref.hashSum HashMD5 ("hi" +:+ nl))
         +:+ "  foo" +:+ nl);
        ("sha1sum",
         Go.EncodeToString (Ref.hashSum HashSHA1 ("hi" +:+ nl))
         +:+ "  foo" +:+ nl);
        ("sha256sum",
         Go.EncodeToString (Ref.hashSum HashSHA256 ("hi" +:+ nl))
         +:+ "  foo" +:+ nl) ].
Proof.
  destruct (checksum_files Ref.X Ref.builder fooResolved fooHashed
              (got "" (snd (BuildDataTarball Ref.X Ref.builder fooResolved))))
    as (cw & control & Hcw & _ & _ & Hb & _).
  - vm_compute. reflexivity.
  - exists cw, control. split; [exact Hcw|]. split; [exact Hb|].
    vm_compute. reflexivity.
Defined.

(** ** The assembled container *)

Section ContainerFacts.

Variable X : Extern.

Lemma NewWriter_GZIP (cw : string → string) :
  CompressAlgorithm_NewWriter X CompressGZIP = Ok cw →
  cw = x_compressEncode X CompressGZIP.
Proof. intros H. vm_compute in H. by injection H. Qed.

(** C1: when [Build] returns for a builder whose compression is unset, the
    output is the magic [!<arch>] and a newline, then the entry
    [debian-binary] holding [2.0] and a newline, then the entry
    [control.tar.gz], then the entry [data.tar.gz], each entry in the layout
    of the encoder and the two tarballs compressed by gzip. *)
Theorem Build_container (builder : Builder) (manifest manifest' : Manifest)
    (out : string) :
  b_Compression builder = CompressAuto →
  Build X builder manifest = (manifest', Ok out) →
  ∃ control data e2 e3,
    out = arMagic
          +:+ ("debian-binary   1577836800  0     0     100644  4         `"
               +:+ nl +:+ "2.0" +:+ nl)
          +:+ e2 +:+ e3 ∧
    substring 0 8 out = "!<arch>" +:+ nl ∧
    writeArEntry "debian-binary" 4 ("2.0" +:+ nl)
    = Ok ("debian-binary   1577836800  0     0     100644  4         `"
          +:+ nl +:+ "2.0" +:+ nl) ∧
    writeArEntry "control.tar.gz" (Go.len control) control = Ok e2 ∧
    writeArEntry "data.tar.gz" (Go.len data) data = Ok e3 ∧
    ar_entry_layout "control.tar.gz" (Go.len control) control ∧
    ar_entry_layout "data.tar.gz" (Go.len data) data ∧
    (∃ archive, control = x_compressEncode X CompressGZIP archive) ∧
    (∃ archive, data = x_compressEncode X CompressGZIP archive).
Proof.
  intros Hauto. unfold Build.
  assert (Hgz : b_Compression (fillDefaults builder) = CompressGZIP)
    by (unfold fillDefaults; simpl; by rewrite Hauto).
  destruct (Manifest_Resolve _ manifest) as [m1 [[]|e|e]]; try discriminate.
  destruct (BuildDataTarball X (fillDefaults builder) m1)
    as [m2 [data|e|e]] eqn:Hdata; try discriminate.
  intros Heq. injection Heq as <- Hout.
  destruct (BuildDataTarball_ok _ _ _ _ _ Hdata)
    as (Hr & Hh & cw & tw & Hcw & _ & Hd).
  rewrite fillDefaults_idem, Hgz in Hcw.
  pose proof (NewWriter_GZIP cw Hcw) as ->.
  destruct (BuildControlTarball_written X (fillDefaults builder) m2
              (x_compressEncode X CompressGZIP) Hr Hh)
    as (ctl & _ & Hb); [by rewrite fillDefaults_idem, Hgz|].
  rewrite Hb in Hout. simpl in Hout. unfold writeArFile in Hout.
  rewrite Hgz in Hout.
  change (CompressAlgorithm_Suffix CompressGZIP) with ".gz" in Hout.
  change ("control.tar" +:+ ".gz") with "control.tar.gz" in Hout.
  change ("data.tar" +:+ ".gz") with "data.tar.gz" in Hout.
  change (writeArEntry "debian-binary" (Go.len debianBinary) debianBinary)
    with (@Ok string
            ("debian-binary   1577836800  0     0     100644  4         `"
             +:+ nl +:+ "2.0" +:+ nl)) in Hout.
  cbn [bind] in Hout.
  match type of Hout with
  | context [writeArEntry "control.tar.gz" ?n ?c] =>
      destruct (writeArEntry "control.tar.gz" n c) as [e2|e|e] eqn:He2;
        try discriminate; set (control := c) in *
  end.
  cbn [bind] in Hout.
  destruct (writeArEntry "data.tar.gz" (Go.len data) data) as [e3|e|e] eqn:He3;
    try discriminate.
  cbn [bind] in Hout. injection Hout as <-.
  exists control, data, e2, e3.
  split; [reflexivity|].
  split; [change 8%nat with (String.length arMagic) at 1;
          apply substring_prefix|].
  split; [vm_compute; reflexivity|].
  split; [exact He2|]. split; [exact He3|].
  split; [|split; [|split]].
  - destruct (writeArEntry_inv _ _ _ _ He2) as (Hn & Hs & Hf).
    by apply writeArEntry_checked.
  - destruct (writeArEntry_inv _ _ _ _ He3) as (Hn & Hs & Hf).
    by apply writeArEntry_checked.
  - unfold control. eauto.
  - rewrite Hd. eauto.
Qed.

End ContainerFacts.

(** C1 on the end-to-end example of the specification. *)
Lemma Build_container_witness :
  substring 0 8 (got "" (snd (Build Ref.X Ref.builder fooManifest)))
  = "!<arch>" +:+ nl.
Proof.
  destruct (Build_container Ref.X Ref.builder fooManifest
              (fst (Build Ref.X Ref.builder fooManifest))
              (got "" (snd (Build Ref.X Ref.builder fooManifest))))
    as (control & data & e2 & e3 & _ & Hmagic & _).
  - reflexivity.
  - vm_compute. reflexivity.
  - exact Hmagic.
Defined.

Example Build_foo_entries :
  ∃ control data,
    snd (Build Ref.X Ref.builder fooManifest)
    = Ok (arMagic
          +:+ "debian-binary   1577836800  0     0     100644  4         `"
          +:+ nl +:+ "2.0" +:+ nl
          +:+ "control.tar.gz  1577836800  0     0     100644  "
          +:+ Go.Sprintf_left10 (Go.len control) +:+ "`" +:+ nl +:+ control
          +:+ (if Z.odd (Go.len control) then nl else "")
          +:+ "data.tar.gz     1577836800  0     0     100644  "
          +:+ Go.Sprintf_left10 (Go.len data) +:+ "`" +:+ nl +:+ data
          +:+ (if Z.odd (Go.len data) then nl else "")).
Proof.
  exists (got "" (BuildControlTarball Ref.X Ref.builder fooHashed)),
         (got "" (snd (BuildDataTarball Ref.X Ref.builder fooResolved))).
  vm_compute. reflexivity.
Qed.

(** ** Further properties of the typed primitives *)

(** Every value of the alias table of entry types is a declared type. *)
Lemma fileTypeAliasMap_valid :
  map_Forall (λ _ value, Type_IsValid value = true) fileTypeAliasMap.
Proof.
  apply map_Forall_to_list. vm_compute.
  repeat (constructor; [reflexivity|]). constructor.
Qed.

Lemma hashMap_valid :
  map_Forall (λ _ value, below value hashNameArray = true) hashMap.
Proof.
  apply map_Forall_to_list. vm_compute.
  repeat (constructor; [reflexivity|]). constructor.
Qed.

Lemma compressMap_valid :
  map_Forall (λ _ value, below value compressNameArray = true) compressMap.
Proof.
  apply map_Forall_to_list. vm_compute.
  repeat (constructor; [reflexivity|]). constructor.
Qed.

(** Whatever the input, the three enumeration parsers leave a declared
    value in the receiver: a value of the alias table on success, the zero
    value on failure. *)
Theorem Parse_leaves_valid_value (unicodeLower : string → string)
    (input : string) :
  Type_IsValid (fst (Type_Parse unicodeLower input)) = true ∧
  below (fst (HashAlgorithm_Parse unicodeLower input)) hashNameArray = true ∧
  below (fst (CompressAlgorithm_Parse unicodeLower input)) compressNameArray
    = true.
Proof.
  split; [|split].
  - unfold Type_Parse.
    destruct (fileTypeAliasMap !! input) as [v|] eqn:H1;
      [exact (fileTypeAliasMap_valid _ _ H1)|].
    destruct (fileTypeAliasMap !! Go.ToLower unicodeLower input) as [v|] eqn:H2;
      [exact (fileTypeAliasMap_valid _ _ H2) | reflexivity].
  - unfold HashAlgorithm_Parse.
    destruct (hashMap !! input) as [v|] eqn:H1;
      [exact (hashMap_valid _ _ H1)|].
    destruct (hashMap !! Go.ToLower unicodeLower input) as [v|] eqn:H2;
      [exact (hashMap_valid _ _ H2) | reflexivity].
  - unfold CompressAlgorithm_Parse.
    destruct (compressMap !! input) as [v|] eqn:H1;
      [exact (compressMap_valid _ _ H1)|].
    destruct (compressMap !! Go.ToLower unicodeLower input) as [v|] eqn:H2;
      [exact (compressMap_valid _ _ H2) | reflexivity].
Qed.

(** The keys of the three alias tables are in lower case. *)
Lemma fileTypeAliasMap_lower :
  map_Forall (λ key _, lowerASCII key = key) fileTypeAliasMap.
Proof.
  apply map_Forall_to_list. vm_compute.
  repeat (constructor; [reflexivity|]). constructor.
Qed.

Lemma hashMap_lower : map_Forall (λ key _, lowerASCII key = key) hashMap.
Proof.
  apply map_Forall_to_list. vm_compute.
  repeat (constructor; [reflexivity|]). constructor.
Qed.

Lemma compressMap_lower :
  map_Forall (λ key _, lowerASCII key = key) compressMap.
Proof.
  apply map_Forall_to_list. vm_compute.
  repeat (constructor; [reflexivity|]). constructor.
Qed.

(** The two lookups of a [Parse] method, exact then lower-cased, amount to
    one lookup of the lower-cased input when the input is ASCII. *)
Lemma lookup_exact_then_lower (unicodeLower : string → string)
    (table : gmap string N) (input : string) :
  map_Forall (λ key _, lowerASCII key = key) table →
  Go.isASCII input = true →
  match table !! input with
  | Some value => Some value
  | None => table !! Go.ToLower unicodeLower input
  end = table !! lowerASCII input.
Proof.
  intros Hkeys Hascii. unfold Go.ToLower. rewrite Hascii. fold (lowerASCII input).
  destruct (table !! input) as [value|] eqn:H; [|reflexivity].
  rewrite (Hkeys _ _ H). by rewrite H.
Qed.

(** The enumeration parsers ignore ASCII case: two ASCII inputs that are
    equal once lower-cased parse to the same value, and one is an error
    exactly when the other is. *)
Theorem Parse_ignores_case (unicodeLower : string → string) (a b : string) :
  Go.isASCII a = true → Go.isASCII b = true → lowerASCII a = lowerASCII b →
  (fst (Type_Parse unicodeLower a) = fst (Type_Parse unicodeLower b) ∧
   isSome (snd (Type_Parse unicodeLower a))
   = isSome (snd (Type_Parse unicodeLower b))) ∧
  (fst (HashAlgorithm_Parse unicodeLower a)
   = fst (HashAlgorithm_Parse unicodeLower b) ∧
   isSome (snd (HashAlgorithm_Parse unicodeLower a))
   = isSome (snd (HashAlgorithm_Parse unicodeLower b))) ∧
  (fst (CompressAlgorithm_Parse unicodeLower a)
   = fst (CompressAlgorithm_Parse unicodeLower b) ∧
   isSome (snd (CompressAlgorithm_Parse unicodeLower a))
   = isSome (snd (CompressAlgorithm_Parse unicodeLower b))).
Proof.
  intros Ha Hb Hab.
  pose proof (lookup_exact_then_lower unicodeLower fileTypeAliasMap a
                fileTypeAliasMap_lower Ha) as Ta.
  pose proof (lookup_exact_then_lower unicodeLower fileTypeAliasMap b
                fileTypeAliasMap_lower Hb) as Tb.
  pose proof (lookup_exact_then_lower unicodeLower hashMap a hashMap_lower Ha)
    as Ha'.
  pose proof (lookup_exact_then_lower unicodeLower hashMap b hashMap_lower Hb)
    as Hb'.
  pose proof (lookup_exact_then_lower unicodeLower compressMap a
                compressMap_lower Ha) as Ca.
  pose proof (lookup_exact_then_lower unicodeLower compressMap b
                compressMap_lower Hb) as Cb.
  rewrite Hab in Ta, Ha', Ca.
  unfold Type_Parse, HashAlgorithm_Parse, CompressAlgorithm_Parse.
  split; [|split].
  - destruct (fileTypeAliasMap !! a), (fileTypeAliasMap !! b);
      destruct (fileTypeAliasMap !! Go.ToLower unicodeLower a);
      destruct (fileTypeAliasMap !! Go.ToLower unicodeLower b);
      destruct (fileTypeAliasMap !! lowerASCII b);
      simpl; split; congruence.
  - destruct (hashMap !! a), (hashMap !! b);
      destruct (hashMap !! Go.ToLower unicodeLower a);
      destruct (hashMap !! Go.ToLower unicodeLower b);
      destruct (hashMap !! lowerASCII b);
      simpl; split; congruence.
  - destruct (compressMap !! a), (compressMap !! b);
      destruct (compressMap !! Go.ToLower unicodeLower a);
      destruct (compressMap !! Go.ToLower unicodeLower b);
      destruct (compressMap !! lowerASCII b);
      simpl; split; congruence.
Qed.

Lemma Parse_ignores_case_witness :
  fst (Type_Parse id "Sym-Link") = fst (Type_Parse id "SYM-LINK") ∧
  isSome (snd (Type_Parse id "Sym-Link")) = isSome (snd (Type_Parse id "SYM-LINK")).
Proof.
  apply (Parse_ignores_case id "Sym-Link" "SYM-LINK"); vm_compute; reflexivity.
Defined.

(** ** [perm.go]: parsing permission bits *)

Lemma Perm_parse_string_all :
  allFrom (Z.to_nat 65536) 0 Perm_parse_string_at = true.
Proof. vm_compute. reflexivity. Qed.

(** [Perm.Parse] undoes [Perm.String] up to the mask: on every [uint16]
    value the text parses without error to the low twelve bits of the
    value, so that a value below [0o10000] comes back unchanged. *)
Theorem Perm_Parse_String (perm : Z) :
  0 <= perm < 65536 →
  Perm_Parse (Perm_String perm) = (Z.land perm 4095, None) ∧
  (perm < 4096 → Perm_Parse (Perm_String perm) = (perm, None)).
Proof.
  intros Hr.
  pose proof (allFrom_spec _ _ _ Perm_parse_string_all perm ltac:(lia)) as H.
  unfold Perm_parse_string_at in H.
  destruct (Perm_Parse (Perm_String perm)) as [parsed [e|]]; [discriminate|].
  apply Z.eqb_eq in H. subst parsed. split; [reflexivity|].
  intros Hlt. f_equal. change 4095 with (Z.ones 12).
  rewrite Z.land_ones by lia. change (2 ^ 12) with 4096.
  apply Z.mod_small. lia.
Qed.

Lemma Perm_Parse_String_witness :
  Perm_Parse (Perm_String 493) = (493, None).
Proof. apply (Perm_Parse_String 493); lia. Defined.

(** Whatever the input, the value [Perm.Parse] leaves in its receiver lies
    within the twelve permission bits, and it is zero when an error is
    returned. *)
Theorem Perm_Parse_range (input : string) :
  0 <= fst (Perm_Parse input) <= 4095 ∧
  (snd (Perm_Parse input) ≠ None → fst (Perm_Parse input) = 0).
Proof.
  unfold Perm_Parse.
  destruct (String.eqb input ""); [simpl; split; [lia|congruence]|].
  destruct (Go.ParseUint input 8 16) as [num|]; simpl.
  - split; [|congruence]. change 4095 with (Z.ones 12).
    rewrite Z.land_ones by lia. change (2 ^ 12) with 4096.
    pose proof (Z.mod_pos_bound num 4096 ltac:(lia)).
    change (Z.ones 12) with 4095. lia.
  - split; [lia|reflexivity].
Qed.

Lemma octal_digit (c : ascii) :
  Go.isDigit c && (Go.digitVal c <? 8) = isOctal c.
Proof.
  unfold Go.isDigit, isOctal, Go.byteIn, Go.digitVal.
  destruct (N.leb_spec 48 (N_of_ascii c)), (N.leb_spec (N_of_ascii c) 57),
    (N.leb_spec (N_of_ascii c) 55), (Z.ltb_spec (Z.of_N (N_of_ascii c) - 48) 8);
    simpl; try reflexivity; lia.
Qed.

Lemma parseDigits_octal (s : string) :
  ∀ acc, isSome (Go.parseDigits 8 acc s) = allOctal s.
Proof.
  unfold allOctal.
  induction s as [|c t IH]; intros acc; simpl; [reflexivity|].
  rewrite octal_digit. destruct (isOctal c); simpl; [apply IH|reflexivity].
Qed.

Lemma parseDigits_octal_bound (s : string) :
  ∀ acc v, 0 <= acc → Go.parseDigits 8 acc s = Some v →
    0 <= v < (acc + 1) * 8 ^ Z.of_nat (String.length s).
Proof.
  induction s as [|c t IH]; intros acc v Hacc; simpl String.length.
  - simpl. intros Heq. injection Heq as <-. simpl. lia.
  - simpl Go.parseDigits. rewrite octal_digit.
    destruct (isOctal c) eqn:Hc; [|discriminate].
    intros Hp.
    assert (Hd : 0 <= Go.digitVal c <= 7).
    { unfold isOctal, Go.byteIn in Hc. unfold Go.digitVal.
      apply andb_true_iff in Hc. destruct Hc as [H1 H2].
      apply N.leb_le in H1, H2. lia. }
    apply IH in Hp; [|lia].
    rewrite Nat2Z.inj_succ, Z.pow_succ_r by lia.
    nia.
Qed.

(** [Perm.Parse] accepts octal digits only: an input it parses without
    error has no other byte, and every input of one to five octal digits is
    parsed without error. *)
Theorem Perm_Parse_octal (input : string) :
  (snd (Perm_Parse input) = None → allOctal input = true) ∧
  (allOctal input = true → (String.length input <= 5)%nat →
   snd (Perm_Parse input) = None).
Proof.
  unfold Perm_Parse. destruct input as [|c t]; [split; reflexivity|].
  change (String.eqb (String c t) "") with false. cbv iota.
  unfold Go.ParseUint.
  pose proof (parseDigits_octal (String c t) 0) as Hoct.
  destruct (Go.parseDigits 8 0 (String c t)) as [v|] eqn:Hp.
  - simpl in Hoct. split; [intros _; by symmetry|].
    intros _ Hlen.
    apply parseDigits_octal_bound in Hp; [|lia].
    assert (Hpow : 8 ^ Z.of_nat (String.length (String c t)) <= 8 ^ 5)
      by (apply Z.pow_le_mono_r; lia).
    replace (v <? 2 ^ 16) with true; [reflexivity|].
    symmetry. apply Z.ltb_lt. change (2 ^ 16) with 65536.
    change (8 ^ 5) with 32768 in Hpow. lia.
  - simpl in Hoct. split; [simpl; discriminate|]. intros H. congruence.
Qed.

Lemma Perm_Parse_octal_witness :
  snd (Perm_Parse "0755") = None ∧ allOctal "0755" = true.
Proof.
  split.
  - apply (Perm_Parse_octal "0755"); [reflexivity | simpl; lia].
  - apply (Perm_Parse_octal "0755"). reflexivity.
Defined.

(** ** [util.go]: owners as text *)

Lemma digitChar_digit (d : Z) :
  0 <= d <= 9 →
  Go.isDigit (Go.digitChar d) = true ∧ Go.digitVal (Go.digitChar d) = d.
Proof.
  intros Hd. unfold Go.isDigit, Go.byteIn, Go.digitVal, Go.digitChar.
  rewrite N_ascii_embedding by lia. split; [|lia].
  apply andb_true_iff. split; apply N.leb_le; lia.
Qed.

Lemma parseDigits_digitChar (d acc : Z) (rest : string) :
  0 <= d <= 9 →
  Go.parseDigits 10 acc (String (Go.digitChar d) rest)
  = Go.parseDigits 10 (acc * 10 + d) rest.
Proof.
  intros Hd. destruct (digitChar_digit d Hd) as [H1 H2]. simpl.
  rewrite H1, H2. replace (d <? 10) with true by (symmetry; apply Z.ltb_lt; lia).
  reflexivity.
Qed.

(** Reading back the decimal digits that [formatDigits] wrote. *)
Lemma parseDigits_formatDigits (fuel : nat) :
  ∀ n rest, 0 <= n < 10 * 2 ^ Z.of_nat fuel →
    Go.parseDigits 10 0 (Go.formatDigits fuel n rest) = Go.parseDigits 10 n rest.
Proof.
  induction fuel as [|fuel IH]; intros n rest Hn.
  - simpl Go.formatDigits. change (2 ^ Z.of_nat 0) with 1 in Hn.
    rewrite Z.mod_small by lia. rewrite parseDigits_digitChar by lia.
    f_equal.
  - simpl Go.formatDigits. destruct (Z.ltb_spec n 10) as [Hlt|Hge].
    + rewrite Z.mod_small by lia. rewrite parseDigits_digitChar by lia.
      f_equal.
    + rewrite Nat2Z.inj_succ, Z.pow_succ_r in Hn by lia.
      rewrite IH.
      * rewrite parseDigits_digitChar
          by (pose proof (Z.mod_pos_bound n 10); lia).
        f_equal. pose proof (Z.div_mod n 10). lia.
      * split; [apply Z.div_pos; lia|].
        apply Z.div_lt_upper_bound; lia.
Qed.

Lemma formatDigits_head (fuel : nat) :
  ∀ n rest, 0 <= n →
    ∃ d t, 0 <= d <= 9 ∧ Go.formatDigits fuel n rest = String (Go.digitChar d) t.
Proof.
  induction fuel as [|fuel IH]; intros n rest Hn; simpl Go.formatDigits.
  - exists (n mod 10), rest. split; [|reflexivity].
    pose proof (Z.mod_pos_bound n 10). lia.
  - destruct (n <? 10).
    + exists (n mod 10), rest. split; [|reflexivity].
      pose proof (Z.mod_pos_bound n 10). lia.
    + apply IH. apply Z.div_pos; lia.
Qed.

Lemma ParseUint_FormatUint (n : Z) :
  0 <= n < 2 ^ 64 → Go.ParseUint (Go.FormatUint n) 10 64 = Some n.
Proof.
  intros Hn. unfold Go.ParseUint, Go.FormatUint.
  destruct (formatDigits_head (Z.to_nat (Z.log2 n)) n "" ltac:(lia))
    as (d & t & _ & Heq).
  rewrite parseDigits_formatDigits.
  - rewrite Heq. simpl.
    replace (n <? 2 ^ 64) with true by (symmetry; apply Z.ltb_lt; lia).
    reflexivity.
  - split; [lia|]. rewrite Z2Nat.id by apply Z.log2_nonneg.
    destruct (Z.eq_dec n 0) as [->|Hne]; [simpl; lia|].
    pose proof (Z.log2_spec n ltac:(lia)) as Hs.
    rewrite Z.pow_succ_r in Hs by apply Z.log2_nonneg. lia.
Qed.

(** [strconv.ParseInt] reads back what [strconv.FormatInt] wrote, on all of
    [int64]. *)
Lemma ParseInt_FormatInt (n : Z) :
  - 2 ^ 63 <= n < 2 ^ 63 → Go.ParseInt (Go.FormatInt n) = Some n.
Proof.
  intros Hn. unfold Go.FormatInt.
  assert (H64 : 2 ^ 64 = 2 * 2 ^ 63) by reflexivity.
  destruct (Z.ltb_spec n 0) as [Hneg|Hpos].
  - unfold Go.ParseInt. change (Ascii.eqb "-" "-") with true. cbv zeta.
    simpl orb. cbv iota.
    rewrite ParseUint_FormatUint by lia.
    replace (- n <=? 2 ^ 63) with true by (symmetry; apply Z.leb_le; lia).
    f_equal. lia.
  - destruct (formatDigits_head (Z.to_nat (Z.log2 n)) n "" Hpos)
      as (d & t & Hd & Heq).
    pose proof (ParseUint_FormatUint n ltac:(lia)) as Hu.
    unfold Go.FormatUint in Hu |- *. rewrite Heq in Hu |- *.
    unfold Go.ParseInt.
    assert (Hm : Ascii.eqb (Go.digitChar d) "-" = false).
    { apply Ascii.eqb_neq. intros Hc.
      apply (f_equal N_of_ascii) in Hc. unfold Go.digitChar in Hc.
      rewrite N_ascii_embedding in Hc by lia.
      change (N_of_ascii "-") with 45%N in Hc. lia. }
    assert (Hp : Ascii.eqb (Go.digitChar d) "+" = false).
    { apply Ascii.eqb_neq. intros Hc.
      apply (f_equal N_of_ascii) in Hc. unfold Go.digitChar in Hc.
      rewrite N_ascii_embedding in Hc by lia.
      change (N_of_ascii "+") with 43%N in Hc. lia. }
    rewrite Hm, Hp. simpl orb. cbv iota zeta. rewrite Hu.
    replace (n <? 2 ^ 63) with true by (symmetry; apply Z.ltb_lt; lia).
    reflexivity.
Qed.

Lemma parseDigits_nonneg (base : Z) (s : string) :
  ∀ acc v, 0 <= base → 0 <= acc → Go.parseDigits base acc s = Some v → 0 <= v.
Proof.
  induction s as [|c t IH]; intros acc v Hb Hacc; simpl.
  - intros Heq. injection Heq as <-. exact Hacc.
  - destruct (Go.isDigit c && (Go.digitVal c <? base)) eqn:Hc; [|discriminate].
    apply IH; [exact Hb|].
    apply andb_true_iff in Hc. destruct Hc as [Hd _].
    unfold Go.isDigit, Go.byteIn in Hd. apply andb_true_iff in Hd.
    destruct Hd as [H1 _]. apply N.leb_le in H1. unfold Go.digitVal. nia.
Qed.

(** What [strconv.ParseInt] accepts is an [int64]. *)
Lemma ParseInt_range (s : string) (v : Z) :
  Go.ParseInt s = Some v → - 2 ^ 63 <= v < 2 ^ 63.
Proof.
  unfold Go.ParseInt. destruct s as [|c t]; [discriminate|].
  cbv zeta.
  destruct (Go.ParseUint
              (if Ascii.eqb c "-" || Ascii.eqb c "+" then t else String c t)
              10 64) as [un|] eqn:Hu; [|discriminate].
  assert (Hnn : 0 <= un).
  { unfold Go.ParseUint in Hu.
    destruct (if Ascii.eqb c "-" || Ascii.eqb c "+" then t else String c t)
      as [|c' t'] eqn:Hs; [discriminate|].
    destruct (Go.parseDigits 10 0 (String c' t')) as [w|] eqn:Hp;
      [|discriminate].
    apply parseDigits_nonneg in Hp; [|lia|lia].
    destruct (w <? 2 ^ 64); [|discriminate]. injection Hu as <-. exact Hp. }
  destruct (Ascii.eqb c "-").
  - destruct (Z.leb_spec un (2 ^ 63)); [|discriminate].
    intros Heq. injection Heq as <-. lia.
  - destruct (Z.ltb_spec un (2 ^ 63)); [|discriminate].
    intros Heq. injection Heq as <-. lia.
Qed.

(** An owner given by numeric id survives the round trip through text:
    parsing the text of [ID id] gives [ID id] again, for every id that an
    [int] of 64 bits holds. *)
Theorem Owner_ID_roundtrip (id : Z) :
  - 2 ^ 63 <= id < 2 ^ 63 →
  Owner_Parse (Owner_String (ID id)) = (ID id, None).
Proof.
  intros Hid.
  change (Owner_String (ID id)) with ("#" +:+ Go.FormatInt id).
  rewrite append_cons, append_nil. unfold Owner_Parse.
  change (Ascii.eqb "#" "#") with true. cbv iota.
  rewrite ParseInt_FormatInt by exact Hid. reflexivity.
Qed.

Lemma Owner_ID_roundtrip_witness :
  Owner_Parse (Owner_String (ID (-1000))) = (ID (-1000), None).
Proof. apply (Owner_ID_roundtrip (-1000)). split; vm_compute; congruence. Defined.

(** Parsing is a retraction onto the owners it produces: whatever the
    input, the owner that [Owner.Parse] gives formats to a text that parses
    to the same owner. *)
Theorem Owner_Parse_String_Parse (input : string) :
  Owner_Parse (Owner_String (fst (Owner_Parse input)))
  = (fst (Owner_Parse input), None).
Proof.
  destruct input as [|c rest]; [reflexivity|].
  unfold Owner_Parse at 2 3.
  destruct (Ascii.eqb_spec c "#") as [->|Hc].
  - destruct (Go.ParseInt rest) as [i64|] eqn:Hp.
    + simpl fst. apply Owner_ID_roundtrip. by apply ParseInt_range in Hp.
    + simpl. rewrite Hp. reflexivity.
  - simpl. apply Ascii.eqb_neq in Hc. rewrite Hc. reflexivity.
Qed.

(** [Owner.Equal] is an equivalence relation on owners. *)
Theorem Owner_Equal_equivalence (a b c : Owner) :
  Owner_Equal a a = true ∧
  Owner_Equal a b = Owner_Equal b a ∧
  (Owner_Equal a b = true → Owner_Equal b c = true → Owner_Equal a c = true).
Proof.
  unfold Owner_Equal, Owner_IsZero.
  destruct a as [ta ia na], b as [tb ib nb], c as [tc ic nc]. simpl.
  destruct (N.eqb_spec ta OwnerByID), (N.eqb_spec ta OwnerByName),
    (N.eqb_spec tb OwnerByID), (N.eqb_spec tb OwnerByName),
    (N.eqb_spec tc OwnerByID), (N.eqb_spec tc OwnerByName);
    try (subst; discriminate); simpl;
    rewrite ?Z.eqb_refl, ?String.eqb_refl;
    (split; [reflexivity|]);
    (split;
     [ first [ reflexivity | apply Z.eqb_sym | apply String.eqb_sym ]
     | intros H1 H2; try discriminate;
       first [ reflexivity
             | apply Z.eqb_eq in H1, H2; apply Z.eqb_eq; congruence
             | apply String.eqb_eq in H1, H2; apply String.eqb_eq; congruence ] ]).
Qed.

Lemma Owner_Equal_equivalence_witness :
  Owner_Equal (ID 0) (mkOwner OwnerByID 0 "wheel") = true.
Proof.
  apply (Owner_Equal_equivalence (ID 0) (mkOwner OwnerByID 0 "root")
           (mkOwner OwnerByID 0 "wheel")); reflexivity.
Defined.

(** ** [type.go], [compress.go]: parsing the text of a constant *)

(** Parsing undoes formatting on the named constants: every valid entry
    type other than [TypeLNK], every hash algorithm and every compression
    algorithm that has a name parses, from the text its [String] method
    gives, to itself and without error. *)
Theorem Parse_String_named (unicodeLower : string → string) (ft ha ca : N) :
  Type_IsValid ft = true → ft ≠ TypeLNK →
  below ha hashNameArray = true →
  below ca compressNameArray = true →
  Type_Parse unicodeLower (Type_String ft) = (ft, None) ∧
  HashAlgorithm_Parse unicodeLower (HashAlgorithm_String ha) = (ha, None) ∧
  CompressAlgorithm_Parse unicodeLower (CompressAlgorithm_String ca) = (ca, None).
Proof.
  intros Hft Hne Hha Hca. split; [|split].
  - by apply Type_roundtrip_but_LNK.
  - by apply HashAlgorithm_roundtrip.
  - by apply CompressAlgorithm_roundtrip.
Qed.

Lemma Parse_String_named_witness :
  Type_Parse id (Type_String TypeFIFO) = (TypeFIFO, None) ∧
  HashAlgorithm_Parse id (HashAlgorithm_String HashSHA256) = (HashSHA256, None) ∧
  CompressAlgorithm_Parse id (CompressAlgorithm_String CompressXZ)
    = (CompressXZ, None).
Proof.
  apply (Parse_String_named id TypeFIFO HashSHA256 CompressXZ);
    [reflexivity | discriminate | reflexivity | reflexivity].
Defined.

(** ** [util.go]: what a validated entry looks like *)

Lemma firstError_None (checks : list (bool * Error)) :
  firstError checks = None → Forall (λ check, fst check = false) checks.
Proof.
  induction checks as [|[failed e] rest IH]; simpl; [constructor|].
  destruct failed; [discriminate|]. intros H. constructor; [reflexivity|auto].
Qed.

Lemma HasSuffix_append (a b : string) : Go.HasSuffix (a +:+ b) b = true.
Proof.
  unfold Go.HasSuffix. rewrite length_append.
  apply andb_true_iff. split; [apply Nat.leb_le; lia|].
  replace (String.length a + String.length b - String.length b)%nat
    with (String.length a + 0)%nat by lia.
  rewrite substring_skip.
  rewrite <- (append_empty_r b) at 2. rewrite substring_prefix.
  apply String.eqb_refl.
Qed.

Lemma fixupType_valid (file : File) :
  Type_IsValid (f_Type file) = true →
  Type_IsValid (f_Type (fixupType file)) = true.
Proof.
  unfold fixupType. destruct (f_Type file =? TypeAUTO)%N; [|auto].
  intros _. simpl. by destruct (Go.HasSuffix (f_Name file) "/").
Qed.

Lemma fixupType_fields (file : File) :
  f_IsConf (fixupType file) = f_IsConf file ∧
  f_Link (fixupType file) = f_Link file ∧
  f_Major (fixupType file) = f_Major file ∧
  f_Minor (fixupType file) = f_Minor file.
Proof.
  unfold fixupType. destruct (f_Type file =? TypeAUTO)%N; repeat split.
Qed.

(** What the checks of content, link and device numbers leave when none of
    them fails. *)
Lemma checks_passed (named : File) :
  firstError (contentChecks named ++ linkChecks named ++ deviceChecks named)
    = None →
  (if (f_Type named =? TypeREG)%N
   then isSome (f_Path named) && isSome (f_Text named) = false ∧
        isSome (f_Path named) && isSome (f_Bytes named) = false ∧
        isSome (f_Text named) && isSome (f_Bytes named) = false
   else f_IsConf named = false ∧ f_Path named = None ∧
        f_Text named = None ∧ f_Bytes named = None) ∧
  (if (f_Type named =? TypeLNK)%N
   then ∃ link, f_Link named = Some link ∧ Go.Clean link = link
   else f_Link named = None) ∧
  (if (f_Type named =? TypeCHR)%N || (f_Type named =? TypeBLK)%N
   then isSome (f_Major named) = true ∧ isSome (f_Minor named) = true
   else f_Major named = None ∧ f_Minor named = None).
Proof.
  intros Hfirst. apply firstError_None in Hfirst.
  apply Forall_app in Hfirst. destruct Hfirst as [Hc Hrest].
  apply Forall_app in Hrest. destruct Hrest as [Hl Hd].
  split; [|split].
  - unfold contentChecks in Hc. destruct (f_Type named =? TypeREG)%N.
    + inversion Hc as [|? ? _ Hc1]; subst. inversion Hc1 as [|? ? _ Hc2]; subst.
      inversion Hc2 as [|? ? H3 Hc3]; subst.
      inversion Hc3 as [|? ? H4 Hc4]; subst.
      inversion Hc4 as [|? ? H5 _]; subst. simpl in H3, H4, H5. auto.
    + inversion Hc as [|? ? H1 Hc1]; subst. inversion Hc1 as [|? ? H2 Hc2]; subst.
      inversion Hc2 as [|? ? H3 Hc3]; subst.
      inversion Hc3 as [|? ? H4 _]; subst. simpl in H1, H2, H3, H4.
      destruct (f_Path named), (f_Text named), (f_Bytes named);
        try discriminate. auto.
  - unfold linkChecks in Hl. destruct (f_Type named =? TypeLNK)%N.
    + inversion Hl as [|? ? H1 Hl1]; subst. inversion Hl1 as [|? ? H2 _]; subst.
      simpl in H1, H2. destruct (f_Link named) as [link|]; [|discriminate].
      exists link. split; [reflexivity|]. simpl in H2.
      apply negb_false_iff in H2. apply String.eqb_eq in H2. by symmetry.
    + inversion Hl as [|? ? H1 _]; subst. simpl in H1.
      destruct (f_Link named); [discriminate|reflexivity].
  - unfold deviceChecks in Hd.
    destruct ((f_Type named =? TypeCHR)%N || (f_Type named =? TypeBLK)%N).
    + inversion Hd as [|? ? H1 Hd1]; subst. inversion Hd1 as [|? ? H2 _]; subst.
      simpl in H1, H2. split; by apply negb_false_iff.
    + inversion Hd as [|? ? H1 Hd1]; subst. inversion Hd1 as [|? ? H2 _]; subst.
      simpl in H1, H2.
      destruct (f_Major named), (f_Minor named); try discriminate. auto.
Qed.

(** The path [validateImpl] takes when it returns no error: the input has
    a name that is a valid path and a declared type, the output has the
    fixed-up type and name, and none of the later checks fails on it. *)
Lemma validateImpl_path (file file' : File) :
  validateImpl file = (file', None) →
  f_Name file ≠ "" ∧ isValidUnixPath (f_Name file) = true ∧
  Type_IsValid (f_Type file') = true ∧ f_Type file' ≠ TypeAUTO ∧
  (if (f_Type file' =? TypeDIR)%N
   then file' = File_setName (fixupType file)
                  (Go.TrimRight (f_Name file) "/" +:+ "/")
   else file' = fixupType file ∧
        Go.HasSuffix (f_Name file') "/" = false ∧ f_Name file' ≠ ".") ∧
  firstError (contentChecks file' ++ linkChecks file' ++ deviceChecks file')
    = None.
Proof.
  unfold validateImpl.
  destruct (String.eqb_spec (f_Name file) ""); [discriminate|].
  destruct (isValidUnixPath (f_Name file)) eqn:Hpath; [|discriminate].
  destruct (Type_IsValid (f_Type file)) eqn:Hvalid; [|discriminate].
  simpl negb. cbv iota zeta.
  pose proof (fixupType_valid file Hvalid) as Hv.
  destruct (fixupType_spec file) as (Hna & _ & _ & _ & _ & Hname).
  destruct (N.eqb_spec (f_Type (fixupType file)) TypeDIR) as [Hd|Hnd].
  - intros Heq. injection Heq as <- Hfirst.
    change (f_Type (File_setName (fixupType file)
                      (Go.TrimRight (f_Name (fixupType file)) "/" +:+ "/")))
      with (f_Type (fixupType file)).
    rewrite Hd. simpl N.eqb. cbv iota. rewrite Hname in *.
    repeat split; try assumption; congruence.
  - destruct (String.eqb_spec (f_Name (fixupType file)) ".") as [|Hdot];
      [discriminate|].
    destruct (Go.HasSuffix (f_Name (fixupType file)) "/") eqn:Hslash;
      [discriminate|].
    simpl orb. cbv iota.
    intros Heq. injection Heq as <- Hfirst.
    destruct (N.eqb_spec (f_Type (fixupType file)) TypeDIR); [contradiction|].
    repeat split; assumption.
Qed.

(** The shape of an accepted entry, field by field. *)
Lemma validateImpl_wellformed (file file' : File) :
  validateImpl file = (file', None) →
  Type_IsValid (f_Type file') = true ∧ f_Type file' ≠ TypeAUTO ∧
  (if (f_Type file' =? TypeDIR)%N
   then Go.HasSuffix (f_Name file') "/" = true
   else Go.HasSuffix (f_Name file') "/" = false ∧ f_Name file' ≠ ".") ∧
  (if (f_Type file' =? TypeREG)%N
   then isSome (f_Path file') && isSome (f_Text file') = false ∧
        isSome (f_Path file') && isSome (f_Bytes file') = false ∧
        isSome (f_Text file') && isSome (f_Bytes file') = false
   else f_IsConf file' = false ∧ f_Path file' = None ∧
        f_Text file' = None ∧ f_Bytes file' = None) ∧
  (if (f_Type file' =? TypeLNK)%N
   then ∃ link, f_Link file' = Some link ∧ Go.Clean link = link
   else f_Link file' = None) ∧
  (if (f_Type file' =? TypeCHR)%N || (f_Type file' =? TypeBLK)%N
   then isSome (f_Major file') = true ∧ isSome (f_Minor file') = true
   else f_Major file' = None ∧ f_Minor file' = None).
Proof.
  intros H. apply validateImpl_path in H.
  destruct H as (_ & _ & Hv & Hna & Hname & Hfirst).
  split; [exact Hv|]. split; [exact Hna|].
  split; [|by apply checks_passed].
  destruct (f_Type file' =? TypeDIR)%N.
  - rewrite Hname. simpl. apply HasSuffix_append.
  - tauto.
Qed.

(** An entry that [validateImpl] accepts is well formed.  Its type is one
    of the six concrete types.  A directory has a name that ends in a
    slash, any other entry a name that does not and is not the dot.  Only a
    regular file may be a configuration file or have a content source, and
    it has at most one of path, text and bytes.  A symbolic link, and
    nothing else, has a target, which is a clean path.  A character or
    block device, and nothing else, has a major and a minor number. *)
Theorem validateImpl_accepts (file file' : File) :
  validateImpl file = (file', None) →
  Type_IsValid (f_Type file') = true ∧ f_Type file' ≠ TypeAUTO ∧
  (if (f_Type file' =? TypeDIR)%N
   then Go.HasSuffix (f_Name file') "/" = true
   else Go.HasSuffix (f_Name file') "/" = false ∧ f_Name file' ≠ ".") ∧
  (if (f_Type file' =? TypeREG)%N
   then isSome (f_Path file') && isSome (f_Text file') = false ∧
        isSome (f_Path file') && isSome (f_Bytes file') = false ∧
        isSome (f_Text file') && isSome (f_Bytes file') = false
   else f_IsConf file' = false ∧ f_Path file' = None ∧
        f_Text file' = None ∧ f_Bytes file' = None) ∧
  (if (f_Type file' =? TypeLNK)%N
   then ∃ link, f_Link file' = Some link ∧ Go.Clean link = link
   else f_Link file' = None) ∧
  (if (f_Type file' =? TypeCHR)%N || (f_Type file' =? TypeBLK)%N
   then isSome (f_Major file') = true ∧ isSome (f_Minor file') = true
   else f_Major file' = None ∧ f_Minor file' = None).
Proof.
  intros H. apply validateImpl_path in H.
  destruct H as (_ & _ & Hv & Hna & Hname & Hfirst).
  apply checks_passed in Hfirst. destruct Hfirst as (Hc & Hl & Hd).
  split; [exact Hv|]. split; [exact Hna|].
  split; [|split; [exact Hc|split; [exact Hl|exact Hd]]].
  destruct (f_Type file' =? TypeDIR)%N.
  - rewrite Hname. simpl. apply HasSuffix_append.
  - tauto.
Qed.

Lemma validateImpl_accepts_witness :
  Go.HasSuffix
    (f_Name (File_setName (Ref.entry "etc" TypeDIR None) "etc/")) "/" = true.
Proof.
  pose proof (validateImpl_accepts (Ref.entry "etc" TypeDIR None)
                (File_setName (Ref.entry "etc" TypeDIR None) "etc/")
                ltac:(vm_compute; reflexivity)) as (_ & _ & H & _).
  exact H.
Defined.

(** ** From a resolved entry to its tar header *)

Lemma Type_cases (ft : N) :
  Type_IsValid ft = true → ft ≠ TypeAUTO →
  ft = TypeDIR ∨ ft = TypeREG ∨ ft = TypeLNK ∨ ft = TypeFIFO ∨
  ft = TypeCHR ∨ ft = TypeBLK.
Proof.
  intros Hv Hne. apply below_cases in Hv. simpl in Hv.
  unfold TypeAUTO, TypeDIR, TypeREG, TypeLNK, TypeFIFO, TypeCHR, TypeBLK in *.
  lia.
Qed.

Section HeaderFacts.

Variable X : Extern.

(** No entry that [File.Resolve] accepted makes [AsTarHeader] panic: the
    pointers it dereferences were checked by the validation.  The header is
    in PAX format, carries the entry's name and its resolved size, which is
    not negative, and announces a body exactly for a regular file. *)
Theorem AsTarHeader_after_Resolve (fileSystem : FS) (file file' : File) :
  File_Resolve fileSystem file = (file', None) →
  ∃ hdr, AsTarHeader X file' = Ok hdr ∧
         h_Format hdr = tar_FormatPAX ∧
         h_Name hdr = f_Name file' ∧
         h_Size hdr = f_size file' ∧ 0 <= h_Size hdr ∧
         h_ModTime hdr = f_MTime file' ∧
         tar_headerOnly (h_Typeflag hdr) = negb (f_Type file' =? TypeREG)%N ∧
         (h_Typeflag hdr = tar_TypeReg ↔ f_Type file' = TypeREG).
Proof.
  intros Hres. pose proof Hres as Hok. apply File_Resolve_ok in Hok.
  destruct Hok as (Hresolved & _ & _ & Hsize & _).
  assert (Hshape : ∃ v, validateImpl file = (v, None) ∧
                        f_Type file' = f_Type v ∧ f_Link file' = f_Link v ∧
                        f_Major file' = f_Major v ∧ f_Minor file' = f_Minor v).
  { unfold File_Resolve in Hres.
    destruct (validateImpl file) as [v [e|]] eqn:Hv; [discriminate|].
    exists v. split; [reflexivity|].
    destruct (f_Type v =? TypeREG)%N.
    - destruct (f_Bytes v); [|destruct (f_Text v);
        [|destruct (f_Path v) as [path|];
          [destruct (fileSystem path); [|discriminate]
          |destruct (fileSystem (f_Name v)); [|discriminate]]]];
        injection Hres as <-; repeat split.
    - injection Hres as <-; repeat split. }
  destruct Hshape as (v & Hv & Ht & Hl & Hma & Hmi).
  apply validateImpl_wellformed in Hv.
  destruct Hv as (Hvalid & Hna & _ & _ & Hlink & Hdev).
  rewrite <- Ht in Hvalid, Hna, Hlink, Hdev.
  rewrite <- Hl in Hlink. rewrite <- Hma, <- Hmi in Hdev.
  unfold AsTarHeader. rewrite Hresolved. simpl negb. cbv iota.
  destruct (Type_cases _ Hvalid Hna) as [E|[E|[E|[E|[E|E]]]]];
    rewrite E in *; simpl in Hlink, Hdev |- *.
  - eexists. split; [reflexivity|]. simpl. repeat split; try assumption;
      discriminate.
  - eexists. split; [reflexivity|]. simpl. repeat split; assumption.
  - destruct Hlink as (link & -> & _). simpl.
    eexists. split; [reflexivity|]. simpl. repeat split; try assumption;
      discriminate.
  - eexists. split; [reflexivity|]. simpl. repeat split; try assumption;
      discriminate.
  - destruct Hdev as [H1 H2].
    destruct (f_Major file') as [major|]; [|discriminate].
    destruct (f_Minor file') as [minor|]; [|discriminate]. simpl.
    eexists. split; [reflexivity|]. simpl. repeat split; try assumption;
      discriminate.
  - destruct Hdev as [H1 H2].
    destruct (f_Major file') as [major|]; [|discriminate].
    destruct (f_Minor file') as [minor|]; [|discriminate]. simpl.
    eexists. split; [reflexivity|]. simpl. repeat split; try assumption;
      discriminate.
Qed.

(** ** Compression the builder cannot write *)

(** A compression algorithm other than none, gzip, xz and zstd (and than
    auto, which becomes gzip) stops the build with a panic once the
    manifest is resolved: [BuildDataTarball] panics and leaves the manifest
    as it was, [BuildControlTarball] panics, and [Build] never returns
    success.  [CompressBZIP2] is such an algorithm. *)
Theorem unsupported_compression_panics (builder : Builder) (manifest : Manifest) :
  b_Compression builder ≠ CompressAuto →
  b_Compression builder ≠ CompressNone →
  b_Compression builder ≠ CompressGZIP →
  b_Compression builder ≠ CompressXZ →
  b_Compression builder ≠ CompressZSTD →
  (m_isResolved manifest = true →
   is_Panic (snd (BuildDataTarball X builder manifest)) = true ∧
   fst (BuildDataTarball X builder manifest) = manifest ∧
   (m_isHashed manifest = true →
    is_Panic (BuildControlTarball X builder manifest) = true)) ∧
  is_Ok (snd (Build X builder manifest)) = false.
Proof.
  intros Ha Hn Hg Hx Hz.
  assert (Hnew : ∀ b, b_Compression b = b_Compression builder →
            ∃ e, CompressAlgorithm_NewWriter X (b_Compression (fillDefaults b))
                 = Panic e).
  { intros b Hb. unfold fillDefaults. simpl. rewrite Hb.
    unfold CompressAlgorithm_NewWriter.
    destruct (N.eqb_spec (b_Compression builder) CompressAuto); [contradiction|].
    destruct (N.eqb_spec (b_Compression builder) CompressNone); [contradiction|].
    destruct (N.eqb_spec (b_Compression builder) CompressGZIP); [contradiction|].
    destruct (N.eqb_spec (b_Compression builder) CompressXZ); [contradiction|].
    destruct (N.eqb_spec (b_Compression builder) CompressZSTD); [contradiction|].
    simpl. eexists. reflexivity. }
  assert (Hdata : ∀ b m, b_Compression b = b_Compression builder →
            m_isResolved m = true →
            ∃ e, BuildDataTarball X b m = (m, Panic e)).
  { intros b m Hb Hm. unfold BuildDataTarball. rewrite Hm. simpl negb.
    cbv iota zeta. destruct (Hnew b Hb) as [e ->]. by exists e. }
  split.
  - intros Hres. destruct (Hdata builder manifest eq_refl Hres) as [e He].
    rewrite He. split; [reflexivity|]. split; [reflexivity|].
    intros Hh. unfold BuildControlTarball. rewrite Hres, Hh. simpl negb.
    cbv iota zeta. destruct (Hnew builder eq_refl) as [e' ->]. reflexivity.
  - unfold Build. cbv zeta.
    destruct (Manifest_Resolve (b_Root (fillDefaults builder)) manifest)
      as [m [[]|e|e]] eqn:Hr; try reflexivity.
    apply Manifest_Resolve_ok in Hr. destruct Hr as (_ & _ & _ & Hm & _).
    assert (Hb : b_Compression (fillDefaults builder) = b_Compression builder).
    { unfold fillDefaults. simpl.
      destruct (N.eqb_spec (b_Compression builder) CompressAuto);
        [contradiction|reflexivity]. }
    destruct (Hdata (fillDefaults builder) m Hb Hm) as [e ->]. reflexivity.
Qed.

(** ** The defaults of the builder *)

(** Filling in the defaults beforehand changes nothing: a builder and the
    same builder with its zero time, compression and hash list set to the
    defaults build the same data tarball, control tarball and package. *)
Theorem fillDefaults_transparent (builder : Builder) (manifest : Manifest) :
  BuildDataTarball X (fillDefaults builder) manifest
    = BuildDataTarball X builder manifest ∧
  BuildControlTarball X (fillDefaults builder) manifest
    = BuildControlTarball X builder manifest ∧
  Build X (fillDefaults builder) manifest = Build X builder manifest.
Proof.
  unfold BuildDataTarball, BuildControlTarball, Build.
  rewrite !fillDefaults_idem. repeat split.
Qed.

End HeaderFacts.

Lemma AsTarHeader_after_Resolve_witness :
  ∃ hdr, AsTarHeader Ref.X devNullResolved = Ok hdr ∧
         h_Format hdr = tar_FormatPAX ∧ h_Name hdr = "dev/null".
Proof.
  destruct (AsTarHeader_after_Resolve Ref.X Ref.emptyFS devNull devNullResolved
              ltac:(vm_compute; reflexivity)) as (hdr & H1 & H2 & H3 & _).
  exists hdr. split; [exact H1|]. split; [exact H2 | exact H3].
Defined.

Lemma unsupported_compression_panics_witness :
  is_Ok (snd (Build Ref.X (mkBuilder Ref.emptyFS Time_zero CompressBZIP2 None)
                fooManifest)) = false.
Proof.
  apply (unsupported_compression_panics Ref.X
           (mkBuilder Ref.emptyFS Time_zero CompressBZIP2 None) fooManifest);
    discriminate.
Defined.

(** ** [manifest.go]: rounding up to a block *)

Lemma pow2_lt_64 (shift : Z) : 0 <= shift < 64 → 0 < 2 ^ shift < 2 ^ 64.
Proof.
  intros H. split; [apply Z.pow_pos_nonneg; lia|].
  apply Z.pow_lt_mono_r; lia.
Qed.

Lemma roundUpPow2_bounds (size shift : Z) :
  0 <= shift →
  size <= roundUpPow2 size shift < size + 2 ^ shift ∧
  roundUpPow2 size shift mod 2 ^ shift = 0.
Proof.
  intros Hs. unfold roundUpPow2.
  assert (Hp : 0 < 2 ^ shift) by (apply Z.pow_pos_nonneg; lia).
  pose proof (Z.div_mod (size + (2 ^ shift - 1)) (2 ^ shift) ltac:(lia)).
  pose proof (Z.mod_pos_bound (size + (2 ^ shift - 1)) (2 ^ shift) Hp).
  split; [lia|]. apply Z.mod_mul. lia.
Qed.

(** [pad] without wrap-around. *)
Lemma pad_roundUpPow2 (size shift : Z) :
  0 <= shift < 64 → 0 <= size → size + (2 ^ shift - 1) < 2 ^ 64 →
  pad size shift = roundUpPow2 size shift.
Proof.
  intros Hs H0 Hlt. pose proof (pow2_lt_64 shift Hs) as Hp.
  unfold pad, wrapU64, roundUpPow2.
  rewrite Z.shiftl_1_l.
  rewrite (Z.mod_small (2 ^ shift)) by lia.
  rewrite (Z.mod_small (2 ^ shift - 1)) by lia.
  rewrite (Z.mod_small (size + (2 ^ shift - 1))) by lia.
  replace (2 ^ shift - 1) with (Z.ones shift) at 2
    by (rewrite Z.ones_equiv; lia).
  rewrite Z.ldiff_ones_r by lia.
  rewrite Z.shiftr_div_pow2, Z.shiftl_mul_pow2 by lia.
  reflexivity.
Qed.

(** [pad size shift] is the least multiple of [2 ^ shift] that is not below
    [size], as long as that multiple fits in a [uint64]; padding a padded
    size changes nothing. *)
Theorem pad_rounds_up (size shift : Z) :
  0 <= shift < 64 → 0 <= size → size + (2 ^ shift - 1) < 2 ^ 64 →
  pad size shift mod 2 ^ shift = 0 ∧
  size <= pad size shift < size + 2 ^ shift ∧
  pad (pad size shift) shift = pad size shift.
Proof.
  intros Hs H0 Hlt. pose proof (pow2_lt_64 shift Hs) as Hp.
  rewrite (pad_roundUpPow2 size shift Hs H0 Hlt).
  destruct (roundUpPow2_bounds size shift ltac:(lia)) as [Hb Hm].
  split; [exact Hm|]. split; [exact Hb|].
  set (r := roundUpPow2 size shift) in *.
  assert (Hdiv : r = r / 2 ^ shift * 2 ^ shift).
  { pose proof (Z.div_mod r (2 ^ shift) ltac:(lia)). lia. }
  assert (Hrlt : r + (2 ^ shift - 1) < 2 ^ 64).
  { assert (Hle : r / 2 ^ shift * 2 ^ shift <= (2 ^ 64 / 2 ^ shift - 1) * 2 ^ shift).
    { apply Z.mul_le_mono_nonneg_r; [lia|].
      assert (r / 2 ^ shift < 2 ^ 64 / 2 ^ shift); [|lia].
      apply Z.div_lt_upper_bound; [lia|].
      replace (2 ^ shift * (2 ^ 64 / 2 ^ shift)) with (2 ^ 64).
      - lia.
      - replace (2 ^ 64) with (2 ^ (64 - shift) * 2 ^ shift) at 2
          by (rewrite <- Z.pow_add_r by lia; f_equal; lia).
        rewrite Z.div_mul by lia.
        rewrite <- Z.pow_add_r by lia. f_equal. lia. }
    assert (H64 : 2 ^ 64 / 2 ^ shift * 2 ^ shift = 2 ^ 64).
    { replace (2 ^ 64) with (2 ^ (64 - shift) * 2 ^ shift) at 1
        by (rewrite <- Z.pow_add_r by lia; f_equal; lia).
      rewrite Z.div_mul by lia.
      rewrite <- Z.pow_add_r by lia. f_equal. lia. }
    lia. }
  rewrite pad_roundUpPow2 by lia.
  unfold roundUpPow2 at 1.
  rewrite Hdiv at 1.
  replace (r / 2 ^ shift * 2 ^ shift + (2 ^ shift - 1))
    with ((2 ^ shift - 1) + r / 2 ^ shift * 2 ^ shift) by lia.
  rewrite Z.div_add by lia.
  rewrite (Z.div_small (2 ^ shift - 1)) by lia. lia.
Qed.

Lemma pad_rounds_up_witness :
  pad 4097 12 mod 2 ^ 12 = 0 ∧ 4097 <= pad 4097 12 < 4097 + 2 ^ 12.
Proof.
  pose proof (pad_rounds_up 4097 12 ltac:(lia) ltac:(lia)
                ltac:(vm_compute; reflexivity)) as (H1 & H2 & _).
  split; [exact H1 | exact H2].
Defined.

Lemma toInt64_neg (z : Z) : - 2 ^ 63 <= z < 0 → toInt64 z = z.
Proof.
  intros Hz. unfold toInt64, wrapU64.
  assert (H64 : 2 ^ 64 = 2 * 2 ^ 63) by reflexivity.
  replace (z mod 2 ^ 64) with (z + 2 ^ 64).
  - destruct (Z.ltb_spec (z + 2 ^ 64) (2 ^ 63)); lia.
  - symmetry. rewrite <- (Z.mod_add z 1 (2 ^ 64)) by lia.
    rewrite Z.mul_1_l. apply Z.mod_small. lia.
Qed.

(** [padSigned] rounds the magnitude up to a multiple of [2 ^ shift] and
    keeps the sign, so that it is an odd function; when the rounded
    magnitude does not fit in an [int64] it panics. *)
Theorem padSigned_rounds_magnitude (size shift : Z) :
  0 <= shift < 63 → - 2 ^ 63 < size < 2 ^ 63 →
  (roundUpPow2 (Z.abs size) shift < 2 ^ 63 →
   padSigned size shift = Ok (Z.sgn size * roundUpPow2 (Z.abs size) shift)) ∧
  (2 ^ 63 <= roundUpPow2 (Z.abs size) shift →
   is_Panic (padSigned size shift) = true).
Proof.
  intros Hs Hsize.
  assert (H64 : 2 ^ 64 = 2 * 2 ^ 63) by reflexivity.
  assert (Hp : 0 < 2 ^ shift <= 2 ^ 62).
  { split; [apply Z.pow_pos_nonneg; lia|]. apply Z.pow_le_mono_r; lia. }
  assert (H63 : 2 ^ 63 = 2 * 2 ^ 62) by reflexivity.
  destruct (roundUpPow2_bounds (Z.abs size) shift ltac:(lia)) as [Hb _].
  set (r := roundUpPow2 (Z.abs size) shift) in *.
  assert (Hpad : pad (wrapU64 (Z.abs size)) shift = r).
  { unfold wrapU64. rewrite Z.mod_small by lia.
    apply pad_roundUpPow2; lia. }
  assert (Habs : (if size <? 0 then toInt64 (- size) else size) = Z.abs size).
  { destruct (Z.ltb_spec size 0).
    - rewrite toInt64_small by lia. lia.
    - lia. }
  unfold padSigned. cbv zeta. rewrite Habs, Hpad.
  split.
  - intros Hr. rewrite (toInt64_small r) by lia.
    destruct (Z.ltb_spec r 0); [lia|]. f_equal.
    destruct (Z.ltb_spec size 0) as [Hneg|Hpos].
    + rewrite toInt64_neg by lia. rewrite Z.sgn_neg by lia. lia.
    + destruct (Z.eq_dec size 0) as [->|Hne].
      * fold r. simpl. assert (r = 0); [|lia].
        subst r. unfold roundUpPow2. simpl.
        rewrite Z.div_small by lia. lia.
      * rewrite Z.sgn_pos by lia. lia.
  - intros Hr.
    assert (Ht : toInt64 r = r - 2 ^ 64).
    { unfold toInt64, wrapU64. rewrite Z.mod_small by lia.
      destruct (Z.ltb_spec r (2 ^ 63)); lia. }
    rewrite Ht. destruct (Z.ltb_spec (r - 2 ^ 64) 0); [reflexivity|lia].
Qed.

Lemma padSigned_rounds_magnitude_witness :
  padSigned (-5000) 12 = Ok (-8192).
Proof.
  apply (padSigned_rounds_magnitude (-5000) 12); [lia | split; reflexivity |].
  vm_compute. reflexivity.
Defined.

(** ** [manifest.go]: when the cross-entry pass accepts *)

Lemma implicitDirsLoop_valid (dirs : list string) :
  ∀ (index : nat) (known : gset string),
    (∃ known', implicitDirsLoop index dirs known = inl known') ↔
    Forall (λ dir, isValidUnixPath dir = true) dirs.
Proof.
  induction dirs as [|d dirs IH]; intros index known; simpl.
  - split; [constructor | eauto].
  - destruct (isValidUnixPath d) eqn:Hd; simpl.
    + rewrite IH. split; [by constructor|].
      intros H. by inversion H.
    + split; [intros [k Hk]; discriminate|].
      intros H. inversion H; congruence.
Qed.

(** What the second loop needs to reach its end: fresh names, and for each
    entry a parent directory known beforehand or declared by a directory
    entry before it. *)
Lemma filesLoop_None (files : list File) :
  ∀ (index : nat) (seen : gmap string nat) (known : gset string),
    filesLoop index files seen known = None ↔
    NoDup (map f_Name files) ∧
    (∀ file, file ∈ files → seen !! f_Name file = None) ∧
    (∀ j fj, files !! j = Some fj →
       parentDir (f_Name fj) ∈ known ∨
       ∃ i fi, (i < j)%nat ∧ files !! i = Some fi ∧ f_Type fi = TypeDIR ∧
               Go.TrimRight (f_Name fi) "/" = parentDir (f_Name fj)).
Proof.
  induction files as [|head rest IH]; intros index seen known.
  - simpl. split; [|reflexivity]. intros _.
    split; [constructor|]. split.
    + intros file Hin. by apply elem_of_nil in Hin.
    + intros j fj Hj. discriminate.
  - simpl filesLoop. fold (parentDir (f_Name head)).
    destruct (seen !! f_Name head) as [old|] eqn:Hhead.
    { split; [discriminate|]. intros (_ & Hfresh & _).
      rewrite Hfresh in Hhead by left. discriminate. }
    destruct (bool_decide (parentDir (f_Name head) ∈ known)) eqn:Hdec; simpl negb;
      cbv iota.
    2:{ split; [discriminate|]. intros (_ & _ & Hpar).
        apply bool_decide_eq_false in Hdec.
        destruct (Hpar 0%nat head eq_refl) as [Hin|(i & fi & Hi & _)];
          [contradiction|lia]. }
    apply bool_decide_eq_true in Hdec.
    rewrite IH. clear IH. simpl map. split.
    + intros (Hnd & Hfresh & Hpar). split; [|split].
      * constructor; [|exact Hnd].
        intros Hin.
        change (map f_Name rest) with (f_Name <$> rest) in Hin.
        apply list_elem_of_fmap in Hin.
        destruct Hin as (f & Hname & Hf).
        specialize (Hfresh f Hf). rewrite <- Hname in Hfresh.
        rewrite lookup_insert_eq in Hfresh. discriminate.
      * intros file Hin. apply elem_of_cons in Hin.
        destruct Hin as [->|Hin]; [exact Hhead|].
        specialize (Hfresh file Hin).
        destruct (decide (f_Name head = f_Name file)) as [Heq|Hne].
        -- rewrite Heq, lookup_insert_eq in Hfresh. discriminate.
        -- by rewrite lookup_insert_ne in Hfresh.
      * intros [|j] fj Hj; simpl in Hj.
        -- injection Hj as <-. by left.
        -- destruct (Hpar j fj Hj) as [Hin|(i & fi & Hi & Hfi & Hty & Heq)].
           ++ destruct (N.eqb_spec (f_Type head) TypeDIR) as [Hd|_];
                [|by left].
              apply elem_of_union in Hin. destruct Hin as [Hin|Hin]; [|by left].
              apply elem_of_singleton in Hin. right.
              exists 0%nat, head. split; [lia|]. split; [reflexivity|].
              split; [exact Hd|]. by symmetry.
           ++ right. exists (S i), fi. split; [lia|]. by split.
    + intros (Hnd & Hfresh & Hpar). inversion Hnd as [|x l Hnotin Hnd']; subst.
      split; [exact Hnd'|]. split.
      * intros file Hin.
        assert (Hne : f_Name head ≠ f_Name file).
        { intros Heq. apply Hnotin. rewrite Heq.
          change (map f_Name rest) with (f_Name <$> rest).
          apply list_elem_of_fmap. by exists file. }
        rewrite lookup_insert_ne by exact Hne.
        apply Hfresh. by right.
      * intros j fj Hj.
        destruct (Hpar (S j) fj Hj) as [Hin|(i & fi & Hi & Hfi & Hty & Heq)].
        -- left. destruct (f_Type head =? TypeDIR)%N; [|exact Hin].
           apply elem_of_union. by right.
        -- destruct i as [|i]; simpl in Hfi.
           ++ injection Hfi as <-. left.
              rewrite Hty. simpl. apply elem_of_union. left.
              by apply elem_of_singleton.
           ++ right. exists i, fi. split; [lia|]. by split.
Qed.

(** [validatePost] returns no error exactly when every implicit directory
    is a valid path, no two entries share a name, and the parent directory
    of each entry is the dot, an implicit directory (compared without
    trailing slashes) or the name of a directory entry earlier in the
    list. *)
Theorem validatePost_accepts_iff (manifest : Manifest) :
  validatePost manifest = None ↔
  Forall (λ dir, isValidUnixPath dir = true) (m_ImplicitDirs manifest) ∧
  NoDup (map f_Name (m_Files manifest)) ∧
  (∀ j fj, m_Files manifest !! j = Some fj →
     parentDir (f_Name fj) = "." ∨
     (∃ d, d ∈ m_ImplicitDirs manifest ∧
           Go.TrimRight d "/" = parentDir (f_Name fj)) ∨
     (∃ i fi, (i < j)%nat ∧ m_Files manifest !! i = Some fi ∧
              f_Type fi = TypeDIR ∧
              Go.TrimRight (f_Name fi) "/" = parentDir (f_Name fj))).
Proof.
  unfold validatePost.
  pose proof (implicitDirsLoop_valid (m_ImplicitDirs manifest) 0 {["."]}) as Hv.
  destruct (implicitDirsLoop 0 (m_ImplicitDirs manifest) {["."]})
    as [known|e] eqn:Hloop.
  - pose proof (implicitDirsLoop_known _ _ _ _ Hloop) as Hk.
    rewrite filesLoop_None. split.
    + intros (Hnd & _ & Hpar). split; [apply Hv; eauto|]. split; [exact Hnd|].
      intros j fj Hj. destruct (Hpar j fj Hj) as [Hin|Hearlier]; [|auto].
      apply Hk in Hin. destruct Hin as [Hin|(d & Hd & Heq)].
      * left. by apply elem_of_singleton in Hin.
      * right. left. by exists d.
    + intros (_ & Hnd & Hpar). split; [exact Hnd|]. split.
      * intros file _. apply lookup_empty.
      * intros j fj Hj.
        destruct (Hpar j fj Hj) as [Hdot|[(d & Hd & Heq)|Hearlier]]; [| |auto].
        -- left. apply Hk. left. by apply elem_of_singleton.
        -- left. apply Hk. right. by exists d.
  - split; [discriminate|]. intros (Hvalid & _).
    apply Hv in Hvalid. destruct Hvalid as [known Heq]. discriminate.
Qed.

(** ** The [ar] container: sizes *)

Lemma len_append (a b : string) : Go.len (a +:+ b) = Go.len a + Go.len b.
Proof. unfold Go.len. rewrite length_append. lia. Qed.

(** The length of one encoded entry. *)
Lemma writeArEntry_len (name : string) (size : Z) (r e : string) :
  writeArEntry name size r = Ok e →
  Go.len e = 60 + Go.len r + size mod 2.
Proof.
  intros Hw. pose proof Hw as Hinv. apply writeArEntry_inv in Hinv.
  destruct Hinv as (Hn & Hs & Hf).
  destruct (writeArEntry_checked name size r Hn Hs Hf) as (hdr & Heq & Hlen & _).
  rewrite Heq in Hw. injection Hw as <-.
  rewrite !len_append. unfold Go.len at 1. rewrite Hlen.
  rewrite Zmod_odd. destruct (Z.odd size); unfold Go.len; simpl; lia.
Qed.

(** The package [writeArFile] writes has an even length, and so has the
    part of it before each entry: the magic takes 8 bytes, the entry
    [debian-binary] 64, and each tarball its 60-byte header, its bytes and
    one more byte when their number is odd. *)
Theorem writeArFile_size (builder : Builder) (controlFile dataFile out : string) :
  writeArFile builder controlFile dataFile = Ok out →
  Go.len out = 8 + 64 + arEntrySize (Go.len controlFile)
               + arEntrySize (Go.len dataFile) ∧
  arEntrySize (Go.len controlFile) mod 2 = 0 ∧
  arEntrySize (Go.len dataFile) mod 2 = 0 ∧
  Go.len out mod 2 = 0.
Proof.
  unfold writeArFile. cbv zeta.
  destruct (writeArEntry "debian-binary" (Go.len debianBinary) debianBinary)
    as [e1| |] eqn:H1; try discriminate.
  simpl bind.
  destruct (writeArEntry
              ("control.tar" +:+ CompressAlgorithm_Suffix (b_Compression builder))
              (Go.len controlFile) controlFile) as [e2| |] eqn:H2;
    try discriminate.
  simpl bind.
  destruct (writeArEntry
              ("data.tar" +:+ CompressAlgorithm_Suffix (b_Compression builder))
              (Go.len dataFile) dataFile) as [e3| |] eqn:H3;
    try discriminate.
  simpl bind. intros Heq. injection Heq as <-.
  apply writeArEntry_len in H1, H2, H3.
  assert (Heven : ∀ n, arEntrySize n mod 2 = 0).
  { intros n. unfold arEntrySize.
    pose proof (Z.mod_pos_bound n 2 ltac:(lia)) as Hb.
    pose proof (Z.div_mod n 2 ltac:(lia)) as Hd.
    replace (60 + n + n mod 2) with ((30 + n / 2 + n mod 2) * 2) by lia.
    apply Z.mod_mul. lia. }
  assert (Hlen : Go.len (arMagic +:+ e1 +:+ e2 +:+ e3)
                 = 8 + 64 + arEntrySize (Go.len controlFile)
                   + arEntrySize (Go.len dataFile)).
  { rewrite !len_append, H1, H2, H3. unfold arEntrySize.
    change (Go.len arMagic) with 8. change (Go.len debianBinary) with 4.
    change (4 mod 2) with 0. lia. }
  split; [exact Hlen|]. split; [apply Heven|]. split; [apply Heven|].
  rewrite Hlen.
  pose proof (Heven (Go.len controlFile)) as Hc.
  pose proof (Heven (Go.len dataFile)) as Hd.
  rewrite <- Z.add_assoc.
  rewrite <- Z.add_mod_idemp_r by lia.
  rewrite (Z.add_mod (arEntrySize _) (arEntrySize _)) by lia.
  rewrite Hc, Hd. reflexivity.
Qed.

Lemma writeArFile_size_witness :
  Go.len (got "" (writeArFile Ref.builder "abc" "de")) mod 2 = 0.
Proof.
  apply (writeArFile_size Ref.builder "abc" "de"
           (got "" (writeArFile Ref.builder "abc" "de"))).
  vm_compute. reflexivity.
Defined.

(** ** [util.go]: description lines in ASCII *)

Lemma isASCII_cons (c : ascii) (t : string) :
  Go.isASCII (String c t) = true →
  (N_of_ascii c < 128)%N ∧ Go.isASCII t = true.
Proof.
  unfold Go.isASCII. simpl. intros H. apply negb_true_iff in H.
  apply orb_false_iff in H. destruct H as [Hc Ht].
  apply N.leb_gt in Hc. split; [exact Hc|]. by rewrite Ht.
Qed.

Lemma ascii_classes (c : ascii) :
  (N_of_ascii c < 128)%N →
  Go.isCc (N_of_ascii c) = isControlByte c ∧
  Go.isZ (N_of_ascii c) = Ascii.eqb c " ".
Proof.
  intros Hc. split.
  - unfold Go.isCc, isControlByte, Go.inRange, Go.byteIn.
    destruct (N.leb_spec 0 (N_of_ascii c)), (N.leb_spec (N_of_ascii c) 31),
      (N.leb_spec 127 (N_of_ascii c)), (N.leb_spec (N_of_ascii c) 159),
      (N.eqb_spec (N_of_ascii c) 127); simpl; try reflexivity; lia.
  - unfold Go.isZ, Go.inRange.
    destruct (Ascii.eqb_spec c " ") as [->|Hne]; [reflexivity|].
    assert (N_of_ascii c ≠ 32%N).
    { intros H. apply Hne. rewrite <- (ascii_N_embedding c), H. reflexivity. }
    destruct (N.eqb_spec (N_of_ascii c) 32), (N.eqb_spec (N_of_ascii c) 160),
      (N.eqb_spec (N_of_ascii c) 5760), (N.leb_spec 8192 (N_of_ascii c)),
      (N.leb_spec 8232 (N_of_ascii c)), (N.eqb_spec (N_of_ascii c) 8239),
      (N.eqb_spec (N_of_ascii c) 8287), (N.eqb_spec (N_of_ascii c) 12288);
      simpl; try reflexivity; lia.
Qed.

(** The loop of [isValidDescriptionLine] over a line of ASCII bytes. *)
Lemma descriptionLoop_ascii (s : string) :
  ∀ count, Go.isASCII s = true →
    descriptionLoop (Go.runes s) count
    = if Go.anyByte isControlByte s then None else Some (spaceRun s count).
Proof.
  induction s as [|c t IH]; intros count Hascii; [reflexivity|].
  apply isASCII_cons in Hascii. destruct Hascii as [Hc Ht].
  destruct (ascii_classes c Hc) as [Hcc Hz].
  simpl Go.runes. replace (N_of_ascii c <? 128)%N with true
    by (symmetry; by apply N.ltb_lt).
  simpl. rewrite Hcc, Hz.
  destruct (isControlByte c); [reflexivity|]. simpl. by apply IH.
Qed.

Lemma HasSuffix_space_cons (c d : ascii) (t : string) :
  Go.HasSuffix (String c (String d t)) " " = Go.HasSuffix (String d t) " ".
Proof.
  unfold Go.HasSuffix. simpl String.length.
  replace (S (S (String.length t)) - 1)%nat with (S (String.length t)) by lia.
  replace (S (String.length t) - 1)%nat with (String.length t) by lia.
  reflexivity.
Qed.

Lemma spaceRun_nonneg (s : string) :
  ∀ count, 0 <= count → 0 <= spaceRun s count.
Proof.
  induction s as [|c t IH]; intros count Hc; simpl; [exact Hc|].
  apply IH. destruct (Ascii.eqb c " "); lia.
Qed.

Lemma spaceRun_suffix (s : string) :
  ∀ count, 0 <= count →
    (spaceRun s count <=? 0)
    = match s with
      | EmptyString => count <=? 0
      | _ => negb (Go.HasSuffix s " ")
      end.
Proof.
  induction s as [|c t IH]; intros count Hc; [reflexivity|].
  simpl spaceRun. destruct t as [|d t'].
  - simpl spaceRun. unfold Go.HasSuffix. simpl.
    destruct (Ascii.eqb_spec c " ") as [->|Hne].
    + simpl. apply Z.leb_gt. lia.
    + replace (Ascii.eqb c " ") with false
        by (symmetry; by apply Ascii.eqb_neq).
      reflexivity.
  - rewrite HasSuffix_space_cons. apply IH.
    destruct (Ascii.eqb c " "); lia.
Qed.

(** On a line of ASCII bytes, [isValidDescriptionLine] holds exactly when
    the line has no control byte and does not end in a space. *)
Theorem isValidDescriptionLine_ascii (line : string) :
  Go.isASCII line = true →
  isValidDescriptionLine line
  = negb (Go.anyByte isControlByte line) && negb (Go.HasSuffix line " ").
Proof.
  intros Hascii. unfold isValidDescriptionLine.
  rewrite descriptionLoop_ascii by exact Hascii.
  destruct (Go.anyByte isControlByte line); [reflexivity|].
  rewrite spaceRun_suffix by lia.
  destruct line; reflexivity.
Qed.

Lemma isValidDescriptionLine_ascii_witness :
  isValidDescriptionLine "ends in a space " = false.
Proof.
  rewrite (isValidDescriptionLine_ascii "ends in a space ");
    vm_compute; reflexivity.
Defined.

(** ** [main.go]: the version table *)

Section VersionFacts.

Variable unicodeLower : string → string.

Local Abbreviation lower := (Go.ToLower unicodeLower).

(** The loop of [SetVersion] from any point on, for an even number of
    strings still to read.  [seen] maps the lower-cased form of each key
    stored so far to that key. *)
Lemma setVersionLoop_spec (n : nat) :
  ∀ (pairs keys : list string) (values seen : gmap string string),
    List.length pairs = (2 * n)%nat →
    (∀ lc, is_Some (seen !! lc) ↔ lc ∈ map lower keys) →
    match setVersionLoop unicodeLower pairs keys values seen with
    | Ok (keys', values') =>
        NoDup (lowerKeys unicodeLower pairs) ∧
        (∀ lc, lc ∈ lowerKeys unicodeLower pairs → lc ∉ map lower keys) ∧
        keys' = keys ++ map fst (pairsOf pairs) ∧
        (∀ key value, (key, value) ∈ pairsOf pairs → values' !! key = Some value) ∧
        (∀ key, key ∉ map fst (pairsOf pairs) → values' !! key = values !! key)
    | Panic _ =>
        ¬ (NoDup (lowerKeys unicodeLower pairs) ∧
           ∀ lc, lc ∈ lowerKeys unicodeLower pairs → lc ∉ map lower keys)
    | Err _ => False
    end.
Proof.
  induction n as [|n IH]; intros pairs keys values seen Hlen Hseen.
  - destruct pairs; [|discriminate]. simpl.
    split; [constructor|]. split; [intros lc H; by apply elem_of_nil in H|].
    split; [by rewrite app_nil_r|]. split; [|reflexivity].
    intros key value H. by apply elem_of_nil in H.
  - destruct pairs as [|key [|value rest]]; simpl in Hlen; [lia|lia|].
    assert (Hrest : List.length rest = (2 * n)%nat) by lia.
    simpl setVersionLoop.
    unfold lowerKeys. simpl pairsOf. simpl map.
    fold (lowerKeys unicodeLower rest).
    destruct (seen !! lower key) as [oldKey|] eqn:Hlook.
    + assert (Hin : lower key ∈ map lower keys)
        by (apply Hseen; rewrite Hlook; eauto).
      assert (Hbad : ¬ (NoDup (lower key :: lowerKeys unicodeLower rest) ∧
                        ∀ lc, lc ∈ lower key :: lowerKeys unicodeLower rest →
                              lc ∉ map lower keys)).
      { intros [_ Hfresh]. apply (Hfresh (lower key)); [left|exact Hin]. }
      destruct (String.eqb oldKey key); exact Hbad.
    + assert (Hnotin : lower key ∉ map lower keys).
      { intros Hin. apply Hseen in Hin. rewrite Hlook in Hin. by destruct Hin. }
      specialize (IH rest (keys ++ [key]) (<[key:=value]> values)
                    (<[lower key:=key]> seen) Hrest).
      assert (Hseen' : ∀ lc, is_Some (<[lower key:=key]> seen !! lc) ↔
                             lc ∈ map lower (keys ++ [key])).
      { intros lc. rewrite map_app. simpl. rewrite elem_of_app.
        rewrite elem_of_cons.
        destruct (decide (lower key = lc)) as [<-|Hne].
        - rewrite lookup_insert_eq. split; [intros _; right; by left | eauto].
        - rewrite lookup_insert_ne by exact Hne. rewrite Hseen.
          split; [by left|]. intros [H|[H|H]]; [exact H|congruence|].
          by apply elem_of_nil in H. }
      specialize (IH Hseen').
      assert (Hmem : ∀ lc, lc ∈ map lower (keys ++ [key]) ↔
                           lc ∈ map lower keys ∨ lc = lower key).
      { intros lc. rewrite map_app. simpl. rewrite elem_of_app, elem_of_cons.
        split; [intros [H|[H|H]]; [by left|by right|by apply elem_of_nil in H]|].
        intros [H|H]; [by left|right; by left]. }
      destruct (setVersionLoop unicodeLower rest (keys ++ [key])
                  (<[key:=value]> values) (<[lower key:=key]> seen))
        as [[keys' values']|e|e]; [|exact IH|].
      * destruct IH as (Hnd & Hfresh & Hkeys & Hval & Hother).
        assert (Hkey_fresh : lower key ∉ lowerKeys unicodeLower rest).
        { intros H. apply (Hfresh _ H). apply Hmem. by right. }
        assert (Hkey_notin : key ∉ map fst (pairsOf rest)).
        { intros H. apply Hkey_fresh. unfold lowerKeys.
          change (map fst (pairsOf rest)) with (fst <$> pairsOf rest) in H.
          apply list_elem_of_fmap in H. destruct H as ([k v] & Hk & Hkv).
          simpl in Hk. subst k.
          change (map (λ pair, lower pair.1) (pairsOf rest))
            with ((λ pair, lower pair.1) <$> pairsOf rest).
          apply list_elem_of_fmap. by exists (key, v). }
        split; [by constructor|]. split; [|split; [|split]].
        -- intros lc Hlc. apply elem_of_cons in Hlc.
           destruct Hlc as [->|Hlc]; [exact Hnotin|].
           intros H. apply (Hfresh lc Hlc). apply Hmem. by left.
        -- rewrite Hkeys, <- app_assoc. reflexivity.
        -- intros k v Hkv. apply elem_of_cons in Hkv.
           destruct Hkv as [Heq|Hkv]; [|by apply Hval].
           injection Heq as -> ->.
           rewrite (Hother key Hkey_notin). apply lookup_insert_eq.
        -- intros k Hk. simpl in Hk. apply not_elem_of_cons in Hk.
           destruct Hk as [Hne Hk]. rewrite (Hother k Hk).
           apply lookup_insert_ne. congruence.
      * intros [Hnd Hfresh]. apply IH.
        apply NoDup_cons in Hnd. destruct Hnd as [Hk Hnd].
        split; [exact Hnd|]. intros lc Hlc H. apply Hmem in H.
        destruct H as [H| ->]; [|contradiction].
        apply (Hfresh lc); [by right|exact H].
Qed.

Lemma versionOutput_pairs (pairs : list (string * string))
    (values : gmap string string) :
  (∀ key value, (key, value) ∈ pairs → values !! key = Some value) →
  versionOutput (map fst pairs) values = concatMap versionLine pairs.
Proof.
  induction pairs as [|[key value] rest IH]; intros H; [reflexivity|].
  unfold versionOutput in *. cbn [map concatMap fst].
  rewrite (H key value) by left.
  rewrite IH; [reflexivity|]. intros k v Hkv. apply H. by right.
Qed.

(** [SetVersion] never returns an error; it completes exactly when it is
    given an even number of strings whose keys differ even when
    lower-cased, and panics otherwise.  When it completes, the keys are
    stored in the order given, every key maps to its value, and the
    [--version] listing prints the pairs in that order, one [key=value]
    per line. *)
Theorem SetVersion_spec (pairs : list string) :
  is_Err (SetVersion unicodeLower pairs) = false ∧
  (is_Ok (SetVersion unicodeLower pairs) = true ↔
   Nat.even (List.length pairs) = true ∧ NoDup (lowerKeys unicodeLower pairs)) ∧
  (∀ keys values, SetVersion unicodeLower pairs = Ok (keys, values) →
     keys = map fst (pairsOf pairs) ∧
     (∀ key value, (key, value) ∈ pairsOf pairs → values !! key = Some value) ∧
     versionOutput keys values = concatMap versionLine (pairsOf pairs)).
Proof.
  unfold SetVersion. cbv zeta.
  assert (Hland : Z.land (Z.of_nat (List.length pairs)) 1
                  = if Nat.even (List.length pairs) then 0 else 1).
  { change 1 with (Z.ones 1) at 1. rewrite Z.land_ones by lia.
    change (2 ^ 1) with 2.
    destruct (Nat.even (List.length pairs)) eqn:He.
    - apply Nat.even_spec in He. destruct He as [k ->].
      rewrite Nat2Z.inj_mul, Z.mul_comm. apply Z.mod_mul. lia.
    - assert (Ho : Nat.odd (List.length pairs) = true)
        by (rewrite <- Nat.negb_even, He; reflexivity).
      apply Nat.odd_spec in Ho. destruct Ho as [k ->].
      rewrite Nat2Z.inj_add, Nat2Z.inj_mul, Z.add_comm, Z.mul_comm.
      rewrite Z.mod_add by lia. reflexivity. }
  rewrite Hland.
  destruct (Nat.even (List.length pairs)) eqn:Heven; simpl Z.eqb; cbv iota.
  2:{ split; [reflexivity|]. split; [|discriminate].
      simpl. split; [discriminate|]. intros [H _]. discriminate. }
  apply Nat.even_spec in Heven. destruct Heven as [n Hn].
  pose proof (setVersionLoop_spec n pairs [] ∅ ∅ Hn) as Hspec.
  assert (Hseen : ∀ lc, is_Some ((∅ : gmap string string) !! lc) ↔
                        lc ∈ map lower []).
  { intros lc. rewrite lookup_empty. simpl. split.
    - intros H. by destruct H.
    - intros H. by apply elem_of_nil in H. }
  specialize (Hspec Hseen).
  destruct (setVersionLoop unicodeLower pairs [] ∅ ∅)
    as [[keys' values']|e|e]; [|contradiction|].
  - destruct Hspec as (Hnd & _ & Hkeys & Hval & _).
    split; [reflexivity|]. split; [split; auto|].
    intros keys values Heq. injection Heq as <- <-.
    simpl in Hkeys. split; [exact Hkeys|]. split; [exact Hval|].
    rewrite Hkeys. by apply versionOutput_pairs.
  - split; [reflexivity|]. split; [|discriminate].
    simpl. split; [discriminate|]. intros [_ Hnd]. exfalso. apply Hspec.
    split; [exact Hnd|]. intros lc _ H. by apply elem_of_nil in H.
Qed.

End VersionFacts.

(** ** The members of the data tarball *)

Section DataFacts.

Variable X : Extern.

Lemma AsTarHeader_fields (file : File) (hdr : TarHeader) :
  AsTarHeader X file = Ok hdr →
  f_isResolved file = true ∧
  h_Name hdr = f_Name file ∧ h_Size hdr = f_size file ∧
  h_ModTime hdr = f_MTime file ∧
  ((f_Type file =? TypeREG)%N = true → h_Typeflag hdr = tar_TypeReg).
Proof.
  unfold AsTarHeader.
  destruct (f_isResolved file); [|discriminate]. simpl negb. cbv iota zeta.
  destruct (N.eqb_spec (f_Type file) TypeDIR) as [E|N1].
  { intros H. injection H as <-. rewrite E. simpl. repeat split; discriminate. }
  destruct (N.eqb_spec (f_Type file) TypeREG) as [E|N2].
  { intros H. injection H as <-. simpl. repeat split; discriminate. }
  destruct (N.eqb_spec (f_Type file) TypeLNK) as [E|N3].
  { destruct (f_Link file); [|discriminate]. simpl.
    intros H. injection H as <-. simpl. repeat split; discriminate. }
  destruct (N.eqb_spec (f_Type file) TypeFIFO) as [E|N4].
  { intros H. injection H as <-. simpl. repeat split; discriminate. }
  destruct (N.eqb_spec (f_Type file) TypeCHR) as [E|N5].
  { destruct (f_Major file); [|discriminate].
    destruct (f_Minor file); [|discriminate]. simpl.
    intros H. injection H as <-. simpl. repeat split; discriminate. }
  destruct (N.eqb_spec (f_Type file) TypeBLK) as [E|N6].
  { destruct (f_Major file); [|discriminate].
    destruct (f_Minor file); [|discriminate]. simpl.
    intros H. injection H as <-. simpl. repeat split; discriminate. }
  intros H. injection H as <-. simpl. repeat split; discriminate.
Qed.

(** The loop of [BuildDataTarball]: when it has run to its end and the tar
    writer misses no byte, the writer missed none at the start and has one
    more member for each entry, in order. *)
Lemma dataLoop_members (builder : Builder) (files : list File) :
  ∀ (index : nat) (tw : TarWriter) (files' : list File) (tw' : TarWriter),
    forFiles (dataStep X builder) index files tw = (files', Ok tw') →
    tw_missing tw' = 0 →
    tw_missing tw = 0 ∧
    ∃ news, tw_members tw' = tw_members tw ++ news ∧
            Forall2 (dataMember builder) files news.
Proof.
  induction files as [|file rest IH]; intros index tw files' tw'.
  - simpl. intros Heq Hm. injection Heq as _ <-. split; [exact Hm|].
    exists []. split; [by rewrite app_nil_r | constructor].
  - simpl forFiles.
    destruct (dataStep X builder index file tw) as [file1 [tw2|e|e]] eqn:Hstep;
      try discriminate.
    destruct (forFiles (dataStep X builder) (S index) rest tw2)
      as [rest' r] eqn:Hrest.
    intros Heq Hm. injection Heq as <- ->.
    destruct (IH _ _ _ _ Hrest Hm) as (Hm2 & news & Hmem & Hall). clear IH.
    unfold dataStep in Hstep.
    destruct (AsTarHeader X (File_setHashes file false ∅)) as [hdr|e|e] eqn:Hhdr;
      try discriminate.
    apply AsTarHeader_fields in Hhdr.
    destruct Hhdr as (Hres & Hname & Hsize & Htime & Hflag).
    change (f_Name (File_setHashes file false ∅)) with (f_Name file) in Hname.
    change (f_size (File_setHashes file false ∅)) with (f_size file) in Hsize.
    change (f_MTime (File_setHashes file false ∅)) with (f_MTime file) in Htime.
    change (f_Type (File_setHashes file false ∅)) with (f_Type file) in Hflag, Hstep.
    change (f_isResolved (File_setHashes file false ∅))
      with (f_isResolved file) in Hres.
    rewrite File_Reader_setHashes in Hstep.
    cbv zeta in Hstep.
    set (hdr' := if Time_IsZero (h_ModTime hdr)
                 then TarHeader_setModTime hdr (b_ZeroTime builder) else hdr)
      in Hstep.
    assert (Hhdr' : h_Name hdr' = f_Name file ∧ h_Size hdr' = f_size file ∧
                    h_Typeflag hdr' = h_Typeflag hdr ∧
                    h_ModTime hdr'
                    = (if Time_IsZero (f_MTime file) then b_ZeroTime builder
                       else f_MTime file)).
    { subst hdr'. rewrite Htime.
      destruct (Time_IsZero (f_MTime file)); simpl; auto. }
    destruct Hhdr' as (Hname' & Hsize' & Hflag' & Htime').
    unfold tar_WriteHeader in Hstep.
    destruct (Z.eqb_spec (tw_missing tw) 0) as [Hm0|]; [|discriminate].
    simpl negb in Hstep. cbv iota in Hstep.
    destruct (h_Size hdr' <? 0); [discriminate|].
    split; [exact Hm0|].
    destruct (f_Type file =? TypeREG)%N eqn:Hreg.
    + destruct (File_Reader (b_Root builder) file) as [content|e|e] eqn:Hread;
        try discriminate.
      destruct (newHashers (hashesOf builder) ∅) as [hashers|e|e];
        try discriminate.
      unfold tar_Write in Hstep. cbn [tw_missing tw_members] in Hstep.
      rewrite Hflag', (Hflag eq_refl) in Hstep.
      change (tar_headerOnly tar_TypeReg) with false in Hstep. cbv iota in Hstep.
      destruct (h_Size hdr' <? Go.len content); [discriminate|].
      injection Hstep as _ <-. cbn [tw_missing tw_members] in Hm2, Hmem.
      rewrite appendLast_snoc in Hmem. cbn [tm_hdr tm_body] in Hmem.
      rewrite append_nil in Hmem.
      exists (mkTarMember hdr' content :: news). split.
      * rewrite Hmem, <- app_assoc. reflexivity.
      * constructor; [|exact Hall]. unfold dataMember. cbn [tm_hdr tm_body].
        rewrite Hreg. repeat split; try assumption. intros _. lia.
    + injection Hstep as _ <-. cbn [tw_missing tw_members] in Hm2, Hmem.
      exists (mkTarMember hdr' "" :: news). split.
      * rewrite Hmem, <- app_assoc. reflexivity.
      * constructor; [|exact Hall]. unfold dataMember. cbn [tm_hdr tm_body].
        rewrite Hreg. repeat split; try assumption; [|discriminate].
        unfold File_Reader. rewrite Hres, Hreg. reflexivity.
Qed.

(** A data tarball that [BuildDataTarball] returns is the compressed
    archive of one member per entry of the manifest, in list order; each
    member has its entry's name, size and content, and the builder's zero
    time where the entry gives no modification time. *)
Theorem BuildDataTarball_members (builder : Builder)
    (manifest manifest' : Manifest) (data : string) :
  BuildDataTarball X builder manifest = (manifest', Ok data) →
  ∃ cw members,
    CompressAlgorithm_NewWriter X (b_Compression (fillDefaults builder)) = Ok cw ∧
    data = cw (x_tarEncode X members) ∧
    Forall2 (dataMember (fillDefaults builder)) (m_Files manifest) members ∧
    map f_Name (m_Files manifest') = map f_Name (m_Files manifest).
Proof.
  unfold BuildDataTarball.
  destruct (m_isResolved manifest); simpl negb; cbv iota zeta; [|discriminate].
  destruct (CompressAlgorithm_NewWriter X _) as [cw|e|e] eqn:Hcw;
    try discriminate.
  destruct (forFiles _ 0 (m_Files manifest) tar_NewWriter)
    as [files [tw|e|e]] eqn:Hloop; try discriminate.
  unfold tar_Close.
  destruct (Z.eqb_spec (tw_missing tw) 0) as [Hm|]; [|discriminate].
  simpl negb. cbv iota. intros Heq. injection Heq as <- <-.
  destruct (dataLoop_members _ _ _ _ _ _ Hloop Hm) as (_ & news & Hmem & Hall).
  simpl in Hmem. exists cw, news. split; [reflexivity|].
  split; [by rewrite Hmem|]. split; [exact Hall|].
  simpl. apply forFiles_steps in Hloop. clear -Hloop.
  induction Hloop as [|f f' l l' (i & a & a' & Hstep) _ IH]; [reflexivity|].
  simpl. rewrite IH. f_equal. apply dataStep_ok in Hstep. tauto.
Qed.

End DataFacts.

Lemma BuildDataTarball_members_witness :
  ∃ cw members,
    CompressAlgorithm_NewWriter Ref.X (b_Compression (fillDefaults Ref.builder))
      = Ok cw ∧
    snd (BuildDataTarball Ref.X Ref.builder fooResolved)
      = Ok (cw (x_tarEncode Ref.X members)) ∧
    Forall2 (dataMember (fillDefaults Ref.builder)) (m_Files fooResolved) members.
Proof.
  destruct (BuildDataTarball_members Ref.X Ref.builder fooResolved
              (fst (BuildDataTarball Ref.X Ref.builder fooResolved))
              (got "" (snd (BuildDataTarball Ref.X Ref.builder fooResolved)))
              ltac:(vm_compute; reflexivity))
    as (cw & members & Hcw & Hdata & Hall & _).
  exists cw, members. split; [exact Hcw|]. split; [|exact Hall].
  rewrite <- Hdata. vm_compute. reflexivity.
Defined.

(** ** [util.go]: the bytes the validators let through *)

Lemma accepts_mkSeq (a b : Go.regex) (c : ascii) :
  accepts (Go.mkSeq a b) c = true → accepts a c || accepts b c = true.
Proof.
  destruct a, b; simpl; intros H; try discriminate; try exact H;
    rewrite ?orb_false_r; try exact H.
Qed.

Lemma accepts_mkAlt (a b : Go.regex) (c : ascii) :
  accepts (Go.mkAlt a b) c = true → accepts a c || accepts b c = true.
Proof.
  destruct a, b; simpl; intros H; try discriminate; try exact H;
    rewrite ?orb_false_r; try exact H.
Qed.

Lemma accepts_deriv (d : ascii) (r : Go.regex) (c : ascii) :
  accepts (Go.deriv d r) c = true → accepts r c = true.
Proof.
  induction r as [| |p|a IHa b IHb|a IHa b IHb|a IHa]; simpl.
  - discriminate.
  - discriminate.
  - destruct (p d); discriminate.
  - destruct (Go.nullable a).
    + intros H. apply accepts_mkAlt in H. apply orb_true_iff in H.
      destruct H as [H|H].
      * apply accepts_mkSeq in H. apply orb_true_iff in H.
        destruct H as [H|H]; apply orb_true_iff; auto.
      * apply orb_true_iff; auto.
    + intros H. apply accepts_mkSeq in H. apply orb_true_iff in H.
      destruct H as [H|H]; apply orb_true_iff; auto.
  - intros H. apply accepts_mkAlt in H. apply orb_true_iff in H.
    destruct H as [H|H]; apply orb_true_iff; auto.
  - intros H. apply accepts_mkSeq in H. apply orb_true_iff in H.
    destruct H as [H|H]; auto.
Qed.

Lemma deriv_rejected (d : ascii) (r : Go.regex) :
  accepts r d = false → Go.deriv d r = Go.Nul.
Proof.
  induction r as [| |p|a IHa b IHb|a IHa b IHb|a IHa]; simpl.
  - reflexivity.
  - reflexivity.
  - intros ->. reflexivity.
  - intros H. apply orb_false_iff in H. destruct H as [Ha Hb].
    rewrite (IHa Ha), (IHb Hb). destruct (Go.nullable a); reflexivity.
  - intros H. apply orb_false_iff in H. destruct H as [Ha Hb].
    rewrite (IHa Ha), (IHb Hb). reflexivity.
  - intros H. rewrite (IHa H). reflexivity.
Qed.

Lemma MatchString_Nul (s : string) : Go.MatchString Go.Nul s = false.
Proof. induction s as [|c t IH]; [reflexivity | exact IH]. Qed.

Lemma allBytes_cons (p : ascii → bool) (c : ascii) (t : string) :
  allBytes p (String c t) = p c && allBytes p t.
Proof. unfold allBytes. simpl. by destruct (p c). Qed.

Lemma allBytes_mono (p q : ascii → bool) (s : string) :
  (∀ c, p c = true → q c = true) → allBytes p s = true → allBytes q s = true.
Proof.
  intros Hpq. induction s as [|c t IH]; [reflexivity|].
  rewrite !allBytes_cons. intros H. apply andb_true_iff in H.
  destruct H as [Hc Ht]. apply andb_true_iff. auto.
Qed.

(** A string that a regular expression matches is made of bytes that some
    character class of the expression holds of. *)
Lemma MatchString_alphabet (s : string) :
  ∀ r, Go.MatchString r s = true → allBytes (accepts r) s = true.
Proof.
  induction s as [|d t IH]; intros r; [reflexivity|].
  simpl Go.MatchString. intros H. rewrite allBytes_cons.
  destruct (accepts r d) eqn:Hd.
  - simpl. apply (allBytes_mono (accepts (Go.deriv d r))).
    + intros c. apply accepts_deriv.
    + by apply IH.
  - rewrite (deriv_rejected d r Hd), MatchString_Nul in H. discriminate.
Qed.

Lemma bytesImply_spec (p q : ascii → bool) :
  bytesImply p q = true → ∀ c, p c = true → q c = true.
Proof.
  unfold bytesImply. intros H c Hp.
  rewrite forallb_forall in H.
  assert (Hin : In (nat_of_ascii c) (seq 0 256)).
  { apply in_seq. pose proof (nat_ascii_bounded c). lia. }
  specialize (H (nat_of_ascii c) Hin).
  rewrite ascii_nat_embedding, Hp in H. exact H.
Qed.

Lemma MatchString_within (r : Go.regex) (q : ascii → bool) (s : string) :
  bytesImply (accepts r) q = true →
  Go.MatchString r s = true → allBytes q s = true.
Proof.
  intros Himp Hm. apply (allBytes_mono (accepts r)).
  - by apply bytesImply_spec.
  - by apply MatchString_alphabet.
Qed.

(** The validators let through only text over a small alphabet: letters and
    digits and, for a path, the bytes [._-/]; for a package name, lower
    case only and [.+-]; for a version, [:.~+-]; for an architecture, [-];
    for a section, lower case only and [/-]; a priority is in lower-case
    letters. *)
Theorem validators_alphabet (str : string) :
  (isValidUnixPath str = true → allBytes (wordByte "._-/") str = true) ∧
  (isValidPackage str = true →
   allBytes (λ c, negb (Go.isUpper c) && wordByte ".+-" c) str = true) ∧
  (isValidVersion str = true → allBytes (wordByte ":.~+-") str = true) ∧
  (isValidArch str = true → allBytes (wordByte "-") str = true) ∧
  (isValidSection str = true →
   allBytes (λ c, negb (Go.isUpper c) && wordByte "/-" c) str = true) ∧
  (isValidPriority str = true → allBytes Go.isLower str = true).
Proof.
  repeat split; apply MatchString_within; vm_compute; reflexivity.
Qed.

Lemma allBytes_append (p : ascii → bool) (a b : string) :
  allBytes p (a +:+ b) = allBytes p a && allBytes p b.
Proof.
  induction a as [|c a IH]; [reflexivity|].
  rewrite append_cons, !allBytes_cons, IH. by destruct (p c).
Qed.

Lemma allBytes_TrimRight (p : ascii → bool) (s cutset : string) :
  allBytes p s = true → allBytes p (Go.TrimRight s cutset) = true.
Proof.
  induction s as [|c t IH]; [reflexivity|].
  rewrite allBytes_cons. intros H. apply andb_true_iff in H.
  destruct H as [Hc Ht]. specialize (IH Ht). simpl.
  destruct (Go.TrimRight t cutset) as [|d t'].
  - destruct (Go.anyByte (Ascii.eqb c) cutset); [reflexivity|].
    rewrite allBytes_cons, Hc. reflexivity.
  - rewrite allBytes_cons, Hc. exact IH.
Qed.

Lemma validateImpl_name (file file' : File) :
  validateImpl file = (file', None) →
  allBytes (wordByte "._-/") (f_Name file') = true.
Proof.
  unfold validateImpl.
  destruct (String.eqb (f_Name file) ""); [discriminate|].
  destruct (isValidUnixPath (f_Name file)) eqn:Hvalid; [|discriminate].
  simpl negb. cbv iota.
  destruct (negb (Type_IsValid (f_Type file))); [discriminate|]. cbv zeta.
  assert (Hname : allBytes (wordByte "._-/") (f_Name (fixupType file)) = true).
  { destruct (fixupType_spec file) as (_ & _ & _ & _ & _ & ->).
    revert Hvalid. apply MatchString_within. vm_compute. reflexivity. }
  destruct (f_Type (fixupType file) =? TypeDIR)%N.
  - intros Heq. injection Heq as <- _. simpl.
    rewrite allBytes_append, allBytes_TrimRight by exact Hname. reflexivity.
  - destruct (String.eqb (f_Name (fixupType file)) "."
              || Go.HasSuffix (f_Name (fixupType file)) "/"); [discriminate|].
    intros Heq. injection Heq as <- _. exact Hname.
Qed.

Lemma File_Resolve_name (fileSystem : FS) (file file' : File) :
  File_Resolve fileSystem file = (file', None) →
  ∃ v, validateImpl file = (v, None) ∧ f_Name file' = f_Name v.
Proof.
  unfold File_Resolve.
  destruct (validateImpl file) as [v [e|]] eqn:Hv; [discriminate|].
  intros Hres. exists v. split; [reflexivity|].
  destruct (f_Type v =? TypeREG)%N.
  - destruct (f_Bytes v); [|destruct (f_Text v);
      [|destruct (f_Path v) as [path|];
        [destruct (fileSystem path); [|discriminate]
        |destruct (fileSystem (f_Name v)); [|discriminate]]]];
      by injection Hres as <-.
  - by injection Hres as <-.
Qed.

Lemma wordByte_printable (extra : string) (s : string) :
  bytesImply (wordByte extra) (λ c, negb (Go.byteIn 0 32 c)) = true →
  allBytes (wordByte extra) s = true →
  Go.anyByte (Go.byteIn 0 32) s = false.
Proof.
  intros Himp H.
  apply (allBytes_mono _ (λ c, negb (Go.byteIn 0 32 c))) in H;
    [|by apply bytesImply_spec].
  unfold allBytes in H. apply negb_true_iff in H.
  rewrite <- H. clear. induction s as [|c t IH]; [reflexivity|].
  simpl. rewrite IH. by destruct (Go.byteIn 0 32 c).
Qed.

(** After a successful [Manifest.Resolve] the package name, the version,
    the architecture and the name of every entry are made of letters,
    digits and a few punctuation bytes; none of them has a space, a newline
    or any other control byte in it, so that none can break the line of the
    control file or of a checksum file it is written to. *)
Theorem Resolve_text_alphabet (fileSystem : FS) (manifest manifest' : Manifest) :
  Manifest_Resolve fileSystem manifest = (manifest', Ok tt) →
  Forall (λ file, allBytes (wordByte "._-/") (f_Name file) = true ∧
                  Go.anyByte (Go.byteIn 0 32) (f_Name file) = false)
         (m_Files manifest') ∧
  Go.anyByte (Go.byteIn 0 32) (m_Package manifest') = false ∧
  Go.anyByte (Go.byteIn 0 32) (m_Version manifest') = false ∧
  Go.anyByte (Go.byteIn 0 32) (m_Arch manifest') = false.
Proof.
  intros Hres.
  destruct (Manifest_Resolve_ok _ _ _ Hres) as (total & Hloop & _).
  destruct (forFiles_resolve _ _ _ _ _ _ Hloop) as [Hall _].
  split.
  - clear -Hall. induction Hall as [|f f' l l' Hf _ IH]; constructor;
      [|exact IH].
    apply File_Resolve_name in Hf. destruct Hf as (v & Hv & ->).
    apply validateImpl_name in Hv. split; [exact Hv|].
    revert Hv. apply wordByte_printable. vm_compute. reflexivity.
  - unfold Manifest_Resolve in Hres.
    destruct (validatePre manifest) as [e|] eqn:Hpre; [discriminate|].
    destruct (forFiles (resolveStep fileSystem) 0 (m_Files manifest) 0)
      as [files [t|e|e]]; try discriminate.
    destruct (validatePost (Manifest_setFiles manifest files));
      [discriminate|].
    injection Hres as <-. simpl.
    unfold validatePre in Hpre.
    destruct (firstError _) eqn:Hfirst in Hpre; [discriminate|].
    apply firstError_None in Hfirst.
    inversion Hfirst as [|? ? _ H1]; subst. inversion H1 as [|? ? Hp H2]; subst.
    inversion H2 as [|? ? _ H3]; subst. inversion H3 as [|? ? Hv H4]; subst.
    inversion H4 as [|? ? _ H5]; subst. inversion H5 as [|? ? Ha _]; subst.
    simpl in Hp, Hv, Ha. apply negb_false_iff in Hp, Hv, Ha.
    split; [|split].
    + apply (wordByte_printable ".+-"); [vm_compute; reflexivity|].
      revert Hp. apply MatchString_within. vm_compute. reflexivity.
    + apply (wordByte_printable ":.~+-"); [vm_compute; reflexivity|].
      revert Hv. apply MatchString_within. vm_compute. reflexivity.
    + apply (wordByte_printable "-"); [vm_compute; reflexivity|].
      revert Ha. apply MatchString_within. vm_compute. reflexivity.
Qed.

Lemma Resolve_text_alphabet_witness :
  Forall (λ file, allBytes (wordByte "._-/") (f_Name file) = true ∧
                  Go.anyByte (Go.byteIn 0 32) (f_Name file) = false)
         (m_Files fooResolved).
Proof.
  apply (Resolve_text_alphabet Ref.emptyFS fooManifest fooResolved).
  vm_compute. reflexivity.
Defined.

(** ** Names of constants do not collide *)

Lemma namesDistinct_spec (f : N → string) :
  namesDistinct f = true →
  ∀ a b, (a < 256)%N → (b < 256)%N → f a = f b → a = b.
Proof.
  unfold namesDistinct. intros H a b Ha Hb Heq.
  rewrite forallb_forall in H.
  assert (Hina : In (N.to_nat a) (seq 0 256)) by (apply in_seq; lia).
  assert (Hinb : In (N.to_nat b) (seq 0 256)) by (apply in_seq; lia).
  specialize (H (N.to_nat a) Hina). rewrite forallb_forall in H.
  specialize (H (N.to_nat b) Hinb). rewrite !N2Nat.id in H.
  rewrite Heq, String.eqb_refl in H. simpl in H. rewrite orb_false_r in H.
  apply Nat.eqb_eq in H. lia.
Qed.

(** Two different byte values never format to the same text, be they
    declared constants or not: this holds for the names of entry types, of
    hash algorithms and of compression algorithms, and for the file names
    of the checksum files, so that no two algorithms of a builder share a
    checksum file. *)
Theorem names_injective (a b : N) :
  (a < 256)%N → (b < 256)%N →
  (Type_String a = Type_String b → a = b) ∧
  (HashAlgorithm_String a = HashAlgorithm_String b → a = b) ∧
  (HashAlgorithm_FileName a = HashAlgorithm_FileName b → a = b) ∧
  (CompressAlgorithm_String a = CompressAlgorithm_String b → a = b).
Proof.
  intros Ha Hb. repeat split; apply namesDistinct_spec; try assumption;
    vm_compute; reflexivity.
Qed.

Lemma names_injective_witness :
  HashAlgorithm_FileName 1 = HashAlgorithm_FileName 200 ↔ 1%N = 200%N.
Proof.
  split; [apply (names_injective 1 200); reflexivity | discriminate].
Defined.

(** ** Entries of a resolved manifest *)

Lemma File_Resolve_shape (fileSystem : FS) (file file' : File) :
  File_Resolve fileSystem file = (file', None) →
  ∃ v size, validateImpl file = (v, None) ∧ file' = File_setResolved v size.
Proof.
  unfold File_Resolve.
  destruct (validateImpl file) as [v [e|]] eqn:Hv; [discriminate|].
  intros Hres. exists v.
  destruct (f_Type v =? TypeREG)%N.
  - destruct (f_Bytes v); [|destruct (f_Text v);
      [|destruct (f_Path v) as [path|];
        [destruct (fileSystem path); [|discriminate]
        |destruct (fileSystem (f_Name v)); [|discriminate]]]];
      injection Hres as <-; eexists; split; reflexivity.
  - injection Hres as <-; eexists; split; reflexivity.
Qed.

(** After a successful [Manifest.Resolve] every entry of the manifest is
    resolved and of a concrete, declared type; its name ends in a slash
    exactly when it is a directory; only a regular file is marked as a
    configuration file; and an entry that is no regular file has size
    zero. *)
Theorem Resolve_entries_wellformed (fileSystem : FS)
    (manifest manifest' : Manifest) :
  Manifest_Resolve fileSystem manifest = (manifest', Ok tt) →
  Forall (λ file,
            f_isResolved file = true ∧
            Type_IsValid (f_Type file) = true ∧ f_Type file ≠ TypeAUTO ∧
            Go.HasSuffix (f_Name file) "/" = (f_Type file =? TypeDIR)%N ∧
            (f_IsConf file = true → f_Type file = TypeREG) ∧
            ((f_Type file =? TypeREG)%N = false → f_size file = 0))
         (m_Files manifest').
Proof.
  intros Hres.
  destruct (Manifest_Resolve_ok _ _ _ Hres) as (total & Hloop & _).
  destruct (forFiles_resolve _ _ _ _ _ _ Hloop) as [Hall _].
  clear -Hall. induction Hall as [|f f' l l' Hf _ IH]; constructor; [|exact IH].
  pose proof (File_Resolve_ok _ _ _ Hf) as (_ & _ & _ & _ & Hsize).
  apply File_Resolve_shape in Hf. destruct Hf as (v & size & Hv & ->).
  apply validateImpl_wellformed in Hv.
  destruct Hv as (Hvalid & Hna & Hname & Hcontent & _).
  change (f_Type (File_setResolved v size)) with (f_Type v) in *.
  simpl f_Name. simpl f_IsConf. simpl f_isResolved.
  split; [reflexivity|]. split; [exact Hvalid|]. split; [exact Hna|].
  split; [|split].
  - destruct (f_Type v =? TypeDIR)%N; tauto.
  - intros Hconf. destruct (N.eqb_spec (f_Type v) TypeREG) as [E|_];
      [exact E|]. destruct Hcontent as [Hc _]. congruence.
  - intros Hreg. rewrite Hreg in Hsize. exact Hsize.
Qed.

Lemma Resolve_entries_wellformed_witness :
  Forall (λ file,
            f_isResolved file = true ∧
            Type_IsValid (f_Type file) = true ∧ f_Type file ≠ TypeAUTO ∧
            Go.HasSuffix (f_Name file) "/" = (f_Type file =? TypeDIR)%N ∧
            (f_IsConf file = true → f_Type file = TypeREG) ∧
            ((f_Type file =? TypeREG)%N = false → f_size file = 0))
         (m_Files fooResolved).
Proof.
  apply (Resolve_entries_wellformed Ref.emptyFS fooManifest fooResolved).
  vm_compute. reflexivity.
Defined.
